(** * Trick-play pipeline: manifest composer, cache invalidator, thumbnail extractor

    A shallow embedding of the three stages of the serverless trick-play
    pipeline (src/src/manifest_updater, src/src/cache_invalidator,
    src/src/trick_play_generator) and of the helpers they share
    (src/shared), followed by the properties of the specification.

    Python strings are modelled by [string]; the operations used by the
    source ([in], [str.replace], [str.split], [str.join], f-strings) are
    given their Python meaning in module [Py]. *)

From Stdlib Require Import Ascii.
From stdpp Require Import gmap strings list pretty sorting.

(** ** Python string operations *)

Module Py.

(** [s.startswith(p)] *)
Fixpoint startswith (p s : string) : bool :=
  match p, s with
  | "", _ => true
  | String _ _, "" => false
  | String a p', String b s' => bool_decide (a = b) && startswith p' s'
  end.

(** [sub in s] *)
Fixpoint contains (sub s : string) : bool :=
  startswith sub s ||
  match s with
  | "" => false
  | String _ s' => contains sub s'
  end.

(** A replacement budget: [None] is Python's default count (-1, replace
    every occurrence), [Some n] is an explicit [count] of [n]. *)
Definition budget_left (count : option nat) : bool :=
  match count with
  | Some 0 => false
  | _ => true
  end.

Definition budget_pred (count : option nat) : option nat :=
  Nat.pred <$> count.

(** [s.replace(old, new, count)] for a non-empty [old] (every call site
    passes a non-empty literal): scan from the left; at a position where
    [old] starts and the budget allows, emit [new] and jump over [old]
    (occurrences never overlap), otherwise copy one character. [skip]
    counts the characters of a matched [old] that are still to be jumped
    over. *)
Fixpoint replace_go (old new : string) (skip : nat) (count : option nat)
    (s : string) : string :=
  match s with
  | "" => ""
  | String c s' =>
      match skip with
      | S k => replace_go old new k count s'
      | 0 =>
          if budget_left count && startswith old s
          then new +:+ replace_go old new (String.length old - 1)
                         (budget_pred count) s'
          else String c (replace_go old new 0 count s')
      end
  end.

Definition replace (old new : string) (count : option nat) (s : string)
    : string :=
  replace_go old new 0 count s.

(** [s.split(sep, maxsplit)] for a one-character separator; [None] is the
    default [maxsplit] (-1, no limit). The result is never empty. *)
Fixpoint split (sep : Ascii.ascii) (maxsplit : option nat) (s : string)
    : list string :=
  match s with
  | "" => [""]
  | String c s' =>
      if bool_decide (c = sep) && budget_left maxsplit
      then "" :: split sep (budget_pred maxsplit) s'
      else match split sep maxsplit s' with
           | [] => [String c ""]
           | h :: t => String c h :: t
           end
  end.

(** [sep.join(l)] *)
Fixpoint join (sep : string) (l : list string) : string :=
  match l with
  | [] => ""
  | [x] => x
  | x :: l' => x +:+ sep +:+ join sep l'
  end.

(** [s.endswith(p)] *)
Definition endswith (p s : string) : bool :=
  startswith (String.rev p) (String.rev s).

(** [str(n)] and [f"{n}"] for an [int]. *)
Definition str_of_int (n : Z) : string := pretty n.

End Py.

(** The characters that cannot be written inside a string literal. *)
Definition nl : string := String "010"%char "".
Definition dquote : string := String "034"%char "".

(** ** Exceptions (src/shared/errors.py and the built-in ones the code meets) *)

Inductive ExnKind :=
  | KeyError | IndexError | TypeError | ValueError | AttributeError
  | JSONDecodeError | UnicodeDecodeError | OSError | ClientError
  | ParamValidationError
  | TrickPlayError | S3Error | FFMpegError | ManifestGenerationError
  | CDNInvalidationError | ConfigurationError.

Global Instance ExnKind_eq_dec : EqDecision ExnKind.
Proof. solve_decision. Defined.

(** An exception: its class and [str(e)]. *)
Record Exn := mkExn { exn_kind : ExnKind; exn_str : string }.

Global Instance Exn_eq_dec : EqDecision Exn.
Proof. solve_decision. Defined.

(** [isinstance(e, TrickPlayError)]: the base class and its five subclasses. *)
Definition is_TrickPlayError (e : Exn) : bool :=
  match exn_kind e with
  | TrickPlayError | S3Error | FFMpegError | ManifestGenerationError
  | CDNInvalidationError | ConfigurationError => true
  | _ => false
  end.

Inductive Result (A : Type) :=
  | Ok (a : A)
  | Raise (e : Exn).
Global Arguments Ok {A} a.
Global Arguments Raise {A} e.

(** ** JSON values (message bodies and published messages) *)

#[warnings="-register-all"]
Inductive json :=
  | JNull
  | JBool (b : bool)
  | JNum (n : Z)
  | JStr (s : string)
  | JArr (items : list json)
  | JObj (fields : list (string * json)).

(** ** The world: object storage, the trace of external calls, the log *)

Inductive Level := INFO | ERROR | WARNING | DEBUG.

Global Instance Level_eq_dec : EqDecision Level.
Proof. solve_decision. Defined.

(** One [StructuredLogger] record: level, message and the [exception=]
    keyword when given; the other keyword arguments are not modelled. *)
Record LogEntry := mkLog {
  log_level : Level;
  log_message : string;
  log_exception : option Exn
}.

(** Calls that leave the process: boto3 clients and the sampler process. *)
Inductive Call :=
  | S3GetObject (bucket key : string)
  | S3PutObject (bucket key body content_type : string) (public : bool)
  | S3DownloadFile (bucket key file_path : string)
  | S3UploadFile (bucket key file_path content_type : string) (public : bool)
  | CloudFrontCreateInvalidation (distribution_id : string) (paths : list string)
  | SQSSendMessage (queue_url : string) (message_body : json)
  | SQSDeleteMessage (queue_url receipt_handle : string)
  | Popen (cmd : list string).

(** [objects] maps (bucket, key) to the body of the stored object;
    [calls] and [logs] grow at the end, oldest first. *)
Record World := mkWorld {
  objects : gmap (string * string) string;
  calls : list Call;
  logs : list LogEntry
}.

(** ** Computations: state passing with exceptions

    A raised exception keeps the effects performed before it. *)

Definition M (A : Type) : Type := World → Result A * World.

Global Instance M_ret : MRet M := λ A a w, (Ok a, w).

Global Instance M_bind : MBind M := λ A B f m w,
  match m w with
  | (Ok a, w') => f a w'
  | (Raise e, w') => (Raise e, w')
  end.

Definition raise {A} (e : Exn) : M A := λ w, (Raise e, w).

(** [try: m  except Exception as e: handler e] *)
Definition try_except {A} (m : M A) (handler : Exn → M A) : M A := λ w,
  match m w with
  | (Ok a, w') => (Ok a, w')
  | (Raise e, w') => handler e w'
  end.

Definition get_world : M World := λ w, (Ok w, w).

Definition modify_world (f : World → World) : M unit := λ w, (Ok (), f w).

Definition add_call (c : Call) (w : World) : World :=
  mkWorld (objects w) (calls w ++ [c]) (logs w).

Definition add_log (e : LogEntry) (w : World) : World :=
  mkWorld (objects w) (calls w) (logs w ++ [e]).

Definition store_object (bucket key body : string) (w : World) : World :=
  mkWorld (<[(bucket, key) := body]> (objects w)) (calls w) (logs w).

Definition record_call (c : Call) : M unit := modify_world (add_call c).

(** [for x in xs: body x] *)
Fixpoint for_each {A} (body : A → M unit) (xs : list A) : M unit :=
  match xs with
  | [] => mret ()
  | x :: xs' => body x;; for_each body xs'
  end.

(** [l[i]] for a non-negative index. *)
Definition list_index {A} (l : list A) (i : nat) : M A :=
  match l !! i with
  | Some x => mret x
  | None => raise (mkExn IndexError "list index out of range")
  end.

(** ** src/shared/logger.py *)

Module StructuredLogger.

Definition emit (lvl : Level) (message : string) (exception : option Exn)
    : M unit :=
  modify_world (add_log (mkLog lvl message exception)).

Definition info (message : string) : M unit := emit INFO message None.
Definition error (message : string) (exception : option Exn) : M unit :=
  emit ERROR message exception.
Definition warning (message : string) : M unit := emit WARNING message None.
Definition debug (message : string) : M unit := emit DEBUG message None.

End StructuredLogger.

(** ** src/shared/config.py *)

(** The class attributes of [Config], read from the environment when the
    module is loaded. An unset variable without default is [None]. *)
Record Config := mkConfig {
  AWS_REGION : string;
  AWS_S3_BUCKET : option string;
  AWS_CLOUDFRONT_DISTRIBUTION_ID : option string;
  THUMBNAIL_INTERVAL : Z;
  THUMBNAIL_WIDTH : Z;
  THUMBNAIL_HEIGHT : Z;
  THUMBNAIL_FORMAT : string;
  THUMBNAIL_BIG_WIDTH : Z;
  THUMBNAIL_BIG_HEIGHT : Z;
  THUMBNAIL_SMALL_BANDWIDTH : Z;
  THUMBNAIL_BIG_BANDWIDTH : Z;
  THUMBNAILS_FOLDER : string;
  SQS_MANIFEST_QUEUE_URL : option string;
  SQS_CACHE_INVALIDATION_QUEUE_URL : option string
}.

Definition THUMBNAIL_SMALL_RESOLUTION (cfg : Config) : string :=
  Py.str_of_int (THUMBNAIL_WIDTH cfg) +:+ "x" +:+ Py.str_of_int (THUMBNAIL_HEIGHT cfg).
Definition THUMBNAIL_SMALL_SUFFIX : string := "_small".
Definition THUMBNAIL_BIG_RESOLUTION (cfg : Config) : string :=
  Py.str_of_int (THUMBNAIL_BIG_WIDTH cfg) +:+ "x" +:+ Py.str_of_int (THUMBNAIL_BIG_HEIGHT cfg).
Definition THUMBNAIL_BIG_SUFFIX : string := "_big".

(** Truth value of an [Optional[str]]: [None] and the empty string are false. *)
Definition truthy (o : option string) : bool :=
  match o with
  | None | Some "" => false
  | Some _ => true
  end.

(** [a or b] on [Optional[str]] values. *)
Definition py_or (a b : option string) : option string :=
  if truthy a then a else b.

(** [Config.validate()] *)
Definition validate (cfg : Config) : M bool :=
  let required :=
    [("AWS_S3_BUCKET", AWS_S3_BUCKET cfg);
     ("AWS_CLOUDFRONT_DISTRIBUTION_ID", AWS_CLOUDFRONT_DISTRIBUTION_ID cfg)] in
  let missing := (filter (λ var, negb (truthy var.2)) required).*1 in
  if bool_decide (missing = [])
  then mret true
  else raise (mkExn ValueError
                ("Missing required environment variables: " +:+ Py.join ", " missing)).

(** The values of the defaults in config.py. *)
Definition default_config (bucket distribution : option string)
    (manifest_queue invalidation_queue : option string) : Config :=
  mkConfig "us-east-1" bucket distribution 10 320 180 "jpg" 640 360
           16460 32920 "thumbs" manifest_queue invalidation_queue.

(** ** src/shared/aws_helpers.py: S3Helper

    Object storage is the finite map [objects]. [get_object] on a missing
    key is boto3's [ClientError], which the helper turns into [S3Error];
    writes succeed. *)

Module S3Helper.

Definition no_such_key : string :=
  "An error occurred (NoSuchKey) when calling the GetObject operation: The specified key does not exist.".

Definition put_object (bucket key body content_type : string) (public : bool)
    : M unit :=
  StructuredLogger.info "Putting object to S3";;
  record_call (S3PutObject bucket key body content_type public);;
  modify_world (store_object bucket key body).

Definition get_object (bucket key : string) : M string :=
  record_call (S3GetObject bucket key);;
  w ← get_world;
  match objects w !! (bucket, key) with
  | Some body => mret body
  | None =>
      raise (mkExn S3Error
               ("Error getting object " +:+ bucket +:+ "/" +:+ key +:+ ": "
                +:+ no_such_key))
  end.

(** [S3Helper.download_file]: the local copy is never read again, only the
    request is recorded. *)
Definition download_file (bucket key file_path : string) : M unit :=
  StructuredLogger.info "Downloading S3 file";;
  record_call (S3DownloadFile bucket key file_path);;
  w ← get_world;
  match objects w !! (bucket, key) with
  | Some _ => mret ()
  | None =>
      raise (mkExn S3Error
               ("Error downloading " +:+ bucket +:+ "/" +:+ key +:+ ": "
                +:+ no_such_key))
  end.

(** [S3Helper.upload_file]; [file_body] is the content of the local file
    at [file_path]. *)
Definition upload_file (bucket key file_path file_body content_type : string)
    (public : bool) : M unit :=
  StructuredLogger.info "Uploading to S3";;
  record_call (S3UploadFile bucket key file_path content_type public);;
  modify_world (store_object bucket key file_body).

End S3Helper.

(** ** src/src/manifest_updater/updater.py *)

Module ManifestUpdater.
Section Updater.

Context (cfg : Config).

Definition CONTENT_TYPE : string := "application/vnd.apple.mpegurl".

(** [hls_url.replace("s3://", "").split("/", 1)], [IndexError] at [[1]]
    when the URL holds no slash after the scheme. *)
Definition playlist_key_parts (hls_url : string) : list string :=
  Py.split "/"%char (Some 1) (Py.replace "s3://" "" None hls_url).

Definition playlist_key_of (hls_url : string) : M string :=
  list_index (playlist_key_parts hls_url) 1.

Definition image_stream_line (manifest_filename resolution : string)
    (bandwidth : Z) : string :=
  "#EXT-X-IMAGE-STREAM-INF:BANDWIDTH=" +:+ Py.str_of_int bandwidth
  +:+ ",RESOLUTION=" +:+ resolution +:+ ","
  +:+ "CODECS=" +:+ dquote +:+ "jpeg" +:+ dquote +:+ ",URI=" +:+ dquote
  +:+ manifest_filename +:+ dquote +:+ nl.

(** The text computed between the already-updated check and the upload. *)
Definition updated_content (playlist_content manifest_filename resolution : string)
    (bandwidth : Z) : string :=
  let image_stream_line := image_stream_line manifest_filename resolution bandwidth in
  if Py.contains "#EXT-X-STREAM-INF" playlist_content
  then Py.replace "#EXT-X-STREAM-INF" (image_stream_line +:+ "#EXT-X-STREAM-INF")
                  (Some 1) playlist_content
  else Py.replace "#EXT-X-ENDLIST" (image_stream_line +:+ "#EXT-X-ENDLIST")
                  None playlist_content.

Definition _update_main_playlist (bucket media_path hls_url manifest_filename
    resolution : string) (bandwidth : Z) : M unit :=
  try_except
    (playlist_key ← playlist_key_of hls_url;
     playlist_content ← S3Helper.get_object bucket playlist_key;
     if Py.contains manifest_filename playlist_content
     then StructuredLogger.info "Playlist already updated"
     else
       S3Helper.put_object bucket playlist_key
         (updated_content playlist_content manifest_filename resolution bandwidth)
         CONTENT_TYPE true;;
       StructuredLogger.info "Playlist updated")
    (λ e, StructuredLogger.error "Playlist update failed" (Some e);; raise e).

Definition relative_path_of (media_path : string) : string :=
  if Py.contains "hls/" media_path then "../thumbs/" else "thumbs/".

Definition manifest_header : list string :=
  ["#EXTM3U";
   "#EXT-X-TARGETDURATION:" +:+ Py.str_of_int (THUMBNAIL_INTERVAL cfg);
   "#EXT-X-VERSION:7";
   "#EXT-X-MEDIA-SEQUENCE:1";
   "#EXT-X-PLAYLIST-TYPE:VOD";
   "#EXT-X-IMAGES-ONLY";
   ""].

(** [thumbnail_key.split("/")[-1]] *)
Definition thumbnail_name_of (thumbnail_key : string) : string :=
  List.last (Py.split "/"%char None thumbnail_key) "".

(** One turn of the loop over [thumbnails]: four appends. *)
Definition append_entry (relative_path resolution : string)
    (manifest_lines : list string) (thumbnail_key : string) : list string :=
  let thumbnail_name := thumbnail_name_of thumbnail_key in
  (((manifest_lines
      ++ ["#EXTINF:" +:+ Py.str_of_int (THUMBNAIL_INTERVAL cfg) +:+ ".000,"])
      ++ ["#EXT-X-TILES:RESOLUTION=" +:+ resolution +:+ ",LAYOUT=1x1,DURATION="
          +:+ Py.str_of_int (THUMBNAIL_INTERVAL cfg) +:+ ".000"])
      ++ [relative_path +:+ thumbnail_name])
      ++ [""].

Definition manifest_lines_of (media_path : string) (thumbnails : list string)
    (resolution : string) : list string :=
  let relative_path := relative_path_of media_path in
  foldl (append_entry relative_path resolution) manifest_header thumbnails
    ++ ["#EXT-X-ENDLIST"].

Definition manifest_content_of (media_path : string) (thumbnails : list string)
    (resolution : string) : string :=
  Py.join nl (manifest_lines_of media_path thumbnails resolution).

Definition manifest_filename_of (resolution : string) : string :=
  "thumbs_" +:+ resolution +:+ ".m3u8".

Definition _create_manifest (bucket media_path hls_url : string)
    (thumbnails : list string) (resolution : string) (bandwidth : Z)
    (suffix : string) : M string :=
  try_except
    (let manifest_content := manifest_content_of media_path thumbnails resolution in
     let manifest_filename := manifest_filename_of resolution in
     let manifest_key := media_path +:+ manifest_filename in
     S3Helper.put_object bucket manifest_key manifest_content CONTENT_TYPE true;;
     _update_main_playlist bucket media_path hls_url manifest_filename
       resolution bandwidth;;
     StructuredLogger.info "Manifest created";;
     mret ("Created " +:+ manifest_filename +:+ " for " +:+ resolution))
    (λ e, StructuredLogger.error "Manifest creation failed" (Some e);; raise e).

(** Truth value of a list. *)
Definition nonempty {A} (l : list A) : bool :=
  match l with [] => false | _ => true end.

Definition create_manifests_and_update_playlist (bucket media_path hls_url : string)
    (small_thumbnails big_thumbnails : list string) : M (gmap string string) :=
  try_except
    (StructuredLogger.info "Creating manifests";;
     let results : gmap string string := ∅ in
     results ←
       (if nonempty small_thumbnails
        then
          r ← _create_manifest bucket media_path hls_url small_thumbnails
                 (THUMBNAIL_SMALL_RESOLUTION cfg) (THUMBNAIL_SMALL_BANDWIDTH cfg)
                 "small";
          mret (<["small" := r]> results)
        else mret results);
     results ←
       (if nonempty big_thumbnails
        then
          r ← _create_manifest bucket media_path hls_url big_thumbnails
                 (THUMBNAIL_BIG_RESOLUTION cfg) (THUMBNAIL_BIG_BANDWIDTH cfg)
                 "big";
          mret (<["big" := r]> results)
        else mret results);
     StructuredLogger.info "Manifests created successfully";;
     mret results)
    (λ e,
       StructuredLogger.error "Manifest creation failed" (Some e);;
       raise (mkExn ManifestGenerationError
                ("Failed to create manifests for " +:+ media_path +:+ ": "
                 +:+ exn_str e))).

End Updater.
End ManifestUpdater.

(** ** The services behind the boto3 clients and the sampler process

    What a provider answers to a request is not decided by this code: it is
    a parameter of the model. A rejected request is botocore's
    [ClientError], with its [str(e)]. The same holds for what the sampler
    process does, for the temporary directory of the extractor, and for the
    library functions whose result the model does not compute (decoding
    JSON and UTF-8, [repr]). *)

Inductive Response (A : Type) :=
  | Accepted (a : A)
  | Rejected (error : string).
Global Arguments Accepted {A} a.
Global Arguments Rejected {A} error.

(** A finished sampler process: exit status, captured output (bytes), and
    the files it left in its output directory, name and content, in the
    order [os.listdir] reports them. *)
Record Process := mkProcess {
  returncode : Z;
  stdout : string;
  stderr : string;
  output_files : list (string * string)
}.

Record Env := mkEnv {
  (** [json.loads]; [None] is [json.JSONDecodeError] *)
  json_loads : string → option json;
  (** [bytes.decode("utf-8")]; [None] is [UnicodeDecodeError] *)
  decode_utf8 : string → option string;
  (** the temporary directory handed out by [tempfile.TemporaryDirectory] *)
  tmpdir : string;
  (** the [OSError] that [tempfile.TemporaryDirectory()] raises instead of
      handing out [tmpdir], if it does *)
  tmpdir_error : option Exn;
  (** the [OSError] raised while the directory is removed on leaving the
      [with] block, if there is one *)
  cleanup_error : option Exn;
  (** [repr] of a list or a dictionary *)
  py_repr : json → string;
  (** [subprocess.Popen(cmd).communicate()]; [Raise] when the process
      cannot be started *)
  run_process : list string → Result Process;
  cloudfront_create_invalidation : string → list string → Response string;
  sqs_send_message : string → json → Response string;
  sqs_delete_message : string → string → Response ()
}.

(** ** src/shared/aws_helpers.py: CloudFrontHelper, SQSHelper *)

Module CloudFrontHelper.
Section CloudFront.

Context (env : Env).

Definition invalidate_paths (distribution_id : string) (paths : list string)
    : M (option string) :=
  if bool_decide (paths = [])
  then
    StructuredLogger.warning "No paths provided for CloudFront invalidation";;
    mret None
  else
    StructuredLogger.info "Creating CloudFront invalidation";;
    record_call (CloudFrontCreateInvalidation distribution_id paths);;
    match cloudfront_create_invalidation env distribution_id paths with
    | Accepted invalidation_id =>
        StructuredLogger.info "CloudFront invalidation created";;
        mret (Some invalidation_id)
    | Rejected error =>
        raise (mkExn CDNInvalidationError
                 ("Error invalidating CloudFront: " +:+ error))
    end.

End CloudFront.
End CloudFrontHelper.

Module SQSHelper.
Section SQS.

Context (env : Env).

Definition send_message (queue_url : option string) (message_body : json)
    : M string :=
  match queue_url with
  | Some (String c u) =>
      let queue_url := String c u in
      StructuredLogger.info "Sending SQS message";;
      record_call (SQSSendMessage queue_url message_body);;
      match sqs_send_message env queue_url message_body with
      | Accepted message_id =>
          StructuredLogger.info "SQS message sent";;
          mret message_id
      | Rejected error =>
          raise (mkExn S3Error ("Error sending SQS message: " +:+ error))
      end
  | _ => raise (mkExn ConfigurationError "SQS queue URL not provided")
  end.

(** boto3 validates its parameters before any request: a queue URL of
    [None], or a receipt handle that is no string, is
    [ParamValidationError], which the helper does not catch. *)
Definition delete_message (queue_url : option string) (receipt_handle : json)
    : M unit :=
  match queue_url, receipt_handle with
  | Some queue_url, JStr receipt_handle =>
      record_call (SQSDeleteMessage queue_url receipt_handle);;
      match sqs_delete_message env queue_url receipt_handle with
      | Accepted _ => StructuredLogger.info "SQS message deleted"
      | Rejected error =>
          raise (mkExn S3Error ("Error deleting SQS message: " +:+ error))
      end
  | None, _ =>
      raise (mkExn ParamValidationError
               "Parameter validation failed: Invalid type for parameter QueueUrl")
  | Some _, _ =>
      raise (mkExn ParamValidationError
               "Parameter validation failed: Invalid type for parameter ReceiptHandle")
  end.

End SQS.
End SQSHelper.

(** ** Decoded values

    Messages are dictionaries decoded from JSON, and the handlers pass
    their fields on as they are. The operations the code applies to them
    are given for every value, with the exception Python raises where the
    value does not support the operation. A dictionary has distinct keys;
    numbers are integers. *)

Module PyValue.

(** [type(v).__name__] *)
Definition type_name (v : json) : string :=
  match v with
  | JNull => "NoneType"
  | JBool _ => "bool"
  | JNum _ => "int"
  | JStr _ => "str"
  | JArr _ => "list"
  | JObj _ => "dict"
  end.

(** [bool(v)], the test of [if v:] and [not v] *)
Definition truth (v : json) : bool :=
  match v with
  | JNull => false
  | JBool b => b
  | JNum n => negb (bool_decide (n = 0%Z))
  | JStr s => negb (bool_decide (s = ""))
  | JArr items => negb (bool_decide (items = []))
  | JObj fields => negb (bool_decide (fields = []))
  end.

(** [len(v)] *)
Definition len (v : json) : M nat :=
  match v with
  | JStr s => mret (String.length s)
  | JArr items => mret (length items)
  | JObj fields => mret (length fields)
  | _ =>
      raise (mkExn TypeError
               ("object of type '" +:+ type_name v +:+ "' has no len()"))
  end.

Definition is_str (s : string) (v : json) : bool :=
  match v with
  | JStr s' => bool_decide (s' = s)
  | _ => false
  end.

(** [sub in v] for a string [sub]: substring of a string, element of a
    list, key of a dictionary. *)
Definition contains (sub : string) (v : json) : M bool :=
  match v with
  | JStr s => mret (Py.contains sub s)
  | JArr items => mret (existsb (is_str sub) items)
  | JObj fields => mret (existsb (λ field, bool_decide (field.1 = sub)) fields)
  | _ =>
      raise (mkExn TypeError
               ("argument of type '" +:+ type_name v +:+ "' is not iterable"))
  end.

Fixpoint chars (s : string) : list json :=
  match s with
  | "" => []
  | String c s' => JStr (String c "") :: chars s'
  end.

(** The values [for x in v] runs through: the characters of a string, the
    items of a list, the keys of a dictionary. *)
Definition iter (v : json) : M (list json) :=
  match v with
  | JStr s => mret (chars s)
  | JArr items => mret items
  | JObj fields => mret (JStr <$> fields.*1)
  | _ =>
      raise (mkExn TypeError ("'" +:+ type_name v +:+ "' object is not iterable"))
  end.

(** The receiver of [v.name(...)] for a method [name] of [str]. *)
Definition str_method (name : string) (v : json) : M string :=
  match v with
  | JStr s => mret s
  | _ =>
      raise (mkExn AttributeError
               ("'" +:+ type_name v +:+ "' object has no attribute '" +:+ name
                +:+ "'"))
  end.

(** [str(v)], also [f"{v}"]; [repr] gives the text of a list or a
    dictionary. *)
Definition str (repr : json → string) (v : json) : string :=
  match v with
  | JNull => "None"
  | JBool true => "True"
  | JBool false => "False"
  | JNum n => Py.str_of_int n
  | JStr s => s
  | JArr _ | JObj _ => repr v
  end.

(** A list of strings, as a decoded value. *)
Definition of_strs (l : list string) : json := JArr (JStr <$> l).

End PyValue.

Module Dict.

Fixpoint lookup (key : string) (fields : list (string * json)) : option json :=
  match fields with
  | [] => None
  | (k, v) :: fields' => if bool_decide (k = key) then Some v else lookup key fields'
  end.

(** [d[key]] *)
Definition item (d : json) (key : string) : M json :=
  match d with
  | JObj fields =>
      match lookup key fields with
      | Some v => mret v
      | None => raise (mkExn KeyError ("'" +:+ key +:+ "'"))
      end
  | JArr _ =>
      raise (mkExn TypeError "list indices must be integers or slices, not str")
  | JStr _ => raise (mkExn TypeError "string indices must be integers, not 'str'")
  | _ =>
      raise (mkExn TypeError
               ("'" +:+ PyValue.type_name d +:+ "' object is not subscriptable"))
  end.

(** [d.get(key, default)] *)
Definition get (d : json) (key : string) (default : json) : M json :=
  match d with
  | JObj fields => mret (from_option id default (lookup key fields))
  | _ =>
      raise (mkExn AttributeError
               ("'" +:+ PyValue.type_name d +:+ "' object has no attribute 'get'"))
  end.

Fixpoint strs_of (items : list json) : option (list string) :=
  match items with
  | [] => Some []
  | JStr s :: items' => (s ::.) <$> strs_of items'
  | _ :: _ => None
  end.

End Dict.

Module Json.

(** [json.loads(raw)] *)
Definition loads (env : Env) (raw : json) : M json :=
  match raw with
  | JStr raw =>
      match json_loads env raw with
      | Some v => mret v
      | None => raise (mkExn JSONDecodeError "Expecting value")
      end
  | _ =>
      raise (mkExn TypeError
               ("the JSON object must be str, bytes or bytearray, not "
                +:+ PyValue.type_name raw))
  end.

End Json.

(** ** The updater and the invalidator on unchecked arguments

    The type annotations of updater.py, invalidator.py and aws_helpers.py
    are not enforced, and the handlers call these methods with the decoded
    fields of a message. The same methods are given here for arguments of
    any type; on arguments of the annotated types they are the functions
    of [ManifestUpdater], [CloudFrontHelper] and [CacheInvalidator] (lemmas
    [unchecked_composer_typed] and [unchecked_invalidate_cache_typed]). *)

Module Unchecked.
Section Unchecked.

Context (env : Env) (cfg : Config).

Definition _update_main_playlist (bucket : string) (media_path hls_url : json)
    (manifest_filename resolution : string) (bandwidth : Z) : M unit :=
  try_except
    (hls_url ← PyValue.str_method "replace" hls_url;
     playlist_key ← ManifestUpdater.playlist_key_of hls_url;
     playlist_content ← S3Helper.get_object bucket playlist_key;
     if Py.contains manifest_filename playlist_content
     then StructuredLogger.info "Playlist already updated"
     else
       S3Helper.put_object bucket playlist_key
         (ManifestUpdater.updated_content playlist_content manifest_filename
            resolution bandwidth)
         ManifestUpdater.CONTENT_TYPE true;;
       StructuredLogger.info "Playlist updated")
    (λ e, StructuredLogger.error "Playlist update failed" (Some e);; raise e).

(** The loop over [thumbnails]: [thumbnail_key.split] needs a string. *)
Fixpoint append_entries (relative_path resolution : string)
    (manifest_lines : list string) (thumbnails : list json) : M (list string) :=
  match thumbnails with
  | [] => mret manifest_lines
  | thumbnail_key :: rest =>
      thumbnail_key ← PyValue.str_method "split" thumbnail_key;
      append_entries relative_path resolution
        (ManifestUpdater.append_entry cfg relative_path resolution manifest_lines
           thumbnail_key)
        rest
  end.

Definition _create_manifest (bucket : string) (media_path hls_url thumbnails : json)
    (resolution : string) (bandwidth : Z) (suffix : string) : M string :=
  try_except
    (in_hls ← PyValue.contains "hls/" media_path;
     let relative_path := if (in_hls : bool) then "../thumbs/" else "thumbs/" in
     thumbnail_keys ← PyValue.iter thumbnails;
     manifest_lines ←
       append_entries relative_path resolution (ManifestUpdater.manifest_header cfg)
         thumbnail_keys;
     let manifest_lines := manifest_lines ++ ["#EXT-X-ENDLIST"] in
     let manifest_content := Py.join nl manifest_lines in
     let manifest_filename := ManifestUpdater.manifest_filename_of resolution in
     let manifest_key := PyValue.str (py_repr env) media_path +:+ manifest_filename in
     S3Helper.put_object bucket manifest_key manifest_content
       ManifestUpdater.CONTENT_TYPE true;;
     _update_main_playlist bucket media_path hls_url manifest_filename
       resolution bandwidth;;
     StructuredLogger.info "Manifest created";;
     mret ("Created " +:+ manifest_filename +:+ " for " +:+ resolution))
    (λ e, StructuredLogger.error "Manifest creation failed" (Some e);; raise e).

(** The first log call takes [len] of both lists before it logs. *)
Definition create_manifests_and_update_playlist (bucket : string)
    (media_path hls_url small_thumbnails big_thumbnails : json)
    : M (gmap string string) :=
  try_except
    (_ ← PyValue.len small_thumbnails;
     _ ← PyValue.len big_thumbnails;
     StructuredLogger.info "Creating manifests";;
     let results : gmap string string := ∅ in
     results ←
       (if PyValue.truth small_thumbnails
        then
          r ← _create_manifest bucket media_path hls_url small_thumbnails
                 (THUMBNAIL_SMALL_RESOLUTION cfg) (THUMBNAIL_SMALL_BANDWIDTH cfg)
                 "small";
          mret (<["small" := r]> results)
        else mret results);
     results ←
       (if PyValue.truth big_thumbnails
        then
          r ← _create_manifest bucket media_path hls_url big_thumbnails
                 (THUMBNAIL_BIG_RESOLUTION cfg) (THUMBNAIL_BIG_BANDWIDTH cfg)
                 "big";
          mret (<["big" := r]> results)
        else mret results);
     StructuredLogger.info "Manifests created successfully";;
     mret results)
    (λ e,
       StructuredLogger.error "Manifest creation failed" (Some e);;
       raise (mkExn ManifestGenerationError
                ("Failed to create manifests for "
                 +:+ PyValue.str (py_repr env) media_path +:+ ": " +:+ exn_str e))).

(** [client.create_invalidation] takes a list of strings; anything else is
    botocore's [ParamValidationError], raised before any request and not a
    [ClientError]. *)
Definition invalidate_paths (distribution_id : string) (paths : json)
    : M (option string) :=
  if negb (PyValue.truth paths)
  then
    StructuredLogger.warning "No paths provided for CloudFront invalidation";;
    mret None
  else
    _ ← PyValue.len paths;
    StructuredLogger.info "Creating CloudFront invalidation";;
    _ ← PyValue.len paths;
    match paths with
    | JArr items =>
        match Dict.strs_of items with
        | Some paths =>
            record_call (CloudFrontCreateInvalidation distribution_id paths);;
            match cloudfront_create_invalidation env distribution_id paths with
            | Accepted invalidation_id =>
                StructuredLogger.info "CloudFront invalidation created";;
                mret (Some invalidation_id)
            | Rejected error =>
                raise (mkExn CDNInvalidationError
                         ("Error invalidating CloudFront: " +:+ error))
            end
        | None =>
            raise (mkExn ParamValidationError
                     "Parameter validation failed: Invalid type for parameter InvalidationBatch.Paths.Items")
        end
    | _ =>
        raise (mkExn ParamValidationError
                 "Parameter validation failed: Invalid type for parameter InvalidationBatch.Paths.Items")
    end.

Definition invalidate_cache (paths : json) (distribution_id : option string)
    : M (option string) :=
  try_except
    (let dist_id := py_or distribution_id (AWS_CLOUDFRONT_DISTRIBUTION_ID cfg) in
     match dist_id with
     | Some (String c d) =>
         let dist_id := String c d in
         if negb (PyValue.truth paths)
         then
           StructuredLogger.warning "No paths provided for invalidation";;
           mret None
         else
           _ ← PyValue.len paths;
           StructuredLogger.info "Invalidating CloudFront cache";;
           invalidation_id ← invalidate_paths dist_id paths;
           StructuredLogger.info "Cache invalidation completed";;
           mret invalidation_id
     | _ =>
         raise (mkExn CDNInvalidationError "CloudFront distribution ID not configured")
     end)
    (λ e,
       StructuredLogger.error "Cache invalidation failed" (Some e);;
       raise (mkExn CDNInvalidationError
                ("Failed to invalidate cache: " +:+ exn_str e))).

End Unchecked.
End Unchecked.

(** The Lambda context and the handlers' return value. *)
Record Context := mkContext { request_id : string }.

Record Event := mkEvent { Records : option (list json) }.

Record HttpResponse := mkResponse { statusCode : Z; body : json }.

(** ** src/src/manifest_updater/handler.py *)

Module ManifestUpdaterHandler.
Section Handler.

Context (env : Env) (cfg : Config).

Definition _build_invalidation_paths (media_path : string) : list string :=
  ["/" +:+ media_path +:+ "play.m3u8";
   "/" +:+ media_path +:+ "thumbs_320x180.m3u8";
   "/" +:+ media_path +:+ "thumbs_640x360.m3u8";
   "/" +:+ media_path +:+ "thumbs/*"].

(** [f"/{media_path}..."] formats the field with [str]. *)
Definition invalidation_message (media_key media_path : json)
    (context : Context) : json :=
  JObj [("media_key", media_key);
        ("media_path", media_path);
        ("paths_to_invalidate",
         JArr (JStr <$> _build_invalidation_paths
                          (PyValue.str (py_repr env) media_path)));
        ("request_id", JStr (request_id context))].

(** [str] of the bucket name handed to the updater. *)
Definition bucket_name : string := default "" (AWS_S3_BUCKET cfg).

(** The body of the inner [try]. *)
Definition process_record (context : Context) (record : json) : M unit :=
  raw ← Dict.item record "body";
  message_body ← Json.loads env raw;
  receipt_handle ← Dict.item record "receiptHandle";
  _ ← Dict.get message_body "media_key" JNull;
  StructuredLogger.info "Processing manifest update";;
  media_path ← Dict.item message_body "media_path";
  hls_url ← Dict.item message_body "hls_url";
  small_thumbnails ← Dict.get message_body "small_thumbnails" (JArr []);
  big_thumbnails ← Dict.get message_body "big_thumbnails" (JArr []);
  results ← Unchecked.create_manifests_and_update_playlist env cfg
               bucket_name media_path hls_url small_thumbnails big_thumbnails;
  media_key ← Dict.item message_body "media_key";
  let invalidation_message := invalidation_message media_key media_path context in
  (if truthy (SQS_CACHE_INVALIDATION_QUEUE_URL cfg)
   then
     _ ← SQSHelper.send_message env (SQS_CACHE_INVALIDATION_QUEUE_URL cfg)
            invalidation_message;
     mret ()
   else mret ());;
  SQSHelper.delete_message env (SQS_MANIFEST_QUEUE_URL cfg) receipt_handle;;
  StructuredLogger.info "Manifest update succeeded".

(** The two [except] clauses of the inner [try]. *)
Definition record_failed (e : Exn) : M unit :=
  if bool_decide (exn_kind e = JSONDecodeError)
  then StructuredLogger.error "Invalid SQS message format" (Some e)
  else StructuredLogger.error "Error processing SQS record" (Some e).

Definition handle_record (context : Context) (record : json) : M unit :=
  try_except (process_record context record) record_failed.

Definition lambda_handler (event : Event) (context : Context) : M HttpResponse :=
  try_except
    (StructuredLogger.info "Manifest updater lambda invoked";;
     _ ← validate cfg;
     for_each (handle_record context) (default [] (Records event));;
     mret (mkResponse 200 (JObj [("message", JStr "Manifests updated successfully")])))
    (λ e,
       if is_TrickPlayError e
       then
         StructuredLogger.error "Trick play error" (Some e);;
         mret (mkResponse 400 (JObj [("error", JStr (exn_str e))]))
       else
         StructuredLogger.error "Unexpected error in manifest updater" (Some e);;
         mret (mkResponse 500 (JObj [("error", JStr "Internal server error")]))).

End Handler.
End ManifestUpdaterHandler.

(** ** src/src/cache_invalidator/invalidator.py *)

Module CacheInvalidator.
Section Invalidator.

Context (env : Env) (cfg : Config).

Definition invalidate_cache (paths : list string) (distribution_id : option string)
    : M (option string) :=
  try_except
    (let dist_id := py_or distribution_id (AWS_CLOUDFRONT_DISTRIBUTION_ID cfg) in
     match dist_id with
     | Some (String c d) =>
         let dist_id := String c d in
         if bool_decide (paths = [])
         then
           StructuredLogger.warning "No paths provided for invalidation";;
           mret None
         else
           StructuredLogger.info "Invalidating CloudFront cache";;
           invalidation_id ← CloudFrontHelper.invalidate_paths env dist_id paths;
           StructuredLogger.info "Cache invalidation completed";;
           mret invalidation_id
     | _ =>
         raise (mkExn CDNInvalidationError "CloudFront distribution ID not configured")
     end)
    (λ e,
       StructuredLogger.error "Cache invalidation failed" (Some e);;
       raise (mkExn CDNInvalidationError
                ("Failed to invalidate cache: " +:+ exn_str e))).

End Invalidator.
End CacheInvalidator.

(** ** src/src/cache_invalidator/handler.py *)

Module CacheInvalidatorHandler.
Section Handler.

Context (env : Env) (cfg : Config).

Definition process_record (context : Context) (record : json) : M unit :=
  raw ← Dict.item record "body";
  message_body ← Json.loads env raw;
  receipt_handle ← Dict.item record "receiptHandle";
  media_key ← Dict.get message_body "media_key" JNull;
  paths ← Dict.get message_body "paths_to_invalidate" (JArr []);
  _ ← PyValue.len paths;
  StructuredLogger.info "Processing cache invalidation";;
  invalidation_id ← Unchecked.invalidate_cache env cfg paths
                       (AWS_CLOUDFRONT_DISTRIBUTION_ID cfg);
  StructuredLogger.info "Cache invalidation succeeded".

Definition record_failed (e : Exn) : M unit :=
  if bool_decide (exn_kind e = JSONDecodeError)
  then StructuredLogger.error "Invalid SQS message format" (Some e)
  else StructuredLogger.error "Error processing SQS record" (Some e).

Definition handle_record (context : Context) (record : json) : M unit :=
  try_except (process_record context record) record_failed.

Definition lambda_handler (event : Event) (context : Context) : M HttpResponse :=
  try_except
    (StructuredLogger.info "Cache invalidator lambda invoked";;
     _ ← validate cfg;
     for_each (handle_record context) (default [] (Records event));;
     mret (mkResponse 200 (JObj [("message", JStr "Cache invalidation completed")])))
    (λ e,
       if is_TrickPlayError e
       then
         StructuredLogger.error "Trick play error" (Some e);;
         mret (mkResponse 400 (JObj [("error", JStr (exn_str e))]))
       else
         StructuredLogger.error "Unexpected error in cache invalidator" (Some e);;
         mret (mkResponse 500 (JObj [("error", JStr "Internal server error")]))).

End Handler.
End CacheInvalidatorHandler.

(** ** src/src/trick_play_generator/generator.py *)

Module TrickPlayGenerator.
Section Generator.

Context (env : Env) (cfg : Config).

(** [os.path.join(a, b)] *)
Definition path_join (a b : string) : string :=
  if Py.startswith "/" b then b
  else if bool_decide (a = "") || Py.endswith "/" a then a +:+ b
  else a +:+ "/" +:+ b.

Definition ffmpeg_filter : string :=
  "select='if(not(floor(mod(t," +:+ Py.str_of_int (THUMBNAIL_INTERVAL cfg)
  +:+ ")))*lt(ld(1),1),"
  +:+ "st(1,1)+st(2,n)+st(3,t));if(eq(ld(1),1)*lt(n,ld(2)+1),1,if(trunc(t-ld(3)),st(1,0)))'".

Definition resolution_of (width height : Z) : string :=
  Py.str_of_int width +:+ "x" +:+ Py.str_of_int height.

Definition ffmpeg_cmd (hls_url media_key output_dir : string) (width height : Z)
    (suffix : string) : list string :=
  let output_pattern :=
    path_join output_dir
      (media_key +:+ suffix +:+ ".%05d." +:+ THUMBNAIL_FORMAT cfg) in
  ["ffmpeg"; "-i"; hls_url; "-vf"; ffmpeg_filter; "-vsync"; "0"; "-s";
   resolution_of width height; output_pattern].

(** [subprocess.Popen(cmd, ...)] followed by [process.communicate()] *)
Definition popen (cmd : list string) : M Process :=
  record_call (Popen cmd);;
  match run_process env cmd with
  | Ok process => mret process
  | Raise e => raise e
  end.

(** [stderr.decode("utf-8") if stderr else "Unknown FFmpeg error"] *)
Definition error_msg_of (stderr : string) : M string :=
  if bool_decide (stderr = "")
  then mret "Unknown FFmpeg error"
  else match decode_utf8 env stderr with
       | Some text => mret text
       | None =>
           raise (mkExn UnicodeDecodeError
                    "'utf-8' codec can't decode byte: invalid start byte")
       end.

(** The content of [filename] in the output directory. *)
Fixpoint file_body (filename : string) (files : list (string * string)) : string :=
  match files with
  | [] => ""
  | (name, content) :: files' =>
      if bool_decide (name = filename) then content else file_body filename files'
  end.

(** One turn of the upload loop over [sorted(os.listdir(output_dir))]. *)
Definition upload_entry (media_key output_dir bucket thumbnails_folder : string)
    (files : list (string * string)) (thumbnail_keys : list string)
    (filename : string) : M (list string) :=
  if Py.endswith ("." +:+ THUMBNAIL_FORMAT cfg) filename
  then
    let file_path := path_join output_dir filename in
    let s3_key := thumbnails_folder +:+ filename in
    S3Helper.upload_file bucket s3_key file_path (file_body filename files)
      ("image/" +:+ THUMBNAIL_FORMAT cfg) true;;
    StructuredLogger.debug "Thumbnail uploaded";;
    mret (thumbnail_keys ++ [s3_key])
  else mret thumbnail_keys.

Fixpoint upload_all (media_key output_dir bucket thumbnails_folder : string)
    (files : list (string * string)) (thumbnail_keys : list string)
    (filenames : list string) : M (list string) :=
  match filenames with
  | [] => mret thumbnail_keys
  | filename :: rest =>
      thumbnail_keys ← upload_entry media_key output_dir bucket
                          thumbnails_folder files thumbnail_keys filename;
      upload_all media_key output_dir bucket thumbnails_folder files
        thumbnail_keys rest
  end.

Definition _generate_resolution_thumbnails (hls_url media_key output_dir bucket
    media_path : string) (width height : Z) (suffix : string) : M (list string) :=
  try_except
    (let cmd := ffmpeg_cmd hls_url media_key output_dir width height suffix in
     StructuredLogger.info "Running FFmpeg";;
     process ← popen cmd;
     if bool_decide (returncode process ≠ 0%Z)
     then
       error_msg ← error_msg_of (stderr process);
       raise (mkExn FFMpegError
                ("FFmpeg failed for " +:+ media_key +:+ ": " +:+ error_msg))
     else
       let thumbnails_folder := media_path +:+ THUMBNAILS_FOLDER cfg +:+ "/" in
       thumbnail_keys ←
         upload_all media_key output_dir bucket thumbnails_folder
           (output_files process) []
           (merge_sort String.le (output_files process).*1);
       StructuredLogger.info "Resolution thumbnails generated and uploaded";;
       mret thumbnail_keys)
    (λ e,
       StructuredLogger.error "Resolution thumbnail generation failed" (Some e);;
       raise e).

(** [with tempfile.TemporaryDirectory() as tmpdir: body]: the directory is
    created before the body runs and removed when the body is left, by
    return or by exception; an error of either step is raised as it is. *)
Definition with_temporary_directory {A} (body : string → M A) : M A := λ w,
  match tmpdir_error env with
  | Some e => (Raise e, w)
  | None =>
      match cleanup_error env with
      | Some e => (Raise e, (body (tmpdir env) w).2)
      | None => body (tmpdir env) w
      end
  end.

(** The output directories are created inside the fresh temporary
    directory ([os.makedirs(..., exist_ok=True)]); the model keeps no local
    file system beyond what the sampler reports. *)
Definition generate_thumbnails (hls_url media_key bucket media_path : string)
    : M (list string * list string) :=
  with_temporary_directory (λ tmpdir,
    try_except
      (StructuredLogger.info "Starting thumbnail generation";;
       let manifest_path := path_join tmpdir "manifest.m3u8" in
       key ← ManifestUpdater.playlist_key_of hls_url;
       S3Helper.download_file bucket key manifest_path;;
       let small_dir := path_join tmpdir "small" in
       small_thumbnails ←
         _generate_resolution_thumbnails hls_url media_key small_dir bucket
           media_path (THUMBNAIL_WIDTH cfg) (THUMBNAIL_HEIGHT cfg)
           THUMBNAIL_SMALL_SUFFIX;
       let big_dir := path_join tmpdir "big" in
       big_thumbnails ←
         _generate_resolution_thumbnails hls_url media_key big_dir bucket
           media_path (THUMBNAIL_BIG_WIDTH cfg) (THUMBNAIL_BIG_HEIGHT cfg)
           THUMBNAIL_BIG_SUFFIX;
       StructuredLogger.info "Thumbnail generation completed";;
       mret (small_thumbnails, big_thumbnails))
      (λ e,
         StructuredLogger.error "Thumbnail generation failed" (Some e);;
         raise (mkExn FFMpegError
                  ("Failed to generate thumbnails for " +:+ media_key +:+ ": "
                   +:+ exn_str e)))).

End Generator.
End TrickPlayGenerator.

(** ** Vocabulary of the properties *)

(** [s] splits as [pre], then the leftmost occurrence of [old], then [post]. *)
Definition first_occurrence (old s pre post : string) : Prop :=
  s = pre +:+ old +:+ post ∧
  ∀ pre' post', s = pre' +:+ old +:+ post' →
    String.length pre ≤ String.length pre'.

Definition info_entry (message : string) : LogEntry := mkLog INFO message None.

(** ** Example inputs *)

(** A master playlist without stream directive and without end marker. *)
Definition bare_playlist : string := "#EXTM3U" +:+ nl.

(** A playlist that ends with the end marker and has no stream directive. *)
Definition ending_playlist : string := "#EXTM3U" +:+ nl +:+ "#EXT-X-ENDLIST".

Definition world_with (key content : string) : World :=
  mkWorld {[ ("media-bucket", key) := content ]} [] [].

(** ** Vocabulary of the manifest document *)

Section ManifestVocabulary.

Context (cfg : Config).

Definition duration_directive : string :=
  "#EXTINF:" +:+ Py.str_of_int (THUMBNAIL_INTERVAL cfg) +:+ ".000,".

Definition tile_directive (resolution : string) : string :=
  "#EXT-X-TILES:RESOLUTION=" +:+ resolution +:+ ",LAYOUT=1x1,DURATION="
  +:+ Py.str_of_int (THUMBNAIL_INTERVAL cfg) +:+ ".000".

(** The four lines of one tile entry: duration, tile directive, reference
    to the thumbnail file, blank line. *)
Definition tile_entry_lines (resolution reference : string) : list string :=
  [duration_directive; tile_directive resolution; reference; ""].

(** The same entry as text, each line closed by a newline. *)
Definition tile_entry_block (resolution reference : string) : string :=
  duration_directive +:+ nl +:+ tile_directive resolution +:+ nl
  +:+ reference +:+ nl +:+ nl.

End ManifestVocabulary.

Definition concat_text (blocks : list string) : string :=
  foldr String.append "" blocks.

(** [name] is the filename of the object key [key]: it holds no slash, and
    the key is [name] behind a directory part that is empty or ends with a
    slash. *)
Definition is_filename_of (name key : string) : Prop :=
  Py.contains "/" name = false ∧
  ∃ dir, key = dir +:+ name ∧ (dir = "" ∨ ∃ parent, dir = parent +:+ "/").

(** The path segments of a media path. *)
Definition segments (path : string) : list string := Py.split "/"%char None path.

(** The lines of a playlist that are references: neither blank nor a
    directive or comment (which start with [#]). *)
Definition is_reference (l : string) : bool :=
  negb (bool_decide (l = "")) && negb (Py.startswith "#" l).

Definition is_tile_directive (l : string) : bool :=
  Py.startswith "#EXT-X-TILES:" l.

Definition is_duration_directive (l : string) : bool :=
  Py.startswith "#EXTINF:" l.

(** ** The composer seen from the object store

    What [_update_main_playlist], [_create_manifest] and
    [create_manifests_and_update_playlist] leave in [objects], as functions
    of the objects they start from ([None]: the call raises). The lemmas
    [merge_run], [create_manifest_run] and [composer_run] tie them to the
    code above. *)

Section ComposerEffect.

Context (cfg : Config) (bucket media_path hls_url : string).

Definition merged_text (manifest_filename resolution : string) (bandwidth : Z)
    (playlist_content : string) : string :=
  if Py.contains manifest_filename playlist_content
  then playlist_content
  else ManifestUpdater.updated_content playlist_content manifest_filename
         resolution bandwidth.

Definition create_objects (thumbnails : list string) (resolution : string)
    (bandwidth : Z) (o : gmap (string * string) string)
    : option (gmap (string * string) string) :=
  let manifest_filename := ManifestUpdater.manifest_filename_of resolution in
  let o1 :=
    <[(bucket, media_path +:+ manifest_filename) :=
        ManifestUpdater.manifest_content_of cfg media_path thumbnails resolution]> o in
  playlist_key ← ManifestUpdater.playlist_key_parts hls_url !! 1;
  playlist_content ← o1 !! (bucket, playlist_key);
  Some (<[(bucket, playlist_key) :=
            merged_text manifest_filename resolution bandwidth playlist_content]> o1).

(** The master playlist after [_create_manifest], from the master playlist
    before it: the manifest itself when it is stored under the playlist's
    key, the stored playlist otherwise, then merged. *)
Definition playlist_after (playlist_key : string) (thumbnails : list string)
    (resolution : string) (bandwidth : Z) (before : option string)
    : option string :=
  let manifest_filename := ManifestUpdater.manifest_filename_of resolution in
  playlist_content ←
    (if decide ((bucket, media_path +:+ manifest_filename) = (bucket, playlist_key))
     then Some (ManifestUpdater.manifest_content_of cfg media_path thumbnails
                  resolution)
     else before);
  Some (merged_text manifest_filename resolution bandwidth playlist_content).

Definition step_objects (thumbnails : list string) (resolution : string)
    (bandwidth : Z) (o : gmap (string * string) string)
    : option (gmap (string * string) string) :=
  if ManifestUpdater.nonempty thumbnails
  then create_objects thumbnails resolution bandwidth o
  else Some o.

Definition composer_objects (small_thumbnails big_thumbnails : list string)
    (o : gmap (string * string) string) : option (gmap (string * string) string) :=
  o1 ← step_objects small_thumbnails (THUMBNAIL_SMALL_RESOLUTION cfg)
         (THUMBNAIL_SMALL_BANDWIDTH cfg) o;
  step_objects big_thumbnails (THUMBNAIL_BIG_RESOLUTION cfg)
    (THUMBNAIL_BIG_BANDWIDTH cfg) o1.

End ComposerEffect.

(** A master playlist with two variant streams. *)
Definition stream_playlist : string :=
  Py.join nl
    ["#EXTM3U"; "#EXT-X-STREAM-INF:BANDWIDTH=800000"; "low.m3u8";
     "#EXT-X-STREAM-INF:BANDWIDTH=2400000"; "high.m3u8"; ""].

Definition example_config : Config :=
  default_config (Some "media-bucket") (Some "E2EXAMPLE")
    (Some "https://sqs.example/manifest") (Some "https://sqs.example/invalidate").

Definition example_small : list string :=
  ["a/thumbs/clip_small.00001.jpg"; "a/thumbs/clip_small.00002.jpg"].

Definition example_big : list string :=
  ["a/thumbs/clip_big.00001.jpg"; "a/thumbs/clip_big.00002.jpg"].

(** The world left by a first composer run on [stream_playlist]. *)
Definition after_first_run : World :=
  (ManifestUpdater.create_manifests_and_update_playlist example_config
     "media-bucket" "a/" "s3://media-bucket/a/play.m3u8" example_small example_big
     (world_with "a/play.m3u8" stream_playlist)).2.

Definition merged_stream_playlist : string :=
  Py.join nl
    ["#EXTM3U";
     "#EXT-X-IMAGE-STREAM-INF:BANDWIDTH=16460,RESOLUTION=320x180,CODECS="
       +:+ dquote +:+ "jpeg" +:+ dquote +:+ ",URI=" +:+ dquote
       +:+ "thumbs_320x180.m3u8" +:+ dquote;
     "#EXT-X-IMAGE-STREAM-INF:BANDWIDTH=32920,RESOLUTION=640x360,CODECS="
       +:+ dquote +:+ "jpeg" +:+ dquote +:+ ",URI=" +:+ dquote
       +:+ "thumbs_640x360.m3u8" +:+ dquote;
     "#EXT-X-STREAM-INF:BANDWIDTH=800000"; "low.m3u8";
     "#EXT-X-STREAM-INF:BANDWIDTH=2400000"; "high.m3u8"; ""].

(** ** Vocabulary of the call trace *)

(** Every run of [m] appends to the trace a list of calls that satisfies [T]. *)
Definition emits {A} (T : list Call → Prop) (m : M A) : Prop :=
  ∀ w, ∃ cs, calls (m w).2 = calls w ++ cs ∧ T cs.

Definition is_popen (c : Call) : bool :=
  match c with Popen _ => true | _ => false end.

Definition popen_count (cs : list Call) : nat := length (filter is_popen cs).

(** The world after [step] has been applied to each record in turn. *)
Definition run_records {A} (step : A → M unit) (records : list A) (w : World)
    : World :=
  foldl (λ w record, (step record w).2) w records.

(** An environment in which every provider accepts and the sampler writes
    nothing; [json_loads] knows two message bodies. *)
Definition composer_body : json :=
  JObj [("media_key", JStr "clip"); ("media_path", JStr "a/");
        ("hls_url", JStr "s3://media-bucket/a/play.m3u8");
        ("small_thumbnails", JArr [JStr "a/thumbs/clip_small.00001.jpg"]);
        ("big_thumbnails", JArr [])].

Definition invalidator_body : json :=
  JObj [("media_key", JStr "clip"); ("media_path", JStr "a/");
        ("paths_to_invalidate", JArr [JStr "/a/play.m3u8"])].

Definition example_env : Env :=
  mkEnv
    (λ raw, if bool_decide (raw = "composer") then Some composer_body
            else if bool_decide (raw = "invalidator") then Some invalidator_body
            else None)
    Some
    "/tmp/tmpab12" None None (λ v, "[...]")
    (λ cmd, Ok (mkProcess 1 "" "Invalid data found when processing input" []))
    (λ distribution_id paths, Accepted "I2EXAMPLE")
    (λ queue_url message_body, Accepted "m-1")
    (λ queue_url receipt_handle, Accepted ()).

Definition sqs_record (raw : string) : json :=
  JObj [("body", JStr raw); ("receiptHandle", JStr "rh-1")].

(** A configuration without CloudFront distribution. *)
Definition unconfigured : Config := default_config (Some "media-bucket") None None None.

Definition empty_world : World := mkWorld ∅ [] [].

(** A call is a request to object storage. *)
Definition is_s3_call (c : Call) : bool :=
  match c with
  | S3GetObject _ _ | S3PutObject _ _ _ _ _
  | S3DownloadFile _ _ _ | S3UploadFile _ _ _ _ _ => true
  | _ => false
  end.

(** The log entry a failed record leaves (both handlers). *)
Definition record_failure_entry (e : Exn) : LogEntry :=
  mkLog ERROR
    (if bool_decide (exn_kind e = JSONDecodeError)
     then "Invalid SQS message format"
     else "Error processing SQS record")
    (Some e).

Definition is_get (c : Call) : bool :=
  match c with S3GetObject _ _ => true | _ => false end.

(** The calls of one merge into the master playlist: none when the URL
    gives no key; else one fetch of the playlist, followed by one write
    back to it unless the playlist is missing or names the manifest
    already. *)
Definition merge_calls (bucket hls_url : string) (cs : list Call) : Prop :=
  cs = [] ∨
  ∃ playlist_key,
    ManifestUpdater.playlist_key_parts hls_url !! 1 = Some playlist_key ∧
    (cs = [S3GetObject bucket playlist_key] ∨
     ∃ body,
       cs = [S3GetObject bucket playlist_key;
             S3PutObject bucket playlist_key body "application/vnd.apple.mpegurl"
               true]).

(** The calls of a composer run that works for no other resolution than
    the one whose manifest is stored under [other_key]: every request goes
    to the given bucket, every write to [other_key] or to the master
    playlist, every fetch to the master playlist, and the master playlist
    is fetched at most once (one merge). *)
Definition only_for (bucket other_key hls_url : string) (cs : list Call) : Prop :=
  Forall (λ c,
            match c with
            | S3GetObject b k =>
                b = bucket ∧ ManifestUpdater.playlist_key_parts hls_url !! 1 = Some k
            | S3PutObject b k _ _ _ =>
                b = bucket ∧
                (k = other_key ∨
                 ManifestUpdater.playlist_key_parts hls_url !! 1 = Some k)
            | _ => False
            end) cs
  ∧ length (filter is_get cs) ≤ 1.

(** [Config.validate()] passes. *)
Definition configured (cfg : Config) : Prop :=
  truthy (AWS_S3_BUCKET cfg) = true ∧
  truthy (AWS_CLOUDFRONT_DISTRIBUTION_ID cfg) = true.

(** At most [n] sampler processes are started. *)
Definition at_most_popen (n : nat) (cs : list Call) : Prop := popen_count cs ≤ n.

Definition example_event (raws : list string) : Event :=
  mkEvent (Some (sqs_record <$> raws)).

(** ** src/src/trick_play_generator/handler.py

    The MediaConvert completion event is typed as the handler's docstring
    gives it; any field may be absent. *)

Record OutputDetail := mkOutputDetail {
  outputFilePaths : option (list string)
}.

Record OutputGroup := mkOutputGroup {
  outputDetails : option (list OutputDetail)
}.

Record Detail := mkDetail {
  mediaKey : option string;
  mediaKeyId : option string;
  outputGroupDetails : option (list OutputGroup)
}.

Record CompletionEvent := mkCompletionEvent { detail : option Detail }.

Module TrickPlayGeneratorHandler.
Section Handler.

Context (env : Env) (cfg : Config).

(** [for path in paths: if "m3u8" in path: return path] *)
Fixpoint scan_paths (paths : list string) : option string :=
  match paths with
  | [] => None
  | path :: paths' =>
      if Py.contains "m3u8" path then Some path else scan_paths paths'
  end.

(** [for output in outputs: ...], leaving at the first hit. *)
Fixpoint scan_outputs (outputs : list OutputDetail) : option string :=
  match outputs with
  | [] => None
  | output :: outputs' =>
      match scan_paths (default [] (outputFilePaths output)) with
      | Some path => Some path
      | None => scan_outputs outputs'
      end
  end.

Fixpoint scan_groups (output_groups : list OutputGroup) : option string :=
  match output_groups with
  | [] => None
  | output_group :: output_groups' =>
      match scan_outputs (default [] (outputDetails output_group)) with
      | Some path => Some path
      | None => scan_groups output_groups'
      end
  end.

Definition _extract_hls_url (detail : Detail) : M (option string) :=
  try_except
    (mret (scan_groups (default [] (outputGroupDetails detail))))
    (λ e,
       StructuredLogger.error "Error extracting HLS URL from event" (Some e);;
       mret None).

Definition manifest_message (media_key media_path hls_url : string)
    (small_thumbs big_thumbs : list string) (context : Context) : json :=
  JObj [("media_key", JStr media_key);
        ("media_path", JStr media_path);
        ("hls_url", JStr hls_url);
        ("small_thumbnails", JArr (JStr <$> small_thumbs));
        ("big_thumbnails", JArr (JStr <$> big_thumbs));
        ("request_id", JStr (request_id context))].

Definition success_response (media_key : string)
    (small_thumbs big_thumbs : list string) : HttpResponse :=
  mkResponse 200
    (JObj [("message", JStr "Trick play thumbnails generated successfully");
           ("media_key", JStr media_key);
           ("small_thumbnails_count", JNum (Z.of_nat (length small_thumbs)));
           ("big_thumbnails_count", JNum (Z.of_nat (length big_thumbs)))]).

Definition empty_detail : Detail := mkDetail None None None.

Definition lambda_handler (event : CompletionEvent) (context : Context)
    : M HttpResponse :=
  try_except
    (StructuredLogger.info "Trick play generator lambda invoked";;
     _ ← validate cfg;
     let detail := default empty_detail (detail event) in
     let media_key := mediaKey detail in
     let media_path := mediaKeyId detail in
     if negb (truthy media_key) || negb (truthy media_path)
     then raise (mkExn ValueError "Missing required fields: mediaKey, mediaKeyId")
     else
       let media_key := default "" media_key in
       let media_path := default "" media_path in
       hls_url ← _extract_hls_url detail;
       if negb (truthy hls_url)
       then raise (mkExn ValueError "No HLS manifest found in event")
       else
         let hls_url := default "" hls_url in
         StructuredLogger.info "Processing media";;
         thumbs ← TrickPlayGenerator.generate_thumbnails env cfg hls_url media_key
                     (default "" (AWS_S3_BUCKET cfg)) media_path;
         let manifest_message :=
           manifest_message media_key media_path hls_url thumbs.1 thumbs.2
             context in
         (if truthy (SQS_MANIFEST_QUEUE_URL cfg)
          then
            _ ← SQSHelper.send_message env (SQS_MANIFEST_QUEUE_URL cfg)
                   manifest_message;
            mret ()
          else mret ());;
         StructuredLogger.info "Trick play generation succeeded";;
         mret (success_response media_key thumbs.1 thumbs.2))
    (λ e,
       if is_TrickPlayError e
       then
         StructuredLogger.error "Trick play error" (Some e);;
         mret (mkResponse 400 (JObj [("error", JStr (exn_str e))]))
       else
         StructuredLogger.error "Unexpected error in trick play generator" (Some e);;
         mret (mkResponse 500 (JObj [("error", JStr "Internal server error")]))).

End Handler.
End TrickPlayGeneratorHandler.

(** ** Further vocabulary *)

(** All output paths of an event, in the order the scan visits them. *)
Definition paths_of_output (output : OutputDetail) : list string :=
  default [] (outputFilePaths output).

Definition paths_of_group (output_group : OutputGroup) : list string :=
  concat (paths_of_output <$> default [] (outputDetails output_group)).

Definition paths_of_detail (detail : Detail) : list string :=
  concat (paths_of_group <$> default [] (outputGroupDetails detail)).

(** The computation leaves every stored object outside [K] as it was and
    removes nothing, whether it returns or raises. *)
Definition store_frame {A} (K : string * string → Prop) (m : M A) : Prop :=
  ∀ w k,
    (¬ K k → objects (m w).2 !! k = objects w !! k) ∧
    (is_Some (objects w !! k) → is_Some (objects (m w).2 !! k)).

(** The keys the composer may write. *)
Definition composer_keys (cfg : Config) (bucket media_path hls_url : string)
    (k : string * string) : Prop :=
  k = (bucket, media_path
               +:+ ManifestUpdater.manifest_filename_of (THUMBNAIL_SMALL_RESOLUTION cfg))
  ∨ k = (bucket, media_path
                 +:+ ManifestUpdater.manifest_filename_of (THUMBNAIL_BIG_RESOLUTION cfg))
  ∨ ∃ playlist_key,
      ManifestUpdater.playlist_key_parts hls_url !! 1 = Some playlist_key ∧
      k = (bucket, playlist_key).

(** The status message of one resolution. *)
Definition created_status (resolution : string) : string :=
  "Created " +:+ ManifestUpdater.manifest_filename_of resolution +:+ " for "
  +:+ resolution.

(** The status map of a run that returns. *)
Definition expected_results (cfg : Config) (small_thumbnails big_thumbnails : list string)
    : gmap string string :=
  let results : gmap string string :=
    if ManifestUpdater.nonempty small_thumbnails
    then {[ "small" := created_status (THUMBNAIL_SMALL_RESOLUTION cfg) ]}
    else ∅ in
  if ManifestUpdater.nonempty big_thumbnails
  then <["big" := created_status (THUMBNAIL_BIG_RESOLUTION cfg)]> results
  else results.

Definition is_delete (c : Call) : bool :=
  match c with SQSDeleteMessage _ _ => true | _ => false end.

Definition is_send (c : Call) : bool :=
  match c with SQSSendMessage _ _ => true | _ => false end.

(** A call of the cache invalidator's handler: one invalidation request to
    the configured distribution, for a non-empty list of paths. *)
Definition invalidates_configured (cfg : Config) (c : Call) : Prop :=
  ∃ distribution_id paths,
    c = CloudFrontCreateInvalidation distribution_id paths ∧
    AWS_CLOUDFRONT_DISTRIBUTION_ID cfg = Some distribution_id ∧
    paths ≠ [].

(** Every run of [m] appends calls that satisfy [T] together with the
    outcome of the run. *)
Definition emits_with {A} (T : Result A → list Call → Prop) (m : M A) : Prop :=
  ∀ w, ∃ cs, calls (m w).2 = calls w ++ cs ∧ T (m w).1 cs.

(** When the run raises, every delete request it made was rejected by the
    queue service. *)
Definition deletes_only_on_success (env : Env) {A} (r : Result A)
    (cs : list Call) : Prop :=
  match r with
  | Ok _ => True
  | Raise _ =>
      Forall (λ c, match c with
                   | SQSDeleteMessage queue_url receipt_handle =>
                       ∃ error,
                         sqs_delete_message env queue_url receipt_handle
                         = Rejected error
                   | _ => True
                   end) cs
  end.

(** The temporary workspace is created and removed without error. *)
Definition workspace_ok (env : Env) : Prop :=
  tmpdir_error env = None ∧ cleanup_error env = None.

(** The upload request for one file of the sampler's output directory. *)
Definition upload_call (cfg : Config) (bucket thumbnails_folder output_dir : string)
    (filename : string) : Call :=
  S3UploadFile bucket (thumbnails_folder +:+ filename)
    (TrickPlayGenerator.path_join output_dir filename)
    ("image/" +:+ THUMBNAIL_FORMAT cfg) true.

(** The files of a listing that the extractor uploads. *)
Definition kept_files (cfg : Config) (filenames : list string) : list string :=
  filter (λ filename, Py.endswith ("." +:+ THUMBNAIL_FORMAT cfg) filename)
    (merge_sort String.le filenames).

(** A sampler that succeeds and leaves two frames and a log file. *)
Definition sampling_env : Env :=
  mkEnv (json_loads example_env) Some "/tmp/tmpab12" None None
    (py_repr example_env)
    (λ cmd, Ok (mkProcess 0 "" ""
                  [("clip.00002.jpg", "frame two"); ("ffmpeg.log", "log");
                   ("clip.00001.jpg", "frame one")]))
    (λ distribution_id paths, Accepted "I2EXAMPLE")
    (λ queue_url message_body, Accepted "m-1")
    (λ queue_url receipt_handle, Accepted ()).

Definition example_detail : Detail :=
  mkDetail (Some "clip") (Some "a/")
    (Some [mkOutputGroup (Some [mkOutputDetail (Some ["s3://media-bucket/a/clip.mp4"]);
                                mkOutputDetail (Some ["s3://media-bucket/a/play.m3u8"])])]).

Definition error_entry (message : string) (e : Exn) : LogEntry :=
  mkLog ERROR message (Some e).

(** [str(e)] of the [S3Error] raised for a missing object. *)
Definition missing_object_message (bucket key : string) : string :=
  "Error getting object " +:+ bucket +:+ "/" +:+ key +:+ ": "
  +:+ S3Helper.no_such_key.

(** The store after the listed files have been uploaded, one after the other. *)
Definition uploaded (bucket thumbnails_folder : string)
    (files : list (string * string)) (filenames : list string)
    (o : gmap (string * string) string) : gmap (string * string) string :=
  foldl (λ o filename,
           <[(bucket, thumbnails_folder +:+ filename) :=
               TrickPlayGenerator.file_body filename files]> o)
    o filenames.

(** The detail of an event; an event without detail has the empty one. *)
Definition detail_of (event : CompletionEvent) : Detail :=
  default TrickPlayGeneratorHandler.empty_detail (detail event).

(** The playlist URL the extractor's handler finds in an event. *)
Definition found_hls_url (event : CompletionEvent) : option string :=
  head (filter (λ path, Py.contains "m3u8" path) (paths_of_detail (detail_of event))).

(** The world in which the extractor's handler starts the generator. *)
Definition generator_start (w : World) : World :=
  add_log (info_entry "Processing media")
    (add_log (info_entry "Trick play generator lambda invoked") w).

(** The sampler command of each resolution, as [generate_thumbnails] builds it. *)
Definition small_cmd (env : Env) (cfg : Config) (hls_url media_key : string)
    : list string :=
  TrickPlayGenerator.ffmpeg_cmd cfg hls_url media_key
    (TrickPlayGenerator.path_join (tmpdir env) "small")
    (THUMBNAIL_WIDTH cfg) (THUMBNAIL_HEIGHT cfg) THUMBNAIL_SMALL_SUFFIX.

Definition big_cmd (env : Env) (cfg : Config) (hls_url media_key : string)
    : list string :=
  TrickPlayGenerator.ffmpeg_cmd cfg hls_url media_key
    (TrickPlayGenerator.path_join (tmpdir env) "big")
    (THUMBNAIL_BIG_WIDTH cfg) (THUMBNAIL_BIG_HEIGHT cfg) THUMBNAIL_BIG_SUFFIX.

Definition thumbnails_folder_of (cfg : Config) (media_path : string) : string :=
  media_path +:+ THUMBNAILS_FOLDER cfg +:+ "/".

(** The keys returned for the files a process left. *)
Definition keys_of (cfg : Config) (media_path : string) (process : Process)
    : list string :=
  (λ filename, thumbnails_folder_of cfg media_path +:+ filename)
    <$> kept_files cfg (output_files process).*1.

(** The upload requests for the files a process left in [output_dir]. *)
Definition uploads_of (cfg : Config) (bucket media_path output_dir : string)
    (process : Process) : list Call :=
  upload_call cfg bucket (thumbnails_folder_of cfg media_path) output_dir
    <$> kept_files cfg (output_files process).*1.

(** A sampler that fails on the big resolution only. *)
Definition half_failing_env : Env :=
  mkEnv (json_loads example_env) Some "/tmp/tmpab12" None None
    (py_repr example_env)
    (λ cmd,
       if bool_decide (cmd !! 8 = Some "640x360")
       then Ok (mkProcess 1 "" "Conversion failed!" [])
       else Ok (mkProcess 0 "" "" [("clip_small.00001.jpg", "frame one")]))
    (λ distribution_id paths, Accepted "I2EXAMPLE")
    (λ queue_url message_body, Accepted "m-1")
    (λ queue_url receipt_handle, Accepted ()).


(** No temporary directory can be created. *)
Definition no_workspace_env : Env :=
  mkEnv (json_loads example_env) Some "/tmp/tmpab12"
    (Some (mkExn OSError "[Errno 28] No space left on device: '/tmp/tmpab12'"))
    None (py_repr example_env) (run_process sampling_env)
    (λ distribution_id paths, Accepted "I2EXAMPLE")
    (λ queue_url message_body, Accepted "m-1")
    (λ queue_url receipt_handle, Accepted ()).

(** The sampler fails and leaves on stderr a byte that is no UTF-8 text. *)
Definition garbled_env : Env :=
  mkEnv (json_loads example_env)
    (λ bytes, if bool_decide (bytes = String "255"%char "") then None else Some bytes)
    "/tmp/tmpab12" None None (py_repr example_env)
    (λ cmd, Ok (mkProcess 1 "" (String "255"%char "") []))
    (λ distribution_id paths, Accepted "I2EXAMPLE")
    (λ queue_url message_body, Accepted "m-1")
    (λ queue_url receipt_handle, Accepted ()).

(** A configuration whose small resolution is 480x270, the other variables
    as in [example_config]. *)
Definition resized_config : Config :=
  mkConfig "us-east-1" (Some "media-bucket") (Some "E2EXAMPLE") 10 480 270 "jpg"
    640 360 16460 32920 "thumbs" (Some "https://sqs.example/manifest")
    (Some "https://sqs.example/invalidate").

(** A configuration whose two resolutions are the same. *)
Definition same_size_config : Config :=
  mkConfig "us-east-1" (Some "media-bucket") (Some "E2EXAMPLE") 10 320 180 "jpg"
    320 180 16460 32920 "thumbs" (Some "https://sqs.example/manifest")
    (Some "https://sqs.example/invalidate").

(** A valid configuration without cache-invalidation queue. *)
Definition quiet_config : Config :=
  default_config (Some "media-bucket") (Some "E2EXAMPLE")
    (Some "https://sqs.example/manifest") None.
(* ================================================================== *)
(** * Properties *)

(** Sanity checks of the string model against Python. *)
Example replace_count_1 :
  Py.replace "ab" "X" (Some 1) "cabab" = "cXab".
Proof. reflexivity. Qed.

Example replace_all_nonoverlapping :
  Py.replace "aa" "b" None "aaaaa" = "bba".
Proof. reflexivity. Qed.

Example split_maxsplit_1 :
  Py.split "/"%char (Some 1) "bucket/a/b.m3u8" = ["bucket"; "a/b.m3u8"].
Proof. reflexivity. Qed.

Example split_no_separator :
  Py.split "/"%char (Some 1) "bucket" = ["bucket"].
Proof. reflexivity. Qed.

Example join_lines :
  Py.join "," ["a"; "b"; ""] = "a,b,".
Proof. reflexivity. Qed.

(** ** Facts about the string operations *)

Section PyFacts.

Lemma str_app_cons c s t : String c s +:+ t = String c (s +:+ t).
Proof. reflexivity. Qed.

Lemma str_app_nil_l s : "" +:+ s = s.
Proof. reflexivity. Qed.

Lemma str_app_nil_r s : s +:+ "" = s.
Proof. induction s as [|c s IH]; [done|]. by rewrite str_app_cons, IH. Qed.

Lemma str_app_assoc s t u : (s +:+ t) +:+ u = s +:+ t +:+ u.
Proof. induction s as [|c s IH]; [done|]. by rewrite !str_app_cons, IH. Qed.

Lemma startswith_spec p s :
  Py.startswith p s = true ↔ ∃ t, s = p +:+ t.
Proof.
  revert s. induction p as [|a p IH]; intros s.
  - split; [eauto|]. by destruct s.
  - destruct s as [|b s]; simpl.
    + split; [done|]. intros [t Ht]. by rewrite str_app_cons in Ht.
    + rewrite andb_true_iff, bool_decide_eq_true, IH. split.
      * intros [-> [t ->]]. by exists t.
      * intros [t Ht]. rewrite str_app_cons in Ht. injection Ht as -> ->. eauto.
Qed.

(** [sub in s] holds exactly when [s] splits around a copy of [sub]. *)
Lemma contains_spec sub s :
  Py.contains sub s = true ↔ ∃ pre post, s = pre +:+ sub +:+ post.
Proof.
  induction s as [|c s IH].
  - simpl. rewrite orb_false_r, startswith_spec. split.
    + intros [t Ht]. by exists "", t.
    + intros [[|a pre] [post Hs]]; [by exists post|]. by rewrite str_app_cons in Hs.
  - simpl. rewrite orb_true_iff, startswith_spec, IH. split.
    + intros [[t Ht]|(pre & post & ->)].
      * by exists "", t.
      * by exists (String c pre), post.
    + intros [[|a pre] [post Hs]].
      * left. by exists post.
      * right. rewrite str_app_cons in Hs. injection Hs as -> ->. eauto.
Qed.

Lemma contains_false_tail sub c s :
  Py.contains sub (String c s) = false →
  Py.startswith sub (String c s) = false ∧ Py.contains sub s = false.
Proof. simpl. intros H. by apply orb_false_iff in H. Qed.

(** After a match the scanner jumps over exactly the matched text. *)
Lemma replace_go_skip old new count p t :
  Py.replace_go old new (String.length p) count (p +:+ t)
  = Py.replace_go old new 0 count t.
Proof.
  induction p as [|a p IH]; [by destruct t|].
  rewrite str_app_cons. simpl. apply IH.
Qed.

(** With an exhausted budget the text is copied unchanged. *)
Lemma replace_budget_0 old new s : Py.replace old new (Some 0) s = s.
Proof.
  unfold Py.replace. induction s as [|c s IH]; [done|].
  simpl. by rewrite IH.
Qed.

(** Without an occurrence of [old] nothing is replaced. *)
Lemma replace_absent old new count s :
  Py.contains old s = false → Py.replace old new count s = s.
Proof.
  unfold Py.replace. induction s as [|c s IH]; [done|].
  intros [Hs Hc]%contains_false_tail.
  change (Py.replace_go old new 0 count (String c s))
    with (if Py.budget_left count && Py.startswith old (String c s)
          then new +:+ Py.replace_go old new (String.length old - 1)
                         (Py.budget_pred count) s
          else String c (Py.replace_go old new 0 count s)).
  rewrite Hs, andb_false_r. by rewrite IH.
Qed.

(** The leftmost occurrence is replaced, and scanning resumes after it
    with one replacement less to go. *)
Lemma replace_first old new count s :
  old ≠ "" → Py.budget_left count = true → Py.contains old s = true →
  ∃ pre post,
    first_occurrence old s pre post ∧
    Py.replace old new count s
    = pre +:+ new +:+ Py.replace old new (Py.budget_pred count) post.
Proof.
  intros Hold Hbudget. unfold Py.replace.
  induction s as [|c s IH]; intros Hin.
  - simpl in Hin. destruct old; [done|]. done.
  - change (Py.replace_go old new 0 count (String c s))
      with (if Py.budget_left count && Py.startswith old (String c s)
            then new +:+ Py.replace_go old new (String.length old - 1)
                           (Py.budget_pred count) s
            else String c (Py.replace_go old new 0 count s)).
    rewrite Hbudget, andb_true_l.
    destruct (Py.startswith old (String c s)) eqn:Hstart.
    + apply startswith_spec in Hstart as [post Hpost].
      exists "", post. split.
      * split; [done|]. intros; simpl; lia.
      * rewrite str_app_nil_l. f_equal.
        destruct old as [|a old]; [done|].
        rewrite str_app_cons in Hpost. injection Hpost as -> ->.
        simpl. rewrite Nat.sub_0_r. apply replace_go_skip.
    + simpl in Hin. rewrite Hstart in Hin. simpl in Hin.
      destruct (IH Hin) as (pre & post & [Hs Hmin] & Heq).
      exists (String c pre), post. split.
      * split; [by rewrite str_app_cons, <-Hs|].
        intros [|a pre'] post' Hs'.
        -- rewrite str_app_nil_l in Hs'.
           assert (Py.startswith old (String c s) = true) as Hyes
             by (apply startswith_spec; eauto).
           congruence.
        -- rewrite str_app_cons in Hs'. injection Hs' as -> Hs'.
           simpl. apply le_n_S. eauto.
      * by rewrite str_app_cons, Heq.
Qed.

End PyFacts.

(** ** Running the monad *)

Lemma bind_ok {A B} (m : M A) (k : A → M B) w a w' :
  m w = (Ok a, w') → (m ≫= k) w = k a w'.
Proof. intros H. unfold mbind, M_bind. by rewrite H. Qed.

Lemma bind_raise {A B} (m : M A) (k : A → M B) w e w' :
  m w = (Raise e, w') → (m ≫= k) w = (Raise e, w').
Proof. intros H. unfold mbind, M_bind. by rewrite H. Qed.

Lemma try_except_ok {A} (m : M A) h w a w' :
  m w = (Ok a, w') → try_except m h w = (Ok a, w').
Proof. intros H. unfold try_except. by rewrite H. Qed.

Lemma try_except_raise {A} (m : M A) h w e w' :
  m w = (Raise e, w') → try_except m h w = h e w'.
Proof. intros H. unfold try_except. by rewrite H. Qed.

(** ** The playlist merge, case by case *)

Section Merge.

Context (cfg : Config).
Context (bucket media_path hls_url manifest_filename resolution : string).
Context (bandwidth : Z).

#[local] Abbreviation merge :=
  (ManifestUpdater._update_main_playlist bucket media_path hls_url
     manifest_filename resolution bandwidth).

Lemma merge_no_key w :
  ManifestUpdater.playlist_key_parts hls_url !! 1 = None →
  ∃ e w', merge w = (Raise e, w') ∧ exn_kind e = IndexError ∧
          objects w' = objects w ∧ calls w' = calls w.
Proof.
  intros Hkey. eexists _, _.
  unfold ManifestUpdater._update_main_playlist, ManifestUpdater.playlist_key_of,
    list_index. rewrite Hkey. split; [reflexivity|]. done.
Qed.

Lemma merge_no_object w playlist_key :
  ManifestUpdater.playlist_key_parts hls_url !! 1 = Some playlist_key →
  objects w !! (bucket, playlist_key) = None →
  ∃ e w', merge w = (Raise e, w') ∧ exn_kind e = S3Error ∧
          objects w' = objects w ∧
          calls w' = calls w ++ [S3GetObject bucket playlist_key].
Proof.
  intros Hkey Hobj. eexists _, _.
  unfold ManifestUpdater._update_main_playlist, ManifestUpdater.playlist_key_of,
    list_index. rewrite Hkey.
  unfold try_except, mbind, M_bind, S3Helper.get_object; simpl.
  unfold mbind, M_bind; simpl. rewrite Hobj. simpl.
  split; [reflexivity|]. done.
Qed.

Lemma merge_already_updated w playlist_key playlist_content :
  ManifestUpdater.playlist_key_parts hls_url !! 1 = Some playlist_key →
  objects w !! (bucket, playlist_key) = Some playlist_content →
  Py.contains manifest_filename playlist_content = true →
  merge w
  = (Ok (), add_log (info_entry "Playlist already updated")
              (add_call (S3GetObject bucket playlist_key) w)).
Proof.
  intros Hkey Hobj Hin.
  unfold ManifestUpdater._update_main_playlist, ManifestUpdater.playlist_key_of,
    list_index. rewrite Hkey.
  unfold try_except, mbind, M_bind, S3Helper.get_object; simpl.
  unfold mbind, M_bind; simpl. rewrite Hobj. simpl. rewrite Hin. done.
Qed.

Lemma merge_writes w playlist_key playlist_content :
  ManifestUpdater.playlist_key_parts hls_url !! 1 = Some playlist_key →
  objects w !! (bucket, playlist_key) = Some playlist_content →
  Py.contains manifest_filename playlist_content = false →
  let body := ManifestUpdater.updated_content playlist_content
                manifest_filename resolution bandwidth in
  merge w
  = (Ok (),
     add_log (info_entry "Playlist updated")
       (store_object bucket playlist_key body
          (add_call (S3PutObject bucket playlist_key body
                       ManifestUpdater.CONTENT_TYPE true)
             (add_log (info_entry "Putting object to S3")
                (add_call (S3GetObject bucket playlist_key) w))))).
Proof.
  intros Hkey Hobj Hin.
  unfold ManifestUpdater._update_main_playlist, ManifestUpdater.playlist_key_of,
    list_index. rewrite Hkey.
  unfold try_except, mbind, M_bind, S3Helper.get_object; simpl.
  unfold mbind, M_bind; simpl. rewrite Hobj. simpl. rewrite Hin. done.
Qed.

End Merge.

(** ** Merge: where the image-stream line goes *)

Section MergePosition.

Context (bucket media_path hls_url manifest_filename resolution : string).
Context (bandwidth : Z).

#[local] Abbreviation line :=
  (ManifestUpdater.image_stream_line manifest_filename resolution bandwidth).
#[local] Abbreviation updated :=
  (λ content, ManifestUpdater.updated_content content manifest_filename
                resolution bandwidth).

Lemma updated_content_stream content :
  Py.contains "#EXT-X-STREAM-INF" content = true →
  ∃ pre post,
    first_occurrence "#EXT-X-STREAM-INF" content pre post ∧
    updated content = pre +:+ line +:+ "#EXT-X-STREAM-INF" +:+ post.
Proof.
  intros Hin. unfold ManifestUpdater.updated_content. rewrite Hin.
  destruct (replace_first "#EXT-X-STREAM-INF" (line +:+ "#EXT-X-STREAM-INF")
              (Some 1) content) as (pre & post & Hfirst & Heq); [done..|].
  exists pre, post. split; [done|].
  rewrite Heq. simpl. by rewrite replace_budget_0, str_app_assoc.
Qed.

Lemma updated_content_endlist content :
  Py.contains "#EXT-X-STREAM-INF" content = false →
  Py.contains "#EXT-X-ENDLIST" content = true →
  ∃ pre post,
    first_occurrence "#EXT-X-ENDLIST" content pre post ∧
    updated content
    = pre +:+ line +:+ "#EXT-X-ENDLIST"
      +:+ Py.replace "#EXT-X-ENDLIST" (line +:+ "#EXT-X-ENDLIST") None post.
Proof.
  intros Hno Hin. unfold ManifestUpdater.updated_content. rewrite Hno.
  destruct (replace_first "#EXT-X-ENDLIST" (line +:+ "#EXT-X-ENDLIST")
              None content) as (pre & post & Hfirst & Heq); [done..|].
  exists pre, post. split; [done|].
  rewrite Heq. simpl. by rewrite str_app_assoc.
Qed.

Lemma updated_content_no_marker content :
  Py.contains "#EXT-X-STREAM-INF" content = false →
  Py.contains "#EXT-X-ENDLIST" content = false →
  updated content = content.
Proof.
  intros Hno1 Hno2. unfold ManifestUpdater.updated_content. rewrite Hno1.
  by apply replace_absent.
Qed.

End MergePosition.

(** C3 (as amended). When the fetched master playlist does not yet contain
    the manifest filename, the merge step uploads a playlist in which the
    image-stream line stands immediately before the first
    [#EXT-X-STREAM-INF] if the playlist contains that directive; if it
    contains none but contains [#EXT-X-ENDLIST], the line stands
    immediately before the first [#EXT-X-ENDLIST] (and, the replacement
    being unbounded, before every later one). *)
Theorem merge_insertion_position
    (bucket media_path hls_url manifest_filename resolution : string)
    (bandwidth : Z) (w : World) (playlist_key playlist_content : string) :
  ManifestUpdater.playlist_key_parts hls_url !! 1 = Some playlist_key →
  objects w !! (bucket, playlist_key) = Some playlist_content →
  Py.contains manifest_filename playlist_content = false →
  ∃ w' body,
    ManifestUpdater._update_main_playlist bucket media_path hls_url
      manifest_filename resolution bandwidth w = (Ok (), w') ∧
    objects w' !! (bucket, playlist_key) = Some body ∧
    (Py.contains "#EXT-X-STREAM-INF" playlist_content = true →
     ∃ pre post,
       first_occurrence "#EXT-X-STREAM-INF" playlist_content pre post ∧
       body = pre
              +:+ ManifestUpdater.image_stream_line manifest_filename
                    resolution bandwidth
              +:+ "#EXT-X-STREAM-INF" +:+ post) ∧
    (Py.contains "#EXT-X-STREAM-INF" playlist_content = false →
     Py.contains "#EXT-X-ENDLIST" playlist_content = true →
     ∃ pre post,
       first_occurrence "#EXT-X-ENDLIST" playlist_content pre post ∧
       body = pre
              +:+ ManifestUpdater.image_stream_line manifest_filename
                    resolution bandwidth
              +:+ "#EXT-X-ENDLIST"
              +:+ Py.replace "#EXT-X-ENDLIST"
                    (ManifestUpdater.image_stream_line manifest_filename
                       resolution bandwidth +:+ "#EXT-X-ENDLIST")
                    None post).
Proof.
  intros Hkey Hobj Hfresh.
  eexists _, _. split; [by eapply merge_writes|].
  split; [apply lookup_insert_eq|]. split.
  - apply updated_content_stream.
  - apply updated_content_endlist.
Qed.

Lemma merge_insertion_position_witness :
  ∃ w' body,
    ManifestUpdater._update_main_playlist "media-bucket" "a/"
      "s3://media-bucket/a/play.m3u8" "thumbs_320x180.m3u8" "320x180" 16460
      (world_with "a/play.m3u8" ending_playlist) = (Ok (), w') ∧
    objects w' !! ("media-bucket", "a/play.m3u8") = Some body ∧
    (Py.contains "#EXT-X-STREAM-INF" ending_playlist = true →
     ∃ pre post,
       first_occurrence "#EXT-X-STREAM-INF" ending_playlist pre post ∧
       body = pre
              +:+ ManifestUpdater.image_stream_line "thumbs_320x180.m3u8"
                    "320x180" 16460
              +:+ "#EXT-X-STREAM-INF" +:+ post) ∧
    (Py.contains "#EXT-X-STREAM-INF" ending_playlist = false →
     Py.contains "#EXT-X-ENDLIST" ending_playlist = true →
     ∃ pre post,
       first_occurrence "#EXT-X-ENDLIST" ending_playlist pre post ∧
       body = pre
              +:+ ManifestUpdater.image_stream_line "thumbs_320x180.m3u8"
                    "320x180" 16460
              +:+ "#EXT-X-ENDLIST"
              +:+ Py.replace "#EXT-X-ENDLIST"
                    (ManifestUpdater.image_stream_line "thumbs_320x180.m3u8"
                       "320x180" 16460 +:+ "#EXT-X-ENDLIST")
                    None post).
Proof.
  apply (merge_insertion_position "media-bucket" "a/"
           "s3://media-bucket/a/play.m3u8" "thumbs_320x180.m3u8" "320x180"
           16460 (world_with "a/play.m3u8" ending_playlist) "a/play.m3u8"
           ending_playlist).
  - reflexivity.
  - vm_compute. reflexivity.
  - reflexivity.
Defined.

(** C3, as stated, fails: a playlist with neither marker gets no line. On
    [bare_playlist] the step uploads the text it read, and that text cannot
    be split around the image-stream line followed by [#EXT-X-ENDLIST]. *)
Lemma merge_insertion_needs_a_marker :
  Py.contains "#EXT-X-STREAM-INF" bare_playlist = false ∧
  ∃ w',
    ManifestUpdater._update_main_playlist "media-bucket" "a/"
      "s3://media-bucket/a/play.m3u8" "thumbs_320x180.m3u8" "320x180" 16460
      (world_with "a/play.m3u8" bare_playlist) = (Ok (), w') ∧
    objects w' !! ("media-bucket", "a/play.m3u8") = Some bare_playlist ∧
    ¬ ∃ pre post,
        bare_playlist
        = pre +:+ ManifestUpdater.image_stream_line "thumbs_320x180.m3u8"
                    "320x180" 16460
          +:+ "#EXT-X-ENDLIST" +:+ post.
Proof.
  split; [reflexivity|]. eexists. split; [vm_compute; reflexivity|].
  split; [vm_compute; reflexivity|].
  intros (pre & post & Heq).
  assert (Py.contains "#EXT-X-ENDLIST" bare_playlist = true) as Hin.
  { apply contains_spec. exists (pre +:+ ManifestUpdater.image_stream_line
                                  "thumbs_320x180.m3u8" "320x180" 16460), post.
    by rewrite str_app_assoc. }
  vm_compute in Hin. discriminate.
Qed.

(** C10. A master playlist that contains neither the manifest filename nor
    [#EXT-X-STREAM-INF] nor [#EXT-X-ENDLIST] is fetched and uploaded again
    with the very text that was read: no image-stream line is inserted and
    the stored objects are unchanged. *)
Theorem merge_without_marker_writes_back
    (bucket media_path hls_url manifest_filename resolution : string)
    (bandwidth : Z) (w : World) (playlist_key playlist_content : string) :
  ManifestUpdater.playlist_key_parts hls_url !! 1 = Some playlist_key →
  objects w !! (bucket, playlist_key) = Some playlist_content →
  Py.contains manifest_filename playlist_content = false →
  Py.contains "#EXT-X-STREAM-INF" playlist_content = false →
  Py.contains "#EXT-X-ENDLIST" playlist_content = false →
  ∃ w',
    ManifestUpdater._update_main_playlist bucket media_path hls_url
      manifest_filename resolution bandwidth w = (Ok (), w') ∧
    calls w' = calls w ++
      [S3GetObject bucket playlist_key;
       S3PutObject bucket playlist_key playlist_content
         ManifestUpdater.CONTENT_TYPE true] ∧
    objects w' = objects w.
Proof.
  intros Hkey Hobj Hfresh Hno1 Hno2.
  eexists. split; [by eapply merge_writes|].
  rewrite updated_content_no_marker by done. simpl. split.
  - by rewrite <-(assoc_L (++)).
  - by apply insert_id.
Qed.

Lemma merge_without_marker_writes_back_witness :
  ∃ w',
    ManifestUpdater._update_main_playlist "media-bucket" "a/"
      "s3://media-bucket/a/play.m3u8" "thumbs_320x180.m3u8" "320x180" 16460
      (world_with "a/play.m3u8" bare_playlist) = (Ok (), w') ∧
    calls w' = calls (world_with "a/play.m3u8" bare_playlist) ++
      [S3GetObject "media-bucket" "a/play.m3u8";
       S3PutObject "media-bucket" "a/play.m3u8" bare_playlist
         ManifestUpdater.CONTENT_TYPE true] ∧
    objects w' = objects (world_with "a/play.m3u8" bare_playlist).
Proof.
  apply (merge_without_marker_writes_back "media-bucket" "a/"
           "s3://media-bucket/a/play.m3u8" "thumbs_320x180.m3u8" "320x180"
           16460 (world_with "a/play.m3u8" bare_playlist) "a/play.m3u8"
           bare_playlist).
  - reflexivity.
  - vm_compute. reflexivity.
  - reflexivity.
  - reflexivity.
  - reflexivity.
Defined.

(** ** Joining and splitting *)

Lemma join_cons sep x l :
  l ≠ [] → Py.join sep (x :: l) = x +:+ sep +:+ Py.join sep l.
Proof. by destruct l. Qed.

Lemma join_app sep l1 l2 :
  l1 ≠ [] → l2 ≠ [] →
  Py.join sep (l1 ++ l2) = Py.join sep l1 +:+ sep +:+ Py.join sep l2.
Proof.
  intros H1 H2. induction l1 as [|x l1 IH]; [done|].
  destruct l1 as [|y l1].
  - simpl. by apply join_cons.
  - rewrite <-app_comm_cons, join_cons by done.
    rewrite IH by done. rewrite (join_cons sep x (y :: l1)) by done.
    by rewrite !str_app_assoc.
Qed.

Section Splitting.

Context (sep : ascii).

#[local] Abbreviation sep_str := (String sep "").

Lemma split_nonempty maxsplit s : Py.split sep maxsplit s ≠ [].
Proof.
  revert maxsplit. induction s as [|c s IH]; intros maxsplit; [done|].
  simpl. destruct (bool_decide (c = sep) && Py.budget_left maxsplit); [done|].
  specialize (IH maxsplit). by destruct (Py.split sep maxsplit s).
Qed.

Lemma split_budget_0 s : Py.split sep (Some 0) s = [s].
Proof.
  induction s as [|c s IH]; [done|].
  simpl. rewrite andb_false_r. by rewrite IH.
Qed.

Lemma no_sep_cons c s :
  Py.contains sep_str (String c s) = false →
  c ≠ sep ∧ Py.contains sep_str s = false.
Proof.
  intros [Hstart Hrest]%contains_false_tail. split; [|done].
  intros ->. simpl in Hstart. by rewrite bool_decide_eq_true_2 in Hstart.
Qed.

Lemma split_without_sep maxsplit s :
  Py.contains sep_str s = false → Py.split sep maxsplit s = [s].
Proof.
  induction s as [|c s IH]; [done|].
  intros [Hc Hs]%no_sep_cons. simpl.
  rewrite bool_decide_eq_false_2 by done. simpl. by rewrite IH.
Qed.

Lemma split_at_first_sep before after :
  Py.contains sep_str before = false →
  Py.split sep (Some 1) (before +:+ String sep after) = [before; after].
Proof.
  induction before as [|c before IH].
  - intros _. rewrite str_app_nil_l. simpl.
    rewrite bool_decide_eq_true_2 by done. simpl. by rewrite split_budget_0.
  - intros [Hc Hs]%no_sep_cons. rewrite str_app_cons. simpl.
    rewrite bool_decide_eq_false_2 by done. simpl. by rewrite IH.
Qed.

Lemma split_parts_without_sep s :
  Forall (λ part, Py.contains sep_str part = false) (Py.split sep None s).
Proof.
  induction s as [|c s IH]; [by repeat constructor|].
  simpl. case_bool_decide as Hc; simpl.
  - by constructor.
  - pose proof (split_nonempty None s) as Hne.
    destruct (Py.split sep None s) as [|h t]; [done|].
    apply Forall_cons in IH as [Hh Ht]. constructor; [|done].
    simpl. rewrite Hh. rewrite bool_decide_eq_false_2 by congruence. done.
Qed.

(** Joining the parts gives the string back. *)
Lemma join_split s : Py.join sep_str (Py.split sep None s) = s.
Proof.
  induction s as [|c s IH]; [done|].
  change (Py.split sep None (String c s))
    with (if bool_decide (c = sep) && true
          then "" :: Py.split sep None s
          else match Py.split sep None s with
               | [] => [String c ""]
               | h :: t => String c h :: t
               end).
  pose proof (split_nonempty None s) as Hne.
  case_bool_decide as Hc; cbv beta iota delta [andb].
  - subst c. rewrite join_cons by done. by rewrite IH.
  - destruct (Py.split sep None s) as [|h t]; [done|].
    destruct t as [|h' t].
    + change (String c h = String c s). f_equal. exact IH.
    + rewrite join_cons by done. rewrite join_cons in IH by done.
      rewrite str_app_cons. by rewrite IH.
Qed.

Lemma join_ends_with_last (l : list string) d :
  l ≠ [] →
  ∃ dir, Py.join sep_str l = dir +:+ List.last l d ∧
         (dir = "" ∨ ∃ parent, dir = parent +:+ sep_str).
Proof.
  induction l as [|x l IH]; [done|]. intros _.
  destruct l as [|y l].
  - exists "". split; [done|]. by left.
  - destruct IH as (dir & Hjoin & Hdir); [done|].
    rewrite join_cons by done. rewrite Hjoin.
    change (List.last (x :: y :: l) d) with (List.last (y :: l) d).
    exists (x +:+ sep_str +:+ dir). split; [by rewrite !str_app_assoc|].
    right. destruct Hdir as [->|[parent ->]].
    + exists x. by rewrite str_app_nil_r.
    + exists (x +:+ sep_str +:+ parent). by rewrite !str_app_assoc.
Qed.

Lemma last_Forall {A} (Q : A → Prop) (l : list A) d :
  l ≠ [] → Forall Q l → Q (List.last l d).
Proof.
  induction l as [|x l IH]; [done|]. intros _ [Hx Hl]%Forall_cons.
  destruct l as [|y l]; [done|]. by apply IH.
Qed.

End Splitting.

(** ** The manifest document *)

Section ManifestDocument.

Context (cfg : Config).

(** The reference lines of a manifest, as the loop writes them. *)
#[local] Abbreviation references_of :=
  (λ relative_path thumbnails,
     (λ key, relative_path +:+ ManifestUpdater.thumbnail_name_of key)
       <$> thumbnails).

Lemma foldl_append_entry relative_path resolution thumbnails manifest_lines :
  foldl (ManifestUpdater.append_entry cfg relative_path resolution)
    manifest_lines thumbnails
  = manifest_lines
    ++ concat (tile_entry_lines cfg resolution
                 <$> references_of relative_path thumbnails).
Proof.
  revert manifest_lines.
  induction thumbnails as [|key thumbnails IH]; intros manifest_lines; simpl.
  - by rewrite app_nil_r.
  - rewrite IH. unfold ManifestUpdater.append_entry, tile_entry_lines,
      duration_directive, tile_directive.
    by rewrite <-!(assoc_L (++)).
Qed.

Lemma manifest_lines_layout media_path thumbnails resolution :
  ManifestUpdater.manifest_lines_of cfg media_path thumbnails resolution
  = ManifestUpdater.manifest_header cfg
    ++ concat (tile_entry_lines cfg resolution
                 <$> references_of (ManifestUpdater.relative_path_of media_path)
                       thumbnails)
    ++ ["#EXT-X-ENDLIST"].
Proof.
  unfold ManifestUpdater.manifest_lines_of.
  by rewrite foldl_append_entry, <-(assoc_L (++)).
Qed.

Lemma join_entries resolution (references : list string) rest :
  rest ≠ [] →
  Py.join nl (concat (tile_entry_lines cfg resolution <$> references) ++ rest)
  = concat_text (tile_entry_block cfg resolution <$> references)
    +:+ Py.join nl rest.
Proof.
  intros Hrest. induction references as [|reference references IH]; [done|].
  rewrite !fmap_cons.
  change (concat (?x :: ?l)) with (x ++ concat l).
  rewrite <-(assoc_L (++)), join_app; [|done|by destruct rest, references].
  rewrite IH.
  change (concat_text (?x :: ?l)) with (x +:+ concat_text l).
  change (Py.join nl (tile_entry_lines cfg resolution reference))
    with (duration_directive cfg +:+ nl +:+ tile_directive cfg resolution +:+ nl
          +:+ reference +:+ nl +:+ "").
  unfold tile_entry_block. by rewrite !str_app_assoc.
Qed.

Lemma filter_entries (P : string → bool) resolution (references : list string)
    (f : string → list string) :
  Forall (λ reference,
            filter P (tile_entry_lines cfg resolution reference) = f reference)
    references →
  filter P (concat (tile_entry_lines cfg resolution <$> references))
  = concat (f <$> references).
Proof.
  induction 1 as [|reference references Hf _ IH]; [done|].
  rewrite !fmap_cons.
  change (concat (?x :: ?l)) with (x ++ concat l).
  by rewrite filter_app, IH, Hf.
Qed.

End ManifestDocument.

Section ManifestFilters.

Context (cfg : Config).

Lemma concat_singletons {A B} (g : A → B) (l : list A) :
  concat ((λ x, [g x]) <$> l) = g <$> l.
Proof. induction l as [|x l IH]; [done|]. rewrite !fmap_cons. simpl. by rewrite IH. Qed.

Lemma tile_directives_of_lines media_path thumbnails resolution :
  filter is_tile_directive
    (ManifestUpdater.manifest_lines_of cfg media_path thumbnails resolution)
  = (λ _, tile_directive cfg resolution) <$> thumbnails.
Proof.
  rewrite manifest_lines_layout, !filter_app.
  rewrite (filter_entries cfg _ _ _ (λ _, [tile_directive cfg resolution])).
  - rewrite concat_singletons, <-list_fmap_compose. apply (app_nil_r _).
  - apply Forall_fmap, Forall_forall. intros key _. simpl.
    unfold tile_entry_lines, ManifestUpdater.relative_path_of. by case_match.
Qed.

Lemma duration_directives_of_lines media_path thumbnails resolution :
  filter is_duration_directive
    (ManifestUpdater.manifest_lines_of cfg media_path thumbnails resolution)
  = (λ _, duration_directive cfg) <$> thumbnails.
Proof.
  rewrite manifest_lines_layout, !filter_app.
  rewrite (filter_entries cfg _ _ _ (λ _, [duration_directive cfg])).
  - rewrite concat_singletons, <-list_fmap_compose. apply (app_nil_r _).
  - apply Forall_fmap, Forall_forall. intros key _. simpl.
    unfold tile_entry_lines, ManifestUpdater.relative_path_of. by case_match.
Qed.

Lemma references_of_lines media_path thumbnails resolution :
  filter is_reference
    (ManifestUpdater.manifest_lines_of cfg media_path thumbnails resolution)
  = (λ key, ManifestUpdater.relative_path_of media_path
            +:+ ManifestUpdater.thumbnail_name_of key) <$> thumbnails.
Proof.
  rewrite manifest_lines_layout, !filter_app.
  rewrite (filter_entries cfg _ _ _ (λ reference, [reference])).
  - rewrite concat_singletons, list_fmap_id. apply (app_nil_r _).
  - apply Forall_fmap, Forall_forall. intros key _. simpl.
    unfold tile_entry_lines, ManifestUpdater.relative_path_of. by case_match.
Qed.

(** The name the loop takes from each key is the key's filename. *)
Lemma thumbnail_name_is_filename thumbnail_key :
  is_filename_of (ManifestUpdater.thumbnail_name_of thumbnail_key) thumbnail_key.
Proof.
  unfold ManifestUpdater.thumbnail_name_of. split.
  - apply (last_Forall (λ part, Py.contains "/" part = false)).
    + apply split_nonempty.
    + apply split_parts_without_sep.
  - destruct (join_ends_with_last "/"%char
                (Py.split "/"%char None thumbnail_key) "")
      as (dir & Hjoin & Hdir); [apply split_nonempty|].
    rewrite join_split in Hjoin. eauto.
Qed.

Lemma thumbnail_names_are_filenames (thumbnails : list string) :
  Forall2 is_filename_of (ManifestUpdater.thumbnail_name_of <$> thumbnails)
    thumbnails.
Proof.
  induction thumbnails as [|key thumbnails IH]; constructor; [|done].
  apply thumbnail_name_is_filename.
Qed.

End ManifestFilters.

(** The end-to-end scenario of the specification. *)
Example manifest_scenario :
  ManifestUpdater.manifest_content_of (default_config None None None None)
    "content/v1/"
    ["content/v1/thumbs/v1_small.00001.jpg"; "content/v1/thumbs/v1_small.00002.jpg"]
    "320x180"
  = Py.join nl
      ["#EXTM3U"; "#EXT-X-TARGETDURATION:10"; "#EXT-X-VERSION:7";
       "#EXT-X-MEDIA-SEQUENCE:1"; "#EXT-X-PLAYLIST-TYPE:VOD"; "#EXT-X-IMAGES-ONLY";
       "";
       "#EXTINF:10.000,";
       "#EXT-X-TILES:RESOLUTION=320x180,LAYOUT=1x1,DURATION=10.000";
       "thumbs/v1_small.00001.jpg"; "";
       "#EXTINF:10.000,";
       "#EXT-X-TILES:RESOLUTION=320x180,LAYOUT=1x1,DURATION=10.000";
       "thumbs/v1_small.00002.jpg"; "";
       "#EXT-X-ENDLIST"].
Proof. vm_compute. reflexivity. Qed.

(** ** The composer and the object store *)

Section ComposerRuns.

Context (cfg : Config) (bucket media_path hls_url : string).

Lemma merge_run manifest_filename resolution bandwidth w :
  match ManifestUpdater.playlist_key_parts hls_url !! 1 with
  | None =>
      ∃ e w', ManifestUpdater._update_main_playlist bucket media_path hls_url
                manifest_filename resolution bandwidth w = (Raise e, w')
  | Some playlist_key =>
      match objects w !! (bucket, playlist_key) with
      | None =>
          ∃ e w', ManifestUpdater._update_main_playlist bucket media_path hls_url
                    manifest_filename resolution bandwidth w = (Raise e, w')
      | Some playlist_content =>
          ∃ w', ManifestUpdater._update_main_playlist bucket media_path hls_url
                  manifest_filename resolution bandwidth w = (Ok (), w') ∧
                objects w'
                = <[(bucket, playlist_key) :=
                      merged_text manifest_filename resolution bandwidth
                        playlist_content]> (objects w)
      end
  end.
Proof.
  destruct (ManifestUpdater.playlist_key_parts hls_url !! 1)
    as [playlist_key|] eqn:Hkey.
  - destruct (objects w !! (bucket, playlist_key)) as [content|] eqn:Hobj.
    + unfold merged_text.
      destruct (Py.contains manifest_filename content) eqn:Hin.
      * eexists. split; [by eapply merge_already_updated|].
        simpl. by rewrite insert_id.
      * eexists. split; [by eapply merge_writes|]. done.
    + destruct (merge_no_object bucket media_path hls_url manifest_filename
                  resolution bandwidth w playlist_key) as (e & w' & H & _); eauto.
  - destruct (merge_no_key bucket media_path hls_url manifest_filename
                resolution bandwidth w) as (e & w' & H & _); eauto.
Qed.

Lemma create_manifest_run thumbnails resolution bandwidth suffix w :
  match create_objects cfg bucket media_path hls_url thumbnails resolution
          bandwidth (objects w) with
  | Some o' =>
      ∃ r w', ManifestUpdater._create_manifest cfg bucket media_path hls_url
                thumbnails resolution bandwidth suffix w = (Ok r, w') ∧
              objects w' = o'
  | None =>
      ∃ e w', ManifestUpdater._create_manifest cfg bucket media_path hls_url
                thumbnails resolution bandwidth suffix w = (Raise e, w')
  end.
Proof.
  unfold create_objects, ManifestUpdater._create_manifest.
  set (fn := ManifestUpdater.manifest_filename_of resolution).
  set (content := ManifestUpdater.manifest_content_of cfg media_path thumbnails
                    resolution).
  set (w1 := store_object bucket (media_path +:+ fn) content
               (add_call (S3PutObject bucket (media_path +:+ fn) content
                            ManifestUpdater.CONTENT_TYPE true)
                  (add_log (info_entry "Putting object to S3") w))).
  assert (S3Helper.put_object bucket (media_path +:+ fn) content
            ManifestUpdater.CONTENT_TYPE true w = (Ok (), w1)) as Hput by done.
  pose proof (merge_run fn resolution bandwidth w1) as Hmerge.
  change (objects w1) with (<[(bucket, media_path +:+ fn) := content]> (objects w))
    in Hmerge.
  destruct (ManifestUpdater.playlist_key_parts hls_url !! 1) as [pk|]; simpl.
  - destruct (<[(bucket, media_path +:+ fn) := content]> (objects w) !! (bucket, pk))
      as [c|]; simpl.
    + destruct Hmerge as (w' & Hrun & Hobj).
      eexists _, _. split.
      * eapply try_except_ok. erewrite bind_ok by exact Hput.
        erewrite bind_ok by exact Hrun. reflexivity.
      * simpl. exact Hobj.
    + destruct Hmerge as (e & w' & Hrun).
      eexists _, _. erewrite try_except_raise; [reflexivity|].
      erewrite bind_ok by exact Hput. erewrite bind_raise by exact Hrun. done.
  - destruct Hmerge as (e & w' & Hrun).
    eexists _, _. erewrite try_except_raise; [reflexivity|].
    erewrite bind_ok by exact Hput. erewrite bind_raise by exact Hrun. done.
Qed.

End ComposerRuns.

Section ComposerStore.

Context (cfg : Config) (bucket media_path hls_url : string).

#[local] Abbreviation compose :=
  (ManifestUpdater.create_manifests_and_update_playlist cfg bucket media_path
     hls_url).

Lemma step_run thumbnails resolution bandwidth suffix
    (results : gmap string string) w :
  match step_objects cfg bucket media_path hls_url thumbnails resolution
          bandwidth (objects w) with
  | Some o' =>
      ∃ r w',
        (if ManifestUpdater.nonempty thumbnails
         then
           status ← ManifestUpdater._create_manifest cfg bucket media_path
                      hls_url thumbnails resolution bandwidth suffix;
           mret (<[suffix := status]> results)
         else mret results) w = (Ok r, w') ∧
        objects w' = o'
  | None =>
      ∃ e w',
        (if ManifestUpdater.nonempty thumbnails
         then
           status ← ManifestUpdater._create_manifest cfg bucket media_path
                      hls_url thumbnails resolution bandwidth suffix;
           mret (<[suffix := status]> results)
         else mret results) w = (Raise e, w')
  end.
Proof.
  unfold step_objects. destruct (ManifestUpdater.nonempty thumbnails).
  - pose proof (create_manifest_run cfg bucket media_path hls_url thumbnails
                  resolution bandwidth suffix w) as Hrun.
    destruct (create_objects cfg bucket media_path hls_url thumbnails resolution
                bandwidth (objects w)) as [o'|].
    + destruct Hrun as (r & w' & Hrun & Hobj).
      eexists _, _. split; [|exact Hobj]. by erewrite bind_ok by exact Hrun.
    + destruct Hrun as (e & w' & Hrun).
      eexists _, _. by erewrite bind_raise by exact Hrun.
  - by eexists _, _.
Qed.

Lemma composer_run small_thumbnails big_thumbnails w :
  match composer_objects cfg bucket media_path hls_url small_thumbnails
          big_thumbnails (objects w) with
  | Some o' =>
      ∃ r w', compose small_thumbnails big_thumbnails w = (Ok r, w') ∧
              objects w' = o'
  | None =>
      ∃ e w', compose small_thumbnails big_thumbnails w = (Raise e, w')
  end.
Proof.
  unfold composer_objects, ManifestUpdater.create_manifests_and_update_playlist.
  set (w0 := add_log (info_entry "Creating manifests") w).
  assert (StructuredLogger.info "Creating manifests" w = (Ok (), w0)) as Hlog by done.
  pose proof (step_run small_thumbnails (THUMBNAIL_SMALL_RESOLUTION cfg)
                (THUMBNAIL_SMALL_BANDWIDTH cfg) "small" ∅ w0) as Hsmall.
  change (objects w0) with (objects w) in Hsmall.
  destruct (step_objects cfg bucket media_path hls_url small_thumbnails
              (THUMBNAIL_SMALL_RESOLUTION cfg) (THUMBNAIL_SMALL_BANDWIDTH cfg)
              (objects w)) as [o1|]; simpl.
  - destruct Hsmall as (r1 & w1 & Hsmall & <-).
    pose proof (step_run big_thumbnails (THUMBNAIL_BIG_RESOLUTION cfg)
                  (THUMBNAIL_BIG_BANDWIDTH cfg) "big" r1 w1) as Hbig.
    destruct (step_objects cfg bucket media_path hls_url big_thumbnails
                (THUMBNAIL_BIG_RESOLUTION cfg) (THUMBNAIL_BIG_BANDWIDTH cfg)
                (objects w1)) as [o2|].
    + destruct Hbig as (r2 & w2 & Hbig & <-).
      eexists _, _. split.
      * eapply try_except_ok. erewrite bind_ok by exact Hlog.
        erewrite bind_ok by exact Hsmall. erewrite bind_ok by exact Hbig.
        reflexivity.
      * done.
    + destruct Hbig as (e & w2 & Hbig).
      eexists _, _. erewrite try_except_raise; [reflexivity|].
      erewrite bind_ok by exact Hlog. erewrite bind_ok by exact Hsmall.
      by erewrite bind_raise by exact Hbig.
  - destruct Hsmall as (e & w1 & Hsmall).
    eexists _, _. erewrite try_except_raise; [reflexivity|].
    erewrite bind_ok by exact Hlog. by erewrite bind_raise by exact Hsmall.
Qed.

(** A run that returns has left in the store what [composer_objects] says. *)
Lemma composer_returns small_thumbnails big_thumbnails w r w' :
  compose small_thumbnails big_thumbnails w = (Ok r, w') →
  composer_objects cfg bucket media_path hls_url small_thumbnails big_thumbnails
    (objects w) = Some (objects w').
Proof.
  intros Hrun.
  pose proof (composer_run small_thumbnails big_thumbnails w) as H.
  destruct (composer_objects cfg bucket media_path hls_url small_thumbnails
              big_thumbnails (objects w)) as [o'|].
  - destruct H as (r' & w'' & H & <-). congruence.
  - destruct H as (e & w'' & H). congruence.
Qed.

End ComposerStore.

(** ** Running the composer a second time *)

Section SecondRun.

Context (cfg : Config) (bucket media_path hls_url playlist_key : string).
Context (Hkey : ManifestUpdater.playlist_key_parts hls_url !! 1 = Some playlist_key).

Lemma create_objects_playlist thumbnails resolution bandwidth o o' :
  create_objects cfg bucket media_path hls_url thumbnails resolution bandwidth o
    = Some o' →
  o' !! (bucket, playlist_key)
  = playlist_after cfg bucket media_path playlist_key thumbnails resolution
      bandwidth (o !! (bucket, playlist_key)).
Proof.
  unfold create_objects, playlist_after. rewrite Hkey. simpl.
  rewrite lookup_insert.
  destruct (decide (_ = _)); simpl.
  - intros [= <-]. by rewrite lookup_insert_eq.
  - destruct (o !! (bucket, playlist_key)); simpl; [|done].
    intros [= <-]. by rewrite lookup_insert_eq.
Qed.

Lemma create_objects_defined thumbnails resolution bandwidth o :
  is_Some (playlist_after cfg bucket media_path playlist_key thumbnails
             resolution bandwidth (o !! (bucket, playlist_key))) →
  is_Some (create_objects cfg bucket media_path hls_url thumbnails resolution
             bandwidth o).
Proof.
  unfold create_objects, playlist_after. rewrite Hkey. simpl.
  rewrite lookup_insert.
  destruct (decide (_ = _)); simpl; [eauto|].
  destruct (o !! (bucket, playlist_key)); simpl; [eauto|].
  by intros [? ?].
Qed.

Lemma merged_text_already manifest_filename resolution bandwidth content :
  Py.contains manifest_filename content = true →
  merged_text manifest_filename resolution bandwidth content = content.
Proof. unfold merged_text. by intros ->. Qed.

Lemma composer_objects_second_run small_thumbnails big_thumbnails o0 o1 content :
  composer_objects cfg bucket media_path hls_url small_thumbnails big_thumbnails o0
    = Some o1 →
  o1 !! (bucket, playlist_key) = Some content →
  (small_thumbnails ≠ [] →
   Py.contains (ManifestUpdater.manifest_filename_of (THUMBNAIL_SMALL_RESOLUTION cfg))
     content = true) →
  (big_thumbnails ≠ [] →
   Py.contains (ManifestUpdater.manifest_filename_of (THUMBNAIL_BIG_RESOLUTION cfg))
     content = true) →
  ∃ o2,
    composer_objects cfg bucket media_path hls_url small_thumbnails big_thumbnails o1
      = Some o2 ∧
    o2 !! (bucket, playlist_key) = Some content.
Proof.
  unfold composer_objects, step_objects.
  intros Hrun Hcontent Hsmall Hbig.
  destruct small_thumbnails as [|ks small]; destruct big_thumbnails as [|kb big];
    simpl in *.
  - injection Hrun as ->. eauto.
  - specialize (Hbig ltac:(done)).
    pose proof (create_objects_playlist _ _ _ _ _ Hrun) as Hview.
    rewrite Hcontent in Hview.
    assert (playlist_after cfg bucket media_path playlist_key (kb :: big)
              (THUMBNAIL_BIG_RESOLUTION cfg) (THUMBNAIL_BIG_BANDWIDTH cfg)
              (Some content) = Some content) as Hagain.
    { revert Hview. unfold playlist_after. destruct (decide (_ = _)); simpl.
      - by intros ->.
      - intros _. by rewrite merged_text_already. }
    destruct (create_objects_defined (kb :: big) (THUMBNAIL_BIG_RESOLUTION cfg)
                (THUMBNAIL_BIG_BANDWIDTH cfg) o1) as [o2 Ho2].
    { rewrite Hcontent, Hagain. eauto. }
    exists o2. split; [done|].
    by rewrite (create_objects_playlist _ _ _ _ _ Ho2), Hcontent.
  - specialize (Hsmall ltac:(done)).
    destruct (create_objects cfg bucket media_path hls_url (ks :: small)
                (THUMBNAIL_SMALL_RESOLUTION cfg) (THUMBNAIL_SMALL_BANDWIDTH cfg) o0)
      as [oa|] eqn:Hfirst; simpl in Hrun; [|done].
    injection Hrun as ->.
    pose proof (create_objects_playlist _ _ _ _ _ Hfirst) as Hview.
    rewrite Hcontent in Hview.
    assert (playlist_after cfg bucket media_path playlist_key (ks :: small)
              (THUMBNAIL_SMALL_RESOLUTION cfg) (THUMBNAIL_SMALL_BANDWIDTH cfg)
              (Some content) = Some content) as Hagain.
    { revert Hview. unfold playlist_after. destruct (decide (_ = _)); simpl.
      - by intros ->.
      - intros _. by rewrite merged_text_already. }
    destruct (create_objects_defined (ks :: small) (THUMBNAIL_SMALL_RESOLUTION cfg)
                (THUMBNAIL_SMALL_BANDWIDTH cfg) o1) as [o2 Ho2].
    { rewrite Hcontent, Hagain. eauto. }
    exists o2. rewrite Ho2. split; [done|].
    by rewrite (create_objects_playlist _ _ _ _ _ Ho2), Hcontent.
  - specialize (Hsmall ltac:(done)). specialize (Hbig ltac:(done)).
    destruct (create_objects cfg bucket media_path hls_url (ks :: small)
                (THUMBNAIL_SMALL_RESOLUTION cfg) (THUMBNAIL_SMALL_BANDWIDTH cfg) o0)
      as [oa|] eqn:Hfirst; simpl in Hrun; [|done].
    pose proof (create_objects_playlist _ _ _ _ _ Hfirst) as Hviewa.
    pose proof (create_objects_playlist _ _ _ _ _ Hrun) as Hview1.
    rewrite Hcontent, Hviewa in Hview1.
    assert (playlist_after cfg bucket media_path playlist_key (kb :: big)
              (THUMBNAIL_BIG_RESOLUTION cfg) (THUMBNAIL_BIG_BANDWIDTH cfg)
              (playlist_after cfg bucket media_path playlist_key (ks :: small)
                 (THUMBNAIL_SMALL_RESOLUTION cfg) (THUMBNAIL_SMALL_BANDWIDTH cfg)
                 (Some content)) = Some content) as Hagain.
    { revert Hview1. unfold playlist_after.
      destruct (decide ((bucket, media_path +:+ ManifestUpdater.manifest_filename_of
                           (THUMBNAIL_BIG_RESOLUTION cfg)) = _)); simpl.
      - by intros ->.
      - destruct (decide (_ = _)); simpl.
        + by intros ->.
        + intros _.
          rewrite (merged_text_already _ _ _ content Hsmall).
          by rewrite (merged_text_already _ _ _ content Hbig). }
    assert (is_Some (playlist_after cfg bucket media_path playlist_key (ks :: small)
              (THUMBNAIL_SMALL_RESOLUTION cfg) (THUMBNAIL_SMALL_BANDWIDTH cfg)
              (Some content))) as Hmid.
    { unfold playlist_after. destruct (decide (_ = _)); simpl; eauto. }
    destruct (create_objects_defined (ks :: small) (THUMBNAIL_SMALL_RESOLUTION cfg)
                (THUMBNAIL_SMALL_BANDWIDTH cfg) o1) as [ob Hob].
    { by rewrite Hcontent. }
    pose proof (create_objects_playlist _ _ _ _ _ Hob) as Hviewb.
    rewrite Hcontent in Hviewb.
    destruct (create_objects_defined (kb :: big) (THUMBNAIL_BIG_RESOLUTION cfg)
                (THUMBNAIL_BIG_BANDWIDTH cfg) ob) as [o2 Ho2].
    { rewrite Hviewb, Hagain. eauto. }
    exists o2. rewrite Hob. simpl. split; [done|].
    by rewrite (create_objects_playlist _ _ _ _ _ Ho2), Hviewb.
Qed.

End SecondRun.

(** C1. Idempotent merge. When the master playlist fetched from storage
    already contains the manifest filename, [_update_main_playlist] returns
    after the fetch, with no upload and the stored objects unchanged.
    Hence, when a composer run has returned and the master playlist it left
    contains the manifest filename of every resolution it processed, a
    second run with the same inputs returns as well and leaves the master
    playlist with the same content. *)
Theorem composer_merge_idempotent (cfg : Config)
    (bucket media_path hls_url playlist_key : string)
    (small_thumbnails big_thumbnails : list string)
    (w0 w1 : World) (r1 : gmap string string) (playlist_content : string) :
  ManifestUpdater.playlist_key_parts hls_url !! 1 = Some playlist_key →
  ManifestUpdater.create_manifests_and_update_playlist cfg bucket media_path
    hls_url small_thumbnails big_thumbnails w0 = (Ok r1, w1) →
  objects w1 !! (bucket, playlist_key) = Some playlist_content →
  (small_thumbnails ≠ [] →
   Py.contains (ManifestUpdater.manifest_filename_of (THUMBNAIL_SMALL_RESOLUTION cfg))
     playlist_content = true) →
  (big_thumbnails ≠ [] →
   Py.contains (ManifestUpdater.manifest_filename_of (THUMBNAIL_BIG_RESOLUTION cfg))
     playlist_content = true) →
  (∀ manifest_filename resolution bandwidth w content,
     objects w !! (bucket, playlist_key) = Some content →
     Py.contains manifest_filename content = true →
     ∃ w',
       ManifestUpdater._update_main_playlist bucket media_path hls_url
         manifest_filename resolution bandwidth w = (Ok (), w') ∧
       calls w' = calls w ++ [S3GetObject bucket playlist_key] ∧
       objects w' = objects w)
  ∧ ∃ r2 w2,
      ManifestUpdater.create_manifests_and_update_playlist cfg bucket media_path
        hls_url small_thumbnails big_thumbnails w1 = (Ok r2, w2) ∧
      objects w2 !! (bucket, playlist_key) = Some playlist_content.
Proof.
  intros Hkey Hfirst Hcontent Hsmall Hbig. split.
  - intros manifest_filename resolution bandwidth w content Hobj Hin.
    eexists. split; [by eapply merge_already_updated|]. done.
  - apply composer_returns in Hfirst.
    destruct (composer_objects_second_run cfg bucket media_path hls_url
                playlist_key Hkey small_thumbnails big_thumbnails (objects w0)
                (objects w1) playlist_content) as (o2 & Hsecond & Hsame); [done..|].
    pose proof (composer_run cfg bucket media_path hls_url small_thumbnails
                  big_thumbnails w1) as Hrun.
    rewrite Hsecond in Hrun. destruct Hrun as (r2 & w2 & Hrun & Hobj).
    exists r2, w2. split; [done|]. by rewrite Hobj.
Qed.

Lemma composer_merge_idempotent_witness :
  (∀ manifest_filename resolution bandwidth w content,
     objects w !! ("media-bucket", "a/play.m3u8") = Some content →
     Py.contains manifest_filename content = true →
     ∃ w',
       ManifestUpdater._update_main_playlist "media-bucket" "a/"
         "s3://media-bucket/a/play.m3u8" manifest_filename resolution bandwidth w
       = (Ok (), w') ∧
       calls w' = calls w ++ [S3GetObject "media-bucket" "a/play.m3u8"] ∧
       objects w' = objects w)
  ∧ ∃ r2 w2,
      ManifestUpdater.create_manifests_and_update_playlist example_config
        "media-bucket" "a/" "s3://media-bucket/a/play.m3u8" example_small
        example_big after_first_run = (Ok r2, w2) ∧
      objects w2 !! ("media-bucket", "a/play.m3u8") = Some merged_stream_playlist.
Proof.
  apply (composer_merge_idempotent example_config "media-bucket" "a/"
           "s3://media-bucket/a/play.m3u8" "a/play.m3u8" example_small example_big
           (world_with "a/play.m3u8" stream_playlist) after_first_run
           {[ "small" := "Created thumbs_320x180.m3u8 for 320x180";
              "big" := "Created thumbs_640x360.m3u8 for 640x360" ]}
           merged_stream_playlist).
  - reflexivity.
  - vm_compute. reflexivity.
  - vm_compute. reflexivity.
  - intros _. vm_compute. reflexivity.
  - intros _. vm_compute. reflexivity.
Defined.

(** ** The call trace of a computation *)

Section Emits.

Context (T : list Call → Prop).

Lemma emits_ret {A} (a : A) : T [] → emits T (mret a).
Proof. intros H w. exists []. by rewrite app_nil_r. Qed.

Lemma emits_raise {A} e : T [] → emits T (raise (A := A) e).
Proof. intros H w. exists []. by rewrite app_nil_r. Qed.

Lemma emits_get_world : T [] → emits T get_world.
Proof. intros H w. exists []. by rewrite app_nil_r. Qed.

Lemma emits_modify f :
  (∀ w, calls (f w) = calls w) → T [] → emits T (modify_world f).
Proof. intros Hf H w. exists []. simpl. by rewrite Hf, app_nil_r. Qed.

Lemma emits_record_call c : T [c] → emits T (record_call c).
Proof. intros H w. by exists [c]. Qed.

Lemma emits_log lvl message exception :
  T [] → emits T (StructuredLogger.emit lvl message exception).
Proof. intros H. by apply emits_modify. Qed.

Lemma emits_bind {A B} (T1 T2 : list Call → Prop) (m : M A) (k : A → M B) :
  emits T1 m → (∀ a, emits T2 (k a)) →
  (∀ c1, T1 c1 → T c1) → (∀ c1 c2, T1 c1 → T2 c2 → T (c1 ++ c2)) →
  emits T (m ≫= k).
Proof.
  intros Hm Hk Hone Hboth w. destruct (Hm w) as (c1 & Hc1 & HT1).
  unfold mbind, M_bind. destruct (m w) as [[a|e] w1]; simpl in *.
  - destruct (Hk a w1) as (c2 & Hc2 & HT2). exists (c1 ++ c2).
    split; [|by apply Hboth]. by rewrite Hc2, Hc1, (assoc_L (++)).
  - exists c1. split; [done|]. by apply Hone.
Qed.

Lemma emits_try_except {A} (T1 T2 : list Call → Prop) (m : M A) h :
  emits T1 m → (∀ e, emits T2 (h e)) →
  (∀ c1, T1 c1 → T c1) → (∀ c1 c2, T1 c1 → T2 c2 → T (c1 ++ c2)) →
  emits T (try_except m h).
Proof.
  intros Hm Hh Hone Hboth w. destruct (Hm w) as (c1 & Hc1 & HT1).
  unfold try_except. destruct (m w) as [[a|e] w1]; simpl in *.
  - exists c1. split; [done|]. by apply Hone.
  - destruct (Hh e w1) as (c2 & Hc2 & HT2). exists (c1 ++ c2).
    split; [|by apply Hboth]. by rewrite Hc2, Hc1, (assoc_L (++)).
Qed.

End Emits.

(** Traces whose calls all satisfy [P] compose freely. *)
Section EmitsAll.

Context (P : Call → Prop).

Lemma all_bind {A B} (m : M A) (k : A → M B) :
  emits (Forall P) m → (∀ a, emits (Forall P) (k a)) →
  emits (Forall P) (m ≫= k).
Proof.
  intros Hm Hk. eapply emits_bind; [exact Hm|exact Hk|done|].
  intros c1 c2 H1 H2. by apply Forall_app.
Qed.

Lemma all_try_except {A} (m : M A) h :
  emits (Forall P) m → (∀ e, emits (Forall P) (h e)) →
  emits (Forall P) (try_except m h).
Proof.
  intros Hm Hh. eapply emits_try_except; [exact Hm|exact Hh|done|].
  intros c1 c2 H1 H2. by apply Forall_app.
Qed.

Lemma all_ret {A} (a : A) : emits (Forall P) (mret a).
Proof. by apply emits_ret. Qed.

Lemma all_raise {A} e : emits (Forall P) (raise (A := A) e).
Proof. by apply emits_raise. Qed.

Lemma all_get_world : emits (Forall P) get_world.
Proof. by apply emits_get_world. Qed.

Lemma all_log lvl message exception :
  emits (Forall P) (StructuredLogger.emit lvl message exception).
Proof. by apply emits_log. Qed.

Lemma all_store bucket key body :
  emits (Forall P) (modify_world (store_object bucket key body)).
Proof. by apply emits_modify. Qed.

Lemma all_record_call c : P c → emits (Forall P) (record_call c).
Proof. intros H. apply emits_record_call. by apply Forall_singleton. Qed.

Lemma all_for_each {A} (body : A → M unit) xs :
  (∀ x, emits (Forall P) (body x)) → emits (Forall P) (for_each body xs).
Proof.
  intros Hbody. induction xs as [|x xs IH]; simpl.
  - apply all_ret.
  - apply all_bind; [apply Hbody|]. intros _. apply IH.
Qed.

End EmitsAll.

(** ** Cache invalidation with an empty path list *)

(** C8 (as amended). With an empty path list [invalidate_cache] never calls
    the CDN. When a distribution id is available, as argument or from the
    configuration, it returns [None] and its only effect is one warning in
    the log; without a distribution id it raises [CDNInvalidationError]. *)
Theorem invalidate_cache_empty_paths (env : Env) (cfg : Config)
    (distribution_id : option string) (w : World) :
  calls (CacheInvalidator.invalidate_cache env cfg [] distribution_id w).2 = calls w
  ∧ if truthy (py_or distribution_id (AWS_CLOUDFRONT_DISTRIBUTION_ID cfg))
    then CacheInvalidator.invalidate_cache env cfg [] distribution_id w
         = (Ok None,
            add_log (mkLog WARNING "No paths provided for invalidation" None) w)
    else ∃ message,
           (CacheInvalidator.invalidate_cache env cfg [] distribution_id w).1
           = Raise (mkExn CDNInvalidationError message).
Proof.
  unfold CacheInvalidator.invalidate_cache, try_except.
  destruct (py_or distribution_id (AWS_CLOUDFRONT_DISTRIBUTION_ID cfg))
    as [[|c d]|]; simpl; eauto.
Qed.

(** C8, as stated, fails: with no distribution id in the argument nor in
    the configuration, the call with an empty path list raises and logs an
    error, not a warning. *)
Lemma invalidate_cache_empty_paths_unconfigured :
  CacheInvalidator.invalidate_cache example_env unconfigured [] None empty_world
  = (Raise (mkExn CDNInvalidationError
              "Failed to invalidate cache: CloudFront distribution ID not configured"),
     mkWorld ∅ []
       [mkLog ERROR "Cache invalidation failed"
          (Some (mkExn CDNInvalidationError
                   "CloudFront distribution ID not configured"))]).
Proof. reflexivity. Qed.

(** ** Traces of the composer and of its handler *)

Ltac trace_step :=
  match goal with
  | |- ∀ _, _ => intros ?
  | |- emits (Forall _) (mbind _ _) => apply all_bind
  | |- emits (Forall _) (try_except _ _) => apply all_try_except
  | |- emits (Forall _) (mret _) => apply all_ret
  | |- emits (Forall _) (raise _) => apply all_raise
  | |- emits (Forall _) get_world => apply all_get_world
  | |- emits (Forall _) (StructuredLogger.emit _ _ _) => apply all_log
  | |- emits (Forall _) (StructuredLogger.info _) => apply all_log
  | |- emits (Forall _) (StructuredLogger.error _ _) => apply all_log
  | |- emits (Forall _) (StructuredLogger.warning _) => apply all_log
  | |- emits (Forall _) (StructuredLogger.debug _) => apply all_log
  | |- emits (Forall _) (modify_world (store_object _ _ _)) => apply all_store
  | |- emits (Forall _) (if ?b then _ else _) => destruct b
  | |- emits (Forall _) (match ?x with _ => _ end) => destruct x
  end.

Ltac trace := repeat trace_step.

Section PureTraces.

Context (P : Call → Prop).

Lemma all_list_index {A} (l : list A) i : emits (Forall P) (list_index l i).
Proof. unfold list_index. trace. Qed.

Lemma all_validate cfg : emits (Forall P) (validate cfg).
Proof. unfold validate. cbv zeta. trace. Qed.

Lemma all_item d key : emits (Forall P) (Dict.item d key).
Proof. unfold Dict.item. trace. Qed.

Lemma all_get d key default : emits (Forall P) (Dict.get d key default).
Proof. unfold Dict.get. trace. Qed.

Lemma all_loads env raw : emits (Forall P) (Json.loads env raw).
Proof. unfold Json.loads. trace. Qed.

Lemma all_len v : emits (Forall P) (PyValue.len v).
Proof. unfold PyValue.len. trace. Qed.

Lemma all_contains sub v : emits (Forall P) (PyValue.contains sub v).
Proof. unfold PyValue.contains. trace. Qed.

Lemma all_iter v : emits (Forall P) (PyValue.iter v).
Proof. unfold PyValue.iter. trace. Qed.

Lemma all_str_method name v : emits (Forall P) (PyValue.str_method name v).
Proof. unfold PyValue.str_method. trace. Qed.

End PureTraces.

Section StorageTraces.

Context (P : Call → Prop) (HP : ∀ c, is_s3_call c = true → P c).
Context (cfg : Config).

Lemma all_put_object bucket key body content_type public :
  emits (Forall P) (S3Helper.put_object bucket key body content_type public).
Proof.
  unfold S3Helper.put_object. trace. apply all_record_call. by apply HP.
Qed.

Lemma all_get_object bucket key : emits (Forall P) (S3Helper.get_object bucket key).
Proof.
  unfold S3Helper.get_object. trace. apply all_record_call. by apply HP.
Qed.

Lemma all_update_main_playlist bucket media_path hls_url manifest_filename
    resolution bandwidth :
  emits (Forall P)
    (ManifestUpdater._update_main_playlist bucket media_path hls_url
       manifest_filename resolution bandwidth).
Proof.
  unfold ManifestUpdater._update_main_playlist, ManifestUpdater.playlist_key_of.
  trace; first [apply all_list_index|apply all_get_object|apply all_put_object].
Qed.

Lemma all_create_manifest bucket media_path hls_url thumbnails resolution
    bandwidth suffix :
  emits (Forall P)
    (ManifestUpdater._create_manifest cfg bucket media_path hls_url thumbnails
       resolution bandwidth suffix).
Proof.
  unfold ManifestUpdater._create_manifest. cbv zeta.
  trace; first [apply all_put_object|apply all_update_main_playlist].
Qed.

Context (env : Env).

Lemma all_unchecked_update_main_playlist bucket media_path hls_url
    manifest_filename resolution bandwidth :
  emits (Forall P)
    (Unchecked._update_main_playlist bucket media_path hls_url manifest_filename
       resolution bandwidth).
Proof.
  unfold Unchecked._update_main_playlist, ManifestUpdater.playlist_key_of.
  trace;
    first [apply all_str_method|apply all_list_index|apply all_get_object
          |apply all_put_object].
Qed.

Lemma all_append_entries relative_path resolution manifest_lines thumbnails :
  emits (Forall P)
    (Unchecked.append_entries cfg relative_path resolution manifest_lines
       thumbnails).
Proof.
  revert manifest_lines.
  induction thumbnails as [|key thumbnails IH]; intros manifest_lines; simpl.
  - apply all_ret.
  - apply all_bind; [apply all_str_method|]. intros name. apply IH.
Qed.

Lemma all_unchecked_create_manifest bucket media_path hls_url thumbnails
    resolution bandwidth suffix :
  emits (Forall P)
    (Unchecked._create_manifest env cfg bucket media_path hls_url thumbnails
       resolution bandwidth suffix).
Proof.
  unfold Unchecked._create_manifest. cbv zeta.
  trace;
    first [apply all_contains|apply all_iter|apply all_append_entries
          |apply all_put_object|apply all_unchecked_update_main_playlist].
Qed.

Lemma all_unchecked_composer bucket media_path hls_url small_thumbnails
    big_thumbnails :
  emits (Forall P)
    (Unchecked.create_manifests_and_update_playlist env cfg bucket media_path
       hls_url small_thumbnails big_thumbnails).
Proof.
  unfold Unchecked.create_manifests_and_update_playlist. cbv zeta.
  trace; first [apply all_len|apply all_unchecked_create_manifest].
Qed.

End StorageTraces.

(** ** Unchecked arguments of the annotated types *)

Section Typed.

Context (env : Env) (cfg : Config).

Lemma unchecked_merge_typed bucket media_path media_path' hls_url manifest_filename
    resolution bandwidth w :
  Unchecked._update_main_playlist bucket media_path' (JStr hls_url)
    manifest_filename resolution bandwidth w
  = ManifestUpdater._update_main_playlist bucket media_path hls_url
      manifest_filename resolution bandwidth w.
Proof. reflexivity. Qed.

Lemma append_entries_typed relative_path resolution thumbnails manifest_lines w :
  Unchecked.append_entries cfg relative_path resolution manifest_lines
    (JStr <$> thumbnails) w
  = (Ok (foldl (ManifestUpdater.append_entry cfg relative_path resolution)
           manifest_lines thumbnails), w).
Proof.
  revert manifest_lines.
  induction thumbnails as [|key thumbnails IH]; intros manifest_lines; [done|].
  apply IH.
Qed.

Lemma unchecked_create_manifest_typed bucket media_path hls_url thumbnails
    resolution bandwidth suffix w :
  Unchecked._create_manifest env cfg bucket (JStr media_path) (JStr hls_url)
    (PyValue.of_strs thumbnails) resolution bandwidth suffix w
  = ManifestUpdater._create_manifest cfg bucket media_path hls_url thumbnails
      resolution bandwidth suffix w.
Proof.
  unfold Unchecked._create_manifest, ManifestUpdater._create_manifest, try_except.
  cbv zeta.
  erewrite (bind_ok (PyValue.contains _ _)) by reflexivity.
  erewrite (bind_ok (PyValue.iter _)) by reflexivity.
  erewrite (bind_ok (Unchecked.append_entries _ _ _ _ _))
    by apply append_entries_typed.
  reflexivity.
Qed.

Lemma truth_of_strs (l : list string) :
  PyValue.truth (PyValue.of_strs l) = ManifestUpdater.nonempty l.
Proof. by destruct l. Qed.

Lemma bind_ext {A B} (m1 m2 : M A) (k1 k2 : A → M B) w :
  m1 w = m2 w → (∀ a w', k1 a w' = k2 a w') → (m1 ≫= k1) w = (m2 ≫= k2) w.
Proof.
  intros Hm Hk. unfold mbind, M_bind. rewrite Hm.
  destruct (m2 w) as [[a|e] w']; [apply Hk|done].
Qed.

Lemma try_except_ext {A} (m1 m2 : M A) h w :
  m1 w = m2 w → try_except m1 h w = try_except m2 h w.
Proof. intros Hm. unfold try_except. by rewrite Hm. Qed.

(** On a media path, a playlist URL and two key lists of the annotated
    types, the unchecked composer is the composer. *)
Lemma unchecked_composer_typed bucket media_path hls_url small_thumbnails
    big_thumbnails w :
  Unchecked.create_manifests_and_update_playlist env cfg bucket (JStr media_path)
    (JStr hls_url) (PyValue.of_strs small_thumbnails)
    (PyValue.of_strs big_thumbnails) w
  = ManifestUpdater.create_manifests_and_update_playlist cfg bucket media_path
      hls_url small_thumbnails big_thumbnails w.
Proof.
  unfold Unchecked.create_manifests_and_update_playlist,
    ManifestUpdater.create_manifests_and_update_playlist.
  cbv zeta. apply try_except_ext.
  erewrite (bind_ok (PyValue.len _)) by reflexivity.
  erewrite (bind_ok (PyValue.len _)) by reflexivity.
  apply bind_ext; [done|]. intros _ w1.
  apply bind_ext.
  { rewrite truth_of_strs. destruct (ManifestUpdater.nonempty small_thumbnails);
      [|done].
    apply bind_ext; [apply unchecked_create_manifest_typed|done]. }
  intros results w2. apply bind_ext; [|done].
  rewrite truth_of_strs. destruct (ManifestUpdater.nonempty big_thumbnails);
    [|done].
  apply bind_ext; [apply unchecked_create_manifest_typed|done].
Qed.

Lemma strs_of_strs (l : list string) : Dict.strs_of (JStr <$> l) = Some l.
Proof.
  induction l as [|x l IH]; [done|].
  change (Dict.strs_of (JStr <$> x :: l))
    with ((x ::.) <$> Dict.strs_of (JStr <$> l)).
  by rewrite IH.
Qed.

Lemma unchecked_invalidate_paths_typed distribution_id paths w :
  Unchecked.invalidate_paths env distribution_id (PyValue.of_strs paths) w
  = CloudFrontHelper.invalidate_paths env distribution_id paths w.
Proof.
  unfold Unchecked.invalidate_paths, CloudFrontHelper.invalidate_paths.
  rewrite truth_of_strs. destruct paths as [|path paths]; [done|].
  rewrite bool_decide_eq_false_2 by done.
  change (negb (ManifestUpdater.nonempty (path :: paths))) with false.
  cbv iota.
  erewrite (bind_ok (PyValue.len _)) by reflexivity.
  apply bind_ext; [done|]. intros _ w1.
  erewrite (bind_ok (PyValue.len _)) by reflexivity.
  unfold PyValue.of_strs. by rewrite strs_of_strs.
Qed.

(** On a list of paths, the unchecked invalidator is the invalidator. *)
Lemma unchecked_invalidate_cache_typed paths distribution_id w :
  Unchecked.invalidate_cache env cfg (PyValue.of_strs paths) distribution_id w
  = CacheInvalidator.invalidate_cache env cfg paths distribution_id w.
Proof.
  unfold Unchecked.invalidate_cache, CacheInvalidator.invalidate_cache.
  cbv zeta. apply try_except_ext.
  destruct (py_or distribution_id (AWS_CLOUDFRONT_DISTRIBUTION_ID cfg))
    as [[|c d]|]; [done| |done].
  rewrite truth_of_strs. destruct paths as [|path paths]; [done|].
  rewrite bool_decide_eq_false_2 by done.
  change (negb (ManifestUpdater.nonempty (path :: paths))) with false.
  cbv iota.
  erewrite (bind_ok (PyValue.len _)) by reflexivity.
  apply bind_ext; [done|]. intros _ w1.
  apply bind_ext; [apply unchecked_invalidate_paths_typed|done].
Qed.

End Typed.

(** ** The calls of one resolution *)

Section ResolutionCalls.

Context (cfg : Config) (bucket media_path hls_url : string).

Lemma merge_trace manifest_filename resolution bandwidth w :
  ∃ cs,
    calls (ManifestUpdater._update_main_playlist bucket media_path hls_url
             manifest_filename resolution bandwidth w).2 = calls w ++ cs
    ∧ merge_calls bucket hls_url cs.
Proof.
  destruct (ManifestUpdater.playlist_key_parts hls_url !! 1)
    as [playlist_key|] eqn:Hkey.
  - destruct (objects w !! (bucket, playlist_key)) as [content|] eqn:Hobj.
    + destruct (Py.contains manifest_filename content) eqn:Hin.
      * erewrite merge_already_updated by done.
        exists [S3GetObject bucket playlist_key]. split; [done|].
        right. exists playlist_key. eauto.
      * erewrite merge_writes by done.
        eexists [S3GetObject bucket playlist_key; S3PutObject _ _ _ _ _].
        split; [simpl; by rewrite <-(assoc_L (++))|].
        right. exists playlist_key. split; [done|]. right. eauto.
    + destruct (merge_no_object bucket media_path hls_url manifest_filename
                  resolution bandwidth w playlist_key)
        as (e & w' & -> & _ & _ & Hcalls); [done..|].
      exists [S3GetObject bucket playlist_key]. split; [done|].
      right. exists playlist_key. eauto.
  - destruct (merge_no_key bucket media_path hls_url manifest_filename
                resolution bandwidth w) as (e & w' & -> & _ & _ & Hcalls); [done|].
    exists []. split; [by rewrite app_nil_r|]. by left.
Qed.

(** [_create_manifest] first uploads the manifest, then merges. *)
Lemma create_manifest_trace thumbnails resolution bandwidth suffix w :
  ∃ cs,
    calls (ManifestUpdater._create_manifest cfg bucket media_path hls_url
             thumbnails resolution bandwidth suffix w).2
    = calls w ++
      S3PutObject bucket (media_path +:+ "thumbs_" +:+ resolution +:+ ".m3u8")
        (ManifestUpdater.manifest_content_of cfg media_path thumbnails resolution)
        "application/vnd.apple.mpegurl" true :: cs
    ∧ merge_calls bucket hls_url cs.
Proof.
  unfold ManifestUpdater._create_manifest. cbv zeta.
  set (fn := ManifestUpdater.manifest_filename_of resolution).
  set (content := ManifestUpdater.manifest_content_of cfg media_path thumbnails
                    resolution).
  set (w1 := store_object bucket (media_path +:+ fn) content
               (add_call (S3PutObject bucket (media_path +:+ fn) content
                            ManifestUpdater.CONTENT_TYPE true)
                  (add_log (info_entry "Putting object to S3") w))).
  assert (S3Helper.put_object bucket (media_path +:+ fn) content
            ManifestUpdater.CONTENT_TYPE true w = (Ok (), w1)) as Hput by done.
  destruct (merge_trace fn resolution bandwidth w1) as (cs & Hcs & Hmerge).
  exists cs. split; [|done].
  assert (calls w1 ++ cs
          = calls w ++
            S3PutObject bucket (media_path +:+ "thumbs_" +:+ resolution +:+ ".m3u8")
              content "application/vnd.apple.mpegurl" true :: cs) as <-.
  { simpl. by rewrite <-(assoc_L (++)). }
  rewrite <-Hcs. unfold try_except.
  erewrite bind_ok by exact Hput. unfold mbind, M_bind.
  by destruct (ManifestUpdater._update_main_playlist bucket media_path hls_url fn
                 resolution bandwidth w1) as [[[]|e] w2].
Qed.

End ResolutionCalls.

(** ** The manifest of a resolution *)

(** C2. For every list of thumbnail keys the manifest of a resolution is
    the header, then one tile-entry block per key, in the order of the
    list, then the end marker. The block of a key is the duration directive
    of [T] seconds, the tile directive
    [RESOLUTION=WxH,LAYOUT=1x1,DURATION=T] and the reference, one of the two
    relative prefixes followed by the filename of the key: the part of the
    key behind its last slash. The document has as many tile directives and
    as many duration directives as there are keys, and it is the body of
    the upload with which [_create_manifest] begins. *)
Theorem manifest_one_block_per_key (cfg : Config)
    (bucket media_path hls_url : string) (thumbnails : list string)
    (resolution : string) (bandwidth : Z) (suffix : string) (w : World) :
  ∃ names,
    Forall2 is_filename_of names thumbnails
    ∧ let references :=
        (λ name, (if Py.contains "hls/" media_path then "../thumbs/" else "thumbs/")
                 +:+ name) <$> names in
      let document :=
        Py.join nl (ManifestUpdater.manifest_header cfg) +:+ nl
        +:+ concat_text (tile_entry_block cfg resolution <$> references)
        +:+ "#EXT-X-ENDLIST" in
      ManifestUpdater.manifest_lines_of cfg media_path thumbnails resolution
      = ManifestUpdater.manifest_header cfg
        ++ concat (tile_entry_lines cfg resolution <$> references)
        ++ ["#EXT-X-ENDLIST"]
      ∧ ManifestUpdater.manifest_content_of cfg media_path thumbnails resolution
        = document
      ∧ length (filter is_tile_directive
                  (ManifestUpdater.manifest_lines_of cfg media_path thumbnails
                     resolution))
        = length thumbnails
      ∧ length (filter is_duration_directive
                  (ManifestUpdater.manifest_lines_of cfg media_path thumbnails
                     resolution))
        = length thumbnails
      ∧ ∃ rest,
          calls (ManifestUpdater._create_manifest cfg bucket media_path hls_url
                   thumbnails resolution bandwidth suffix w).2
          = calls w ++
            S3PutObject bucket
              (media_path +:+ "thumbs_" +:+ resolution +:+ ".m3u8") document
              "application/vnd.apple.mpegurl" true :: rest.
Proof.
  exists (ManifestUpdater.thumbnail_name_of <$> thumbnails).
  split; [apply thumbnail_names_are_filenames|]. cbv zeta.
  assert ((λ name, (if Py.contains "hls/" media_path then "../thumbs/" else "thumbs/")
                   +:+ name) <$> (ManifestUpdater.thumbnail_name_of <$> thumbnails)
          = (λ key, ManifestUpdater.relative_path_of media_path
                    +:+ ManifestUpdater.thumbnail_name_of key) <$> thumbnails)
    as -> by (by rewrite <-list_fmap_compose).
  assert (ManifestUpdater.manifest_content_of cfg media_path thumbnails resolution
          = Py.join nl (ManifestUpdater.manifest_header cfg) +:+ nl
            +:+ concat_text
                  (tile_entry_block cfg resolution
                     <$> ((λ key, ManifestUpdater.relative_path_of media_path
                                  +:+ ManifestUpdater.thumbnail_name_of key)
                            <$> thumbnails))
            +:+ "#EXT-X-ENDLIST") as Hdocument.
  { unfold ManifestUpdater.manifest_content_of.
    rewrite manifest_lines_layout.
    rewrite join_app; [|done|by destruct thumbnails].
    by rewrite join_entries. }
  split; [apply manifest_lines_layout|]. split; [exact Hdocument|].
  split; [by rewrite tile_directives_of_lines, length_fmap|].
  split; [by rewrite duration_directives_of_lines, length_fmap|].
  destruct (create_manifest_trace cfg bucket media_path hls_url thumbnails
              resolution bandwidth suffix w) as (cs & Hcs & _).
  exists cs. rewrite Hcs, Hdocument. done.
Qed.

(** C4. The prefix of the thumbnail references is chosen by a substring
    test on the media path: the references are the filenames of the keys
    behind [../thumbs/] when the text [hls/] occurs anywhere in the media
    path, and behind [thumbs/] otherwise. Media path [content/v1/hls/]
    gives [../thumbs/] and [content/v1/] gives [thumbs/]; so does
    [archls/v1/] give [../thumbs/], although none of its segments is
    [hls]. *)
Theorem manifest_relative_prefix (cfg : Config) (thumbnails : list string)
    (resolution : string) :
  (∀ media_path,
     ∃ names,
       Forall2 is_filename_of names thumbnails
       ∧ filter is_reference
           (ManifestUpdater.manifest_lines_of cfg media_path thumbnails resolution)
         = (λ name,
              (if Py.contains "hls/" media_path then "../thumbs/" else "thumbs/")
              +:+ name) <$> names)
  ∧ filter is_reference
      (ManifestUpdater.manifest_lines_of cfg "content/v1/hls/"
         ["content/v1/hls/thumbs/v1_small.00001.jpg"] resolution)
    = ["../thumbs/v1_small.00001.jpg"]
  ∧ filter is_reference
      (ManifestUpdater.manifest_lines_of cfg "content/v1/"
         ["content/v1/thumbs/v1_small.00001.jpg"] resolution)
    = ["thumbs/v1_small.00001.jpg"]
  ∧ ("hls" ∉ segments "archls/v1/")
  ∧ filter is_reference
      (ManifestUpdater.manifest_lines_of cfg "archls/v1/"
         ["archls/v1/thumbs/v1_small.00001.jpg"] resolution)
    = ["../thumbs/v1_small.00001.jpg"].
Proof.
  split; [|split; [|split; [|split]]].
  - intros media_path.
    exists (ManifestUpdater.thumbnail_name_of <$> thumbnails).
    split; [apply thumbnail_names_are_filenames|].
    rewrite references_of_lines. by rewrite <-list_fmap_compose.
  - by rewrite references_of_lines.
  - by rewrite references_of_lines.
  - change (segments "archls/v1/") with ["archls"; "v1"; ""].
    rewrite !elem_of_cons, elem_of_nil. by intros [|[|[|]]].
  - by rewrite references_of_lines.
Qed.

(** ** Which stored objects a computation touches *)

Section Frame.

Context (K : string * string → Prop).

Lemma frame_still {A} (m : M A) :
  (∀ w, objects (m w).2 = objects w) → store_frame K m.
Proof. intros H w k. by rewrite H. Qed.

Lemma frame_ret {A} (a : A) : store_frame K (mret a).
Proof. by apply frame_still. Qed.

Lemma frame_raise {A} e : store_frame K (raise (A := A) e).
Proof. by apply frame_still. Qed.

Lemma frame_log lvl message exception :
  store_frame K (StructuredLogger.emit lvl message exception).
Proof. by apply frame_still. Qed.

Lemma frame_record_call c : store_frame K (record_call c).
Proof. by apply frame_still. Qed.

Lemma frame_get_world : store_frame K get_world.
Proof. by apply frame_still. Qed.

Lemma frame_store bucket key body :
  K (bucket, key) → store_frame K (modify_world (store_object bucket key body)).
Proof.
  intros HK w k. simpl. split.
  - intros Hk. apply lookup_insert_ne. by intros <-.
  - intros Hsome. rewrite lookup_insert. by case_decide.
Qed.

Lemma frame_bind {A B} (m : M A) (f : A → M B) :
  store_frame K m → (∀ a, store_frame K (f a)) → store_frame K (m ≫= f).
Proof.
  intros Hm Hf w k. specialize (Hm w k). unfold mbind, M_bind.
  destruct (m w) as [[a|e] w1]; simpl in *; [|done].
  specialize (Hf a w1 k). split.
  - intros Hk. etrans; [by apply Hf|by apply Hm].
  - intros Hsome. by apply Hf, Hm.
Qed.

Lemma frame_bind_ret {A B} (a : A) (f : A → M B) :
  store_frame K (f a) → store_frame K (mret a ≫= f).
Proof. intros Hf w k. apply (Hf w k). Qed.

Lemma frame_bind_raise {A B} e (f : A → M B) : store_frame K (raise e ≫= f).
Proof. by apply frame_still. Qed.

Lemma frame_try_except {A} (m : M A) h :
  store_frame K m → (∀ e, store_frame K (h e)) → store_frame K (try_except m h).
Proof.
  intros Hm Hh w k. specialize (Hm w k). unfold try_except.
  destruct (m w) as [[a|e] w1]; simpl in *; [done|].
  specialize (Hh e w1 k). split.
  - intros Hk. etrans; [by apply Hh|by apply Hm].
  - intros Hsome. by apply Hh, Hm.
Qed.

End Frame.

Ltac frame_step :=
  match goal with
  | |- ∀ _, _ => intros ?
  | |- store_frame _ (mbind _ _) => apply frame_bind
  | |- store_frame _ (try_except _ _) => apply frame_try_except
  | |- store_frame _ (mret _) => apply frame_ret
  | |- store_frame _ (raise _) => apply frame_raise
  | |- store_frame _ get_world => apply frame_get_world
  | |- store_frame _ (record_call _) => apply frame_record_call
  | |- store_frame _ (StructuredLogger.emit _ _ _) => apply frame_log
  | |- store_frame _ (StructuredLogger.info _) => apply frame_log
  | |- store_frame _ (StructuredLogger.error _ _) => apply frame_log
  | |- store_frame _ (StructuredLogger.warning _) => apply frame_log
  | |- store_frame _ (StructuredLogger.debug _) => apply frame_log
  | |- store_frame _ (if ?b then _ else _) => destruct b
  | |- store_frame _ (match ?x with _ => _ end) => destruct x
  end.

Ltac frame := repeat frame_step.

Section ComposerFrame.

Context (K : string * string → Prop).
Context (cfg : Config) (bucket media_path hls_url : string).
Context (Hplaylist : ∀ playlist_key,
           ManifestUpdater.playlist_key_parts hls_url !! 1 = Some playlist_key →
           K (bucket, playlist_key)).

Lemma frame_put_object key body content_type public :
  K (bucket, key) →
  store_frame K (S3Helper.put_object bucket key body content_type public).
Proof. intros HK. unfold S3Helper.put_object. frame. by apply frame_store. Qed.

Lemma frame_get_object key : store_frame K (S3Helper.get_object bucket key).
Proof. unfold S3Helper.get_object. frame. Qed.

Lemma frame_update_main_playlist manifest_filename resolution bandwidth :
  store_frame K
    (ManifestUpdater._update_main_playlist bucket media_path hls_url
       manifest_filename resolution bandwidth).
Proof.
  unfold ManifestUpdater._update_main_playlist, ManifestUpdater.playlist_key_of,
    list_index.
  destruct (ManifestUpdater.playlist_key_parts hls_url !! 1) as [pk|] eqn:Hkey.
  - apply frame_try_except; [|frame].
    apply frame_bind_ret. frame; [apply frame_get_object|].
    apply frame_put_object. by apply Hplaylist.
  - apply frame_try_except; [apply frame_bind_raise|frame].
Qed.

Lemma frame_create_manifest thumbnails resolution bandwidth suffix :
  K (bucket, media_path +:+ ManifestUpdater.manifest_filename_of resolution) →
  store_frame K
    (ManifestUpdater._create_manifest cfg bucket media_path hls_url thumbnails
       resolution bandwidth suffix).
Proof.
  intros HK. unfold ManifestUpdater._create_manifest. cbv zeta.
  frame; [by apply frame_put_object|apply frame_update_main_playlist].
Qed.

End ComposerFrame.

(** ** Resolutions without thumbnails *)

Section SkippedResolution.

Context (cfg : Config) (bucket media_path hls_url : string).

Lemma merge_calls_only_for other_key call cs :
  (∃ body content_type public,
     call = S3PutObject bucket other_key body content_type public) →
  merge_calls bucket hls_url cs →
  only_for bucket other_key hls_url (call :: cs).
Proof.
  intros (body & content_type & public & ->) [->|(pk & Hkey & [->|[body' ->]])];
    (split; [repeat (apply Forall_cons_2 || apply Forall_nil_2); eauto|]);
    simpl; rewrite ?filter_cons, ?filter_nil; simpl; lia.
Qed.

(** The key set of a run that works for one resolution only. *)
Lemma frame_one_resolution thumbnails resolution bandwidth suffix :
  store_frame
    (λ k, k = (bucket, media_path +:+ ManifestUpdater.manifest_filename_of resolution)
          ∨ ∃ playlist_key,
              ManifestUpdater.playlist_key_parts hls_url !! 1 = Some playlist_key
              ∧ k = (bucket, playlist_key))
    (ManifestUpdater._create_manifest cfg bucket media_path hls_url thumbnails
       resolution bandwidth suffix).
Proof. apply frame_create_manifest; eauto. Qed.

#[local] Abbreviation compose :=
  (ManifestUpdater.create_manifests_and_update_playlist cfg bucket media_path
     hls_url).

#[local] Abbreviation finish :=
  (λ (label : string) (r : Result string * World),
     match r with
     | (Ok status, w') =>
         (Ok ({[ label := status ]} : gmap string string),
          add_log (info_entry "Manifests created successfully") w')
     | (Raise e, w') =>
         (Raise (mkExn ManifestGenerationError
                   ("Failed to create manifests for " +:+ media_path +:+ ": "
                    +:+ exn_str e)),
          add_log (mkLog ERROR "Manifest creation failed" (Some e)) w')
     end).

Lemma compose_big_only key keys w :
  compose [] (key :: keys) w
  = finish "big"
      (ManifestUpdater._create_manifest cfg bucket media_path hls_url (key :: keys)
         (THUMBNAIL_BIG_RESOLUTION cfg) (THUMBNAIL_BIG_BANDWIDTH cfg) "big"
         (add_log (info_entry "Creating manifests") w)).
Proof.
  unfold ManifestUpdater.create_manifests_and_update_playlist, try_except,
    mbind, M_bind. simpl.
  by destruct (ManifestUpdater._create_manifest cfg bucket media_path hls_url
                 (key :: keys) (THUMBNAIL_BIG_RESOLUTION cfg)
                 (THUMBNAIL_BIG_BANDWIDTH cfg) "big" _) as [[status|e] w'].
Qed.

Lemma compose_small_only key keys w :
  compose (key :: keys) [] w
  = finish "small"
      (ManifestUpdater._create_manifest cfg bucket media_path hls_url (key :: keys)
         (THUMBNAIL_SMALL_RESOLUTION cfg) (THUMBNAIL_SMALL_BANDWIDTH cfg) "small"
         (add_log (info_entry "Creating manifests") w)).
Proof.
  unfold ManifestUpdater.create_manifests_and_update_playlist, try_except,
    mbind, M_bind. simpl.
  by destruct (ManifestUpdater._create_manifest cfg bucket media_path hls_url
                 (key :: keys) (THUMBNAIL_SMALL_RESOLUTION cfg)
                 (THUMBNAIL_SMALL_BANDWIDTH cfg) "small" _) as [[status|e] w'].
Qed.

(** One resolution processed, the other skipped. *)
Lemma one_resolution_run label other_label own_key thumbnails resolution
    bandwidth w :
  label ≠ other_label →
  let other_key := media_path +:+ "thumbs_" +:+ resolution +:+ ".m3u8" in
  let run :=
    finish other_label
      (ManifestUpdater._create_manifest cfg bucket media_path hls_url thumbnails
         resolution bandwidth other_label
         (add_log (info_entry "Creating manifests") w)) in
  (∃ cs, calls run.2 = calls w ++ cs ∧ only_for bucket other_key hls_url cs)
  ∧ (∀ results, run.1 = Ok results → results !! label = None)
  ∧ (own_key ≠ other_key →
     ManifestUpdater.playlist_key_parts hls_url !! 1 ≠ Some own_key →
     objects run.2 !! (bucket, own_key) = objects w !! (bucket, own_key)).
Proof.
  intros Hlabel. cbv zeta.
  destruct (create_manifest_trace cfg bucket media_path hls_url thumbnails
              resolution bandwidth other_label
              (add_log (info_entry "Creating manifests") w))
    as (cs & Hcs & Hmerge).
  pose proof (frame_one_resolution thumbnails resolution bandwidth other_label
                (add_log (info_entry "Creating manifests") w)) as Hframe.
  destruct (ManifestUpdater._create_manifest cfg bucket media_path hls_url
              thumbnails resolution bandwidth other_label _) as [[status|e] w'];
    simpl in *.
  all: split; [eexists; split; [exact Hcs|];
               apply merge_calls_only_for; [eauto|done]|].
  all: split; [try done; intros results [= <-]; by apply lookup_singleton_ne|].
  all: intros Hapart Hplaylist; apply (Hframe (bucket, own_key)).
  all: intros [[= Heq]|(pk & Hpk & [= Heq])]; [by apply Hapart|].
  all: apply Hplaylist; by rewrite Hpk, Heq.
Qed.

End SkippedResolution.

(** C5 (as amended). A resolution whose thumbnail list is empty is
    skipped. With both lists empty the composer makes no external call,
    leaves the stored objects as they are and returns the empty status
    map. With the small list empty, every request of the run goes to the
    big manifest's key or to the master playlist, the master playlist is
    fetched at most once (the merge of the big resolution), a returned
    status map has no entry [small], and the object under the small
    manifest's key is left as it was, provided that key is neither the big
    manifest's key nor the master playlist's key; and likewise with the big
    list empty. *)
Theorem composer_skips_empty_resolution (cfg : Config)
    (bucket media_path hls_url : string) (thumbnails : list string) (w : World) :
  let small_key :=
    media_path +:+ "thumbs_" +:+ THUMBNAIL_SMALL_RESOLUTION cfg +:+ ".m3u8" in
  let big_key :=
    media_path +:+ "thumbs_" +:+ THUMBNAIL_BIG_RESOLUTION cfg +:+ ".m3u8" in
  let compose :=
    ManifestUpdater.create_manifests_and_update_playlist cfg bucket media_path
      hls_url in
  ((compose [] [] w).1 = Ok ∅
   ∧ calls (compose [] [] w).2 = calls w
   ∧ objects (compose [] [] w).2 = objects w)
  ∧ ((∃ cs, calls (compose [] thumbnails w).2 = calls w ++ cs
            ∧ only_for bucket big_key hls_url cs)
     ∧ (∀ results, (compose [] thumbnails w).1 = Ok results →
                   results !! "small" = None)
     ∧ (small_key ≠ big_key →
        ManifestUpdater.playlist_key_parts hls_url !! 1 ≠ Some small_key →
        objects (compose [] thumbnails w).2 !! (bucket, small_key)
        = objects w !! (bucket, small_key)))
  ∧ ((∃ cs, calls (compose thumbnails [] w).2 = calls w ++ cs
            ∧ only_for bucket small_key hls_url cs)
     ∧ (∀ results, (compose thumbnails [] w).1 = Ok results →
                   results !! "big" = None)
     ∧ (big_key ≠ small_key →
        ManifestUpdater.playlist_key_parts hls_url !! 1 ≠ Some big_key →
        objects (compose thumbnails [] w).2 !! (bucket, big_key)
        = objects w !! (bucket, big_key))).
Proof.
  cbv zeta. split; [done|]. split.
  - destruct thumbnails as [|key keys].
    { split; [|split; [by intros results [= <-]|done]].
      exists []. split; [by rewrite app_nil_r|]. split; [constructor|simpl; lia]. }
    rewrite compose_big_only.
    by apply (one_resolution_run cfg bucket media_path hls_url "small" "big").
  - destruct thumbnails as [|key keys].
    { split; [|split; [by intros results [= <-]|done]].
      exists []. split; [by rewrite app_nil_r|]. split; [constructor|simpl; lia]. }
    rewrite compose_small_only.
    by apply (one_resolution_run cfg bucket media_path hls_url "big" "small").
Qed.

Lemma composer_skips_empty_resolution_witness :
  objects (ManifestUpdater.create_manifests_and_update_playlist example_config
             "media-bucket" "a/" "s3://media-bucket/a/play.m3u8" [] example_big
             (world_with "a/play.m3u8" stream_playlist)).2
    !! ("media-bucket", "a/thumbs_320x180.m3u8")
  = None.
Proof.
  destruct (composer_skips_empty_resolution example_config "media-bucket" "a/"
              "s3://media-bucket/a/play.m3u8" example_big
              (world_with "a/play.m3u8" stream_playlist))
    as (_ & (_ & _ & Hkept) & _).
  refine (eq_trans (Hkept _ _) _).
  - vm_compute. discriminate.
  - vm_compute. discriminate.
  - reflexivity.
Defined.

(** C5, as stated, fails where keys coincide. With the master playlist
    stored under the key of the small manifest, a run that skips the small
    resolution rewrites the object under that key (the merge of the big
    resolution); and when both resolutions are configured alike, a run
    that skips the small resolution writes the manifest under the key that
    is also the small resolution's. *)
Lemma skipped_resolution_key_written :
  objects (ManifestUpdater.create_manifests_and_update_playlist example_config
             "media-bucket" "a/" "s3://media-bucket/a/thumbs_320x180.m3u8" []
             example_big (world_with "a/thumbs_320x180.m3u8" ending_playlist)).2
    !! ("media-bucket", "a/thumbs_320x180.m3u8")
  ≠ objects (world_with "a/thumbs_320x180.m3u8" ending_playlist)
      !! ("media-bucket", "a/thumbs_320x180.m3u8")
  ∧ objects (ManifestUpdater.create_manifests_and_update_playlist same_size_config
               "media-bucket" "a/" "s3://media-bucket/a/play.m3u8" [] example_big
               (world_with "a/play.m3u8" stream_playlist)).2
      !! ("media-bucket", "a/thumbs_320x180.m3u8")
    ≠ objects (world_with "a/play.m3u8" stream_playlist)
        !! ("media-bucket", "a/thumbs_320x180.m3u8").
Proof. split; vm_compute; discriminate. Qed.


(** ** The invalidation message of the composer's handler *)

(** C6. The handler publishes four paths rooted at the media path, and
    takes the names of the two manifests from literals: with the small
    resolution configured as 480x270, the composer stores the small
    manifest under [a/thumbs_480x270.m3u8] and names it in the master
    playlist, while the message it publishes lists [/a/play.m3u8],
    [/a/thumbs_320x180.m3u8], [/a/thumbs_640x360.m3u8] and [/a/thumbs/*]:
    the manifest that was written is not among the paths. *)
Theorem invalidation_paths_exactly_four :
  calls (ManifestUpdaterHandler.lambda_handler example_env resized_config
           (example_event ["composer"]) (mkContext "req-1")
           (world_with "a/play.m3u8" stream_playlist)).2
  = [S3PutObject "media-bucket" "a/thumbs_480x270.m3u8"
       (ManifestUpdater.manifest_content_of resized_config "a/"
          ["a/thumbs/clip_small.00001.jpg"] "480x270")
       "application/vnd.apple.mpegurl" true;
     S3GetObject "media-bucket" "a/play.m3u8";
     S3PutObject "media-bucket" "a/play.m3u8"
       (ManifestUpdater.updated_content stream_playlist "thumbs_480x270.m3u8"
          "480x270" 16460)
       "application/vnd.apple.mpegurl" true;
     SQSSendMessage "https://sqs.example/invalidate"
       (JObj [("media_key", JStr "clip"); ("media_path", JStr "a/");
              ("paths_to_invalidate",
               JArr [JStr "/a/play.m3u8"; JStr "/a/thumbs_320x180.m3u8";
                     JStr "/a/thumbs_640x360.m3u8"; JStr "/a/thumbs/*"]);
              ("request_id", JStr "req-1")]);
     SQSDeleteMessage "https://sqs.example/manifest" "rh-1"]
  ∧ is_Some (objects (ManifestUpdaterHandler.lambda_handler example_env
                        resized_config (example_event ["composer"])
                        (mkContext "req-1")
                        (world_with "a/play.m3u8" stream_playlist)).2
               !! ("media-bucket", "a/thumbs_480x270.m3u8"))
  ∧ objects (ManifestUpdaterHandler.lambda_handler example_env resized_config
               (example_event ["composer"]) (mkContext "req-1")
               (world_with "a/play.m3u8" stream_playlist)).2
      !! ("media-bucket", "a/thumbs_320x180.m3u8")
    = None.
Proof.
  split; [vm_compute; reflexivity|]. split; [|vm_compute; reflexivity].
  vm_compute. eauto.
Qed.

(** ** Batches of records *)

Section Batches.

Lemma for_each_guarded {A} (step : A → M unit) (xs : list A) w :
  (∀ x w, (step x w).1 = Ok ()) →
  for_each step xs w = (Ok (), run_records step xs w).
Proof.
  intros Hstep. revert w. induction xs as [|x xs IH]; intros w; [done|].
  simpl. unfold mbind, M_bind. specialize (Hstep x w).
  destruct (step x w) as [[[]|e] w1]; simpl in *; [|done]. apply IH.
Qed.

Lemma run_records_app {A} (step : A → M unit) (pre post : list A) w :
  run_records step (pre ++ post) w = run_records step post (run_records step pre w).
Proof. unfold run_records. apply foldl_app. Qed.

Lemma validate_configured cfg w :
  configured cfg → validate cfg w = (Ok true, w).
Proof.
  intros [Hb Hd]. unfold validate.
  destruct (AWS_S3_BUCKET cfg) as [[|? ?]|]; try discriminate Hb.
  destruct (AWS_CLOUDFRONT_DISTRIBUTION_ID cfg) as [[|? ?]|]; try discriminate Hd.
  reflexivity.
Qed.

Context (env : Env) (cfg : Config) (context : Context).

Lemma composer_record_guarded record w :
  ManifestUpdaterHandler.handle_record env cfg context record w
  = match ManifestUpdaterHandler.process_record env cfg context record w with
    | (Ok _, w') => (Ok (), w')
    | (Raise e, w') => (Ok (), add_log (record_failure_entry e) w')
    end.
Proof.
  unfold ManifestUpdaterHandler.handle_record, try_except,
    ManifestUpdaterHandler.record_failed, record_failure_entry.
  destruct (ManifestUpdaterHandler.process_record env cfg context record w)
    as [[[]|e] w']; [done|]. by case_bool_decide.
Qed.

Lemma invalidator_record_guarded record w :
  CacheInvalidatorHandler.handle_record env cfg context record w
  = match CacheInvalidatorHandler.process_record env cfg context record w with
    | (Ok _, w') => (Ok (), w')
    | (Raise e, w') => (Ok (), add_log (record_failure_entry e) w')
    end.
Proof.
  unfold CacheInvalidatorHandler.handle_record, try_except,
    CacheInvalidatorHandler.record_failed, record_failure_entry.
  destruct (CacheInvalidatorHandler.process_record env cfg context record w)
    as [[[]|e] w']; [done|]. by case_bool_decide.
Qed.

Lemma composer_handler_run event w :
  configured cfg →
  ManifestUpdaterHandler.lambda_handler env cfg event context w
  = (Ok (mkResponse 200 (JObj [("message", JStr "Manifests updated successfully")])),
     run_records (ManifestUpdaterHandler.handle_record env cfg context)
       (default [] (Records event))
       (add_log (info_entry "Manifest updater lambda invoked") w)).
Proof.
  intros Hcfg. unfold ManifestUpdaterHandler.lambda_handler.
  eapply try_except_ok.
  erewrite bind_ok by reflexivity.
  erewrite bind_ok by (by apply validate_configured).
  erewrite bind_ok; [reflexivity|].
  apply for_each_guarded. intros record w1.
  rewrite composer_record_guarded. by repeat case_match.
Qed.

Lemma invalidator_handler_run event w :
  configured cfg →
  CacheInvalidatorHandler.lambda_handler env cfg event context w
  = (Ok (mkResponse 200 (JObj [("message", JStr "Cache invalidation completed")])),
     run_records (CacheInvalidatorHandler.handle_record env cfg context)
       (default [] (Records event))
       (add_log (info_entry "Cache invalidator lambda invoked") w)).
Proof.
  intros Hcfg. unfold CacheInvalidatorHandler.lambda_handler.
  eapply try_except_ok.
  erewrite bind_ok by reflexivity.
  erewrite bind_ok by (by apply validate_configured).
  erewrite bind_ok; [reflexivity|].
  apply for_each_guarded. intros record w1.
  rewrite invalidator_record_guarded. by repeat case_match.
Qed.

End Batches.

(** C9. Per-record error isolation, for the composer's and the invalidator's
    handler. With a valid configuration the handler returns status 200 for
    every batch, and the world it leaves is the one obtained by handling the
    records one after the other, each from the world its predecessor left:
    for every split of the batch around a record, the records after it are
    handled from the world that record left, whether it failed or not. A
    record whose processing raises leaves the effects made up to the
    failure plus one error entry in the log carrying the exception (a
    malformed body being reported as an invalid message format). *)
Theorem batch_records_are_isolated (env : Env) (cfg : Config) (event : Event)
    (context : Context) (w : World) :
  configured cfg →
  (ManifestUpdaterHandler.lambda_handler env cfg event context w).1
    = Ok (mkResponse 200 (JObj [("message", JStr "Manifests updated successfully")]))
  ∧ (CacheInvalidatorHandler.lambda_handler env cfg event context w).1
    = Ok (mkResponse 200 (JObj [("message", JStr "Cache invalidation completed")]))
  ∧ (∀ pre record post,
       default [] (Records event) = pre ++ record :: post →
       (ManifestUpdaterHandler.lambda_handler env cfg event context w).2
       = run_records (ManifestUpdaterHandler.handle_record env cfg context) post
           (ManifestUpdaterHandler.handle_record env cfg context record
              (run_records (ManifestUpdaterHandler.handle_record env cfg context)
                 pre (add_log (info_entry "Manifest updater lambda invoked") w))).2
       ∧ (CacheInvalidatorHandler.lambda_handler env cfg event context w).2
         = run_records (CacheInvalidatorHandler.handle_record env cfg context) post
             (CacheInvalidatorHandler.handle_record env cfg context record
                (run_records (CacheInvalidatorHandler.handle_record env cfg context)
                   pre (add_log (info_entry "Cache invalidator lambda invoked") w))).2)
  ∧ (∀ record w1,
       ManifestUpdaterHandler.handle_record env cfg context record w1
       = match ManifestUpdaterHandler.process_record env cfg context record w1 with
         | (Ok _, w2) => (Ok (), w2)
         | (Raise e, w2) => (Ok (), add_log (record_failure_entry e) w2)
         end
       ∧ CacheInvalidatorHandler.handle_record env cfg context record w1
         = match CacheInvalidatorHandler.process_record env cfg context record w1 with
           | (Ok _, w2) => (Ok (), w2)
           | (Raise e, w2) => (Ok (), add_log (record_failure_entry e) w2)
           end)
  ∧ (∀ raw w1,
       json_loads env raw = None →
       ManifestUpdaterHandler.handle_record env cfg context (sqs_record raw) w1
       = (Ok (), add_log (mkLog ERROR "Invalid SQS message format"
                            (Some (mkExn JSONDecodeError "Expecting value"))) w1)
       ∧ CacheInvalidatorHandler.handle_record env cfg context (sqs_record raw) w1
         = (Ok (), add_log (mkLog ERROR "Invalid SQS message format"
                              (Some (mkExn JSONDecodeError "Expecting value"))) w1)).
Proof.
  intros Hcfg.
  rewrite composer_handler_run, invalidator_handler_run by done. simpl.
  split; [done|]. split; [done|]. split; [|split].
  - intros pre record post ->.
    by rewrite !run_records_app.
  - intros record w1.
    by rewrite composer_record_guarded, invalidator_record_guarded.
  - intros raw w1 Hraw.
    unfold ManifestUpdaterHandler.handle_record,
      CacheInvalidatorHandler.handle_record, try_except,
      ManifestUpdaterHandler.process_record,
      CacheInvalidatorHandler.process_record, mbind, M_bind.
    simpl. by rewrite Hraw.
Qed.

Lemma batch_records_are_isolated_witness :
  (ManifestUpdaterHandler.lambda_handler example_env example_config
     (example_event ["not json"; "composer"]) (mkContext "req-1")
     (world_with "a/play.m3u8" stream_playlist)).1
  = Ok (mkResponse 200 (JObj [("message", JStr "Manifests updated successfully")]))
  ∧ (CacheInvalidatorHandler.lambda_handler example_env example_config
       (example_event ["not json"; "composer"]) (mkContext "req-1")
       (world_with "a/play.m3u8" stream_playlist)).1
    = Ok (mkResponse 200 (JObj [("message", JStr "Cache invalidation completed")])).
Proof.
  destruct (batch_records_are_isolated example_env example_config
              (example_event ["not json"; "composer"]) (mkContext "req-1")
              (world_with "a/play.m3u8" stream_playlist))
    as (Hcomposer & Hinvalidator & _).
  - split; reflexivity.
  - split; assumption.
Defined.

(** ** The thumbnail extractor *)

Section SamplerCount.

Lemma popen_count_app c1 c2 :
  popen_count (c1 ++ c2) = popen_count c1 + popen_count c2.
Proof. unfold popen_count. by rewrite filter_app, length_app. Qed.

Lemma count_bind {A B} a b (m : M A) (k : A → M B) :
  emits (at_most_popen a) m → (∀ x, emits (at_most_popen b) (k x)) →
  emits (at_most_popen (a + b)) (m ≫= k).
Proof.
  intros Hm Hk. eapply emits_bind; [exact Hm|exact Hk|..];
    unfold at_most_popen; intros; rewrite ?popen_count_app; lia.
Qed.

Lemma count_try_except {A} a b (m : M A) h :
  emits (at_most_popen a) m → (∀ e, emits (at_most_popen b) (h e)) →
  emits (at_most_popen (a + b)) (try_except m h).
Proof.
  intros Hm Hh. eapply emits_try_except; [exact Hm|exact Hh|..];
    unfold at_most_popen; intros; rewrite ?popen_count_app; lia.
Qed.

Lemma count_of_all {A} (m : M A) :
  emits (Forall (λ c, is_popen c = false)) m → emits (at_most_popen 0) m.
Proof.
  intros Hm w. destruct (Hm w) as (cs & Hcs & Hall). exists cs.
  split; [done|]. unfold at_most_popen, popen_count. clear Hcs.
  induction Hall as [|c cs Hc Hall IH]; [done|].
  rewrite filter_cons. rewrite Hc. simpl. exact IH.
Qed.

End SamplerCount.

Section Extractor.

Context (env : Env) (cfg : Config).

#[local] Abbreviation quiet := (Forall (λ c, is_popen c = false)).

Lemma all_download_file bucket key file_path :
  emits quiet (S3Helper.download_file bucket key file_path).
Proof.
  unfold S3Helper.download_file. trace. by apply all_record_call.
Qed.

Lemma all_upload_file bucket key file_path file_body content_type public :
  emits quiet
    (S3Helper.upload_file bucket key file_path file_body content_type public).
Proof.
  unfold S3Helper.upload_file. trace. by apply all_record_call.
Qed.

Lemma all_upload_all media_key output_dir bucket thumbnails_folder files
    thumbnail_keys filenames :
  emits quiet
    (TrickPlayGenerator.upload_all cfg media_key output_dir bucket
       thumbnails_folder files thumbnail_keys filenames).
Proof.
  revert thumbnail_keys.
  induction filenames as [|filename rest IH]; intros thumbnail_keys; simpl.
  - apply all_ret.
  - apply all_bind; [|intros keys; apply IH].
    unfold TrickPlayGenerator.upload_entry. cbv zeta.
    trace. apply all_upload_file.
Qed.

Lemma all_error_msg_of stderr :
  emits quiet (TrickPlayGenerator.error_msg_of env stderr).
Proof. unfold TrickPlayGenerator.error_msg_of. trace. Qed.

Lemma count_popen cmd : emits (at_most_popen 1) (TrickPlayGenerator.popen env cmd).
Proof.
  unfold TrickPlayGenerator.popen. apply (count_bind 1 0).
  - apply emits_record_call. unfold at_most_popen, popen_count. simpl. lia.
  - intros _. apply count_of_all. trace.
Qed.

(** One sampler process per resolution. *)
Lemma count_generate_resolution hls_url media_key output_dir bucket media_path
    width height suffix :
  emits (at_most_popen 1)
    (TrickPlayGenerator._generate_resolution_thumbnails env cfg hls_url media_key
       output_dir bucket media_path width height suffix).
Proof.
  unfold TrickPlayGenerator._generate_resolution_thumbnails. cbv zeta.
  apply (count_try_except 1 0).
  - apply (count_bind 0 1); [apply count_of_all; trace|]. intros _.
    apply (count_bind 1 0); [apply count_popen|]. intros process.
    apply count_of_all. trace;
      first [apply all_error_msg_of|apply all_upload_all].
  - intros e. apply count_of_all. trace.
Qed.

(** Entering and leaving the temporary workspace. *)
Lemma workspace_run {A} (body : string → M A) w :
  workspace_ok env →
  TrickPlayGenerator.with_temporary_directory env body w = body (tmpdir env) w.
Proof.
  intros [Hcreate Hclean]. unfold TrickPlayGenerator.with_temporary_directory.
  by rewrite Hcreate, Hclean.
Qed.

Lemma workspace_not_created {A} (body : string → M A) e w :
  tmpdir_error env = Some e →
  TrickPlayGenerator.with_temporary_directory env body w = (Raise e, w).
Proof.
  intros Hcreate. unfold TrickPlayGenerator.with_temporary_directory.
  by rewrite Hcreate.
Qed.

Lemma workspace_not_removed {A} (body : string → M A) e w :
  tmpdir_error env = None → cleanup_error env = Some e →
  TrickPlayGenerator.with_temporary_directory env body w
  = (Raise e, (body (tmpdir env) w).2).
Proof.
  intros Hcreate Hclean. unfold TrickPlayGenerator.with_temporary_directory.
  by rewrite Hcreate, Hclean.
Qed.

Lemma emits_workspace {A} (T : list Call → Prop) (body : string → M A) :
  (∀ dir, emits T (body dir)) → T [] →
  emits T (TrickPlayGenerator.with_temporary_directory env body).
Proof.
  intros Hbody Hnil w. unfold TrickPlayGenerator.with_temporary_directory.
  destruct (tmpdir_error env) as [e|].
  - exists []. by rewrite app_nil_r.
  - destruct (cleanup_error env) as [e|]; apply Hbody.
Qed.

Lemma count_generate_thumbnails hls_url media_key bucket media_path :
  emits (at_most_popen 2)
    (TrickPlayGenerator.generate_thumbnails env cfg hls_url media_key bucket
       media_path).
Proof.
  unfold TrickPlayGenerator.generate_thumbnails.
  apply emits_workspace; [|unfold at_most_popen, popen_count; simpl; lia].
  intros dir. cbv zeta.
  apply (count_try_except 2 0).
  - apply (count_bind 0 2); [apply count_of_all; trace|]. intros _.
    apply (count_bind 0 2).
    { apply count_of_all. unfold ManifestUpdater.playlist_key_of.
      apply all_list_index. }
    intros key.
    apply (count_bind 0 2); [apply count_of_all, all_download_file|]. intros _.
    apply (count_bind 1 1); [apply count_generate_resolution|]. intros small.
    apply (count_bind 1 0); [apply count_generate_resolution|]. intros big.
    apply count_of_all. trace.
  - intros e. apply count_of_all. trace.
Qed.

(** Whatever fails inside the [try] block, the caller sees [FFMpegError];
    the only other exceptions are those of creating and of removing the
    temporary workspace. *)
Lemma generate_thumbnails_error_kind hls_url media_key bucket media_path w :
  match (TrickPlayGenerator.generate_thumbnails env cfg hls_url media_key bucket
           media_path w).1 with
  | Ok _ => True
  | Raise e =>
      exn_kind e = FFMpegError
      ∨ tmpdir_error env = Some e ∨ cleanup_error env = Some e
  end.
Proof.
  unfold TrickPlayGenerator.generate_thumbnails,
    TrickPlayGenerator.with_temporary_directory.
  destruct (tmpdir_error env) as [e|]; [simpl; eauto|].
  destruct (cleanup_error env) as [e|]; [simpl; eauto|].
  unfold try_except. cbv zeta.
  match goal with |- context [match ?m w with _ => _ end] => destruct (m w) as [[r|e] w'] end;
    simpl; eauto.
Qed.

(** A sampler that exits with a non-zero status. *)
Lemma generate_resolution_nonzero hls_url media_key output_dir bucket media_path
    width height suffix process text w :
  run_process env
    (TrickPlayGenerator.ffmpeg_cmd cfg hls_url media_key output_dir width height
       suffix) = Ok process →
  returncode process ≠ 0%Z →
  (if bool_decide (stderr process = "")
   then text = "Unknown FFmpeg error"
   else decode_utf8 env (stderr process) = Some text) →
  let e := mkExn FFMpegError ("FFmpeg failed for " +:+ media_key +:+ ": " +:+ text) in
  TrickPlayGenerator._generate_resolution_thumbnails env cfg hls_url media_key
    output_dir bucket media_path width height suffix w
  = (Raise e,
     add_log (mkLog ERROR "Resolution thumbnail generation failed" (Some e))
       (add_call (Popen (TrickPlayGenerator.ffmpeg_cmd cfg hls_url media_key
                           output_dir width height suffix))
          (add_log (info_entry "Running FFmpeg") w))).
Proof.
  intros Hrun Hcode Htext e.
  unfold TrickPlayGenerator._generate_resolution_thumbnails,
    TrickPlayGenerator.popen, TrickPlayGenerator.error_msg_of, try_except,
    mbind, M_bind. cbv zeta. simpl.
  rewrite Hrun. simpl. rewrite bool_decide_eq_true_2 by done.
  destruct (bool_decide (stderr process = "")); [by subst text|].
  by rewrite Htext.
Qed.

End Extractor.

(** A batch of a malformed record and a well-formed one, run through the
    composer's handler: the second record is composed and its invalidation
    message is published. *)
Example composer_handler_scenario :
  calls (ManifestUpdaterHandler.lambda_handler example_env example_config
           (example_event ["not json"; "composer"]) (mkContext "req-1")
           (world_with "a/play.m3u8" merged_stream_playlist)).2
  = [S3PutObject "media-bucket" "a/thumbs_320x180.m3u8"
       (ManifestUpdater.manifest_content_of example_config "a/"
          ["a/thumbs/clip_small.00001.jpg"] "320x180")
       "application/vnd.apple.mpegurl" true;
     S3GetObject "media-bucket" "a/play.m3u8";
     SQSSendMessage "https://sqs.example/invalidate"
       (JObj [("media_key", JStr "clip"); ("media_path", JStr "a/");
              ("paths_to_invalidate",
               JArr [JStr "/a/play.m3u8"; JStr "/a/thumbs_320x180.m3u8";
                     JStr "/a/thumbs_640x360.m3u8"; JStr "/a/thumbs/*"]);
              ("request_id", JStr "req-1")]);
     SQSDeleteMessage "https://sqs.example/manifest" "rh-1"].
Proof. vm_compute. reflexivity. Qed.

(* ================================================================== *)
(** * Further properties of the code *)

(** ** What a merge leaves behind *)

Lemma contains_app sub pre mid post :
  Py.contains sub mid = true → Py.contains sub (pre +:+ mid +:+ post) = true.
Proof.
  intros (a & b & ->)%contains_spec. apply contains_spec.
  exists (pre +:+ a), (b +:+ post). by rewrite !str_app_assoc.
Qed.

Lemma image_stream_line_names_manifest manifest_filename resolution bandwidth :
  Py.contains manifest_filename
    (ManifestUpdater.image_stream_line manifest_filename resolution bandwidth)
  = true.
Proof.
  unfold ManifestUpdater.image_stream_line. apply contains_spec.
  exists ("#EXT-X-IMAGE-STREAM-INF:BANDWIDTH=" +:+ Py.str_of_int bandwidth
          +:+ ",RESOLUTION=" +:+ resolution +:+ ","
          +:+ "CODECS=" +:+ dquote +:+ "jpeg" +:+ dquote +:+ ",URI=" +:+ dquote),
    (dquote +:+ nl).
  by rewrite !str_app_assoc.
Qed.

(** X1. On a master playlist that holds a stream directive or an end
    marker, a merge that returns leaves a playlist that contains the
    manifest filename: the next merge for the same manifest will find it
    and skip. *)
Theorem merge_establishes_filename
    (bucket media_path hls_url manifest_filename resolution : string)
    (bandwidth : Z) (w : World) (playlist_key playlist_content : string) :
  ManifestUpdater.playlist_key_parts hls_url !! 1 = Some playlist_key →
  objects w !! (bucket, playlist_key) = Some playlist_content →
  Py.contains "#EXT-X-STREAM-INF" playlist_content
  || Py.contains "#EXT-X-ENDLIST" playlist_content = true →
  ∃ w' body,
    ManifestUpdater._update_main_playlist bucket media_path hls_url
      manifest_filename resolution bandwidth w = (Ok (), w') ∧
    objects w' !! (bucket, playlist_key) = Some body ∧
    Py.contains manifest_filename body = true.
Proof.
  intros Hkey Hobj Hmarker.
  destruct (Py.contains manifest_filename playlist_content) eqn:Hin.
  - eexists _, _. split; [by eapply merge_already_updated|]. by split.
  - eexists _, _. split; [by eapply merge_writes|].
    split; [apply lookup_insert_eq|].
    destruct (Py.contains "#EXT-X-STREAM-INF" playlist_content) eqn:Hstream.
    + destruct (updated_content_stream manifest_filename resolution bandwidth
                  playlist_content Hstream) as (pre & post & _ & ->).
      apply contains_app, image_stream_line_names_manifest.
    + simpl in Hmarker.
      destruct (updated_content_endlist manifest_filename resolution bandwidth
                  playlist_content Hstream Hmarker) as (pre & post & _ & ->).
      apply contains_app, image_stream_line_names_manifest.
Qed.

Lemma merge_establishes_filename_witness :
  ∃ w' body,
    ManifestUpdater._update_main_playlist "media-bucket" "a/"
      "s3://media-bucket/a/play.m3u8" "thumbs_320x180.m3u8" "320x180" 16460
      (world_with "a/play.m3u8" stream_playlist) = (Ok (), w') ∧
    objects w' !! ("media-bucket", "a/play.m3u8") = Some body ∧
    Py.contains "thumbs_320x180.m3u8" body = true.
Proof.
  apply (merge_establishes_filename "media-bucket" "a/"
           "s3://media-bucket/a/play.m3u8" "thumbs_320x180.m3u8" "320x180" 16460
           (world_with "a/play.m3u8" stream_playlist) "a/play.m3u8"
           stream_playlist).
  - reflexivity.
  - vm_compute. reflexivity.
  - reflexivity.
Defined.

(** ** The composer's outcome *)

Section ComposerOutcome.

Context (cfg : Config) (bucket media_path hls_url : string).

Lemma create_manifest_returns thumbnails resolution bandwidth suffix w r w' :
  ManifestUpdater._create_manifest cfg bucket media_path hls_url thumbnails
    resolution bandwidth suffix w = (Ok r, w') →
  r = created_status resolution.
Proof.
  unfold ManifestUpdater._create_manifest, try_except, mbind, M_bind. cbv zeta.
  simpl.
  match goal with
  | |- context [ManifestUpdater._update_main_playlist ?b ?m ?h ?f ?r ?bw ?w1] =>
      destruct (ManifestUpdater._update_main_playlist b m h f r bw w1)
        as [[[]|e] w2]
  end; simpl; [|done].
  by intros [= <- _].
Qed.

Lemma composer_status small_thumbnails big_thumbnails w r w' :
  ManifestUpdater.create_manifests_and_update_playlist cfg bucket media_path
    hls_url small_thumbnails big_thumbnails w = (Ok r, w') →
  r = expected_results cfg small_thumbnails big_thumbnails.
Proof.
  unfold ManifestUpdater.create_manifests_and_update_playlist, expected_results,
    try_except, mbind, M_bind. simpl.
  destruct small_thumbnails as [|ks small]; simpl.
  - destruct big_thumbnails as [|kb big]; simpl; [by intros [= <- _]|].
    destruct (ManifestUpdater._create_manifest cfg bucket media_path hls_url
                (kb :: big) _ _ _ _) as [[rb|e] w2] eqn:Hb; simpl; [|done].
    apply create_manifest_returns in Hb as ->. by intros [= <- _].
  - destruct (ManifestUpdater._create_manifest cfg bucket media_path hls_url
                (ks :: small) _ _ _ _) as [[rs|e] w1] eqn:Hs; simpl; [|done].
    apply create_manifest_returns in Hs as ->.
    destruct big_thumbnails as [|kb big]; simpl; [by intros [= <- _]|].
    destruct (ManifestUpdater._create_manifest cfg bucket media_path hls_url
                (kb :: big) _ _ _ _) as [[rb|e] w2] eqn:Hb; simpl; [|done].
    apply create_manifest_returns in Hb as ->. by intros [= <- _].
Qed.

End ComposerOutcome.

Section ComposerComposition.

Context (cfg : Config) (bucket media_path hls_url playlist_key : string).
Context (Hkey : ManifestUpdater.playlist_key_parts hls_url !! 1 = Some playlist_key).

Lemma create_objects_manifest thumbnails resolution bandwidth o o' :
  create_objects cfg bucket media_path hls_url thumbnails resolution bandwidth o
    = Some o' →
  media_path +:+ ManifestUpdater.manifest_filename_of resolution ≠ playlist_key →
  o' !! (bucket, media_path +:+ ManifestUpdater.manifest_filename_of resolution)
  = Some (ManifestUpdater.manifest_content_of cfg media_path thumbnails resolution).
Proof.
  unfold create_objects. rewrite Hkey. simpl. intros Hrun Hne.
  destruct (_ !! (bucket, playlist_key)) as [c|]; simpl in Hrun; [|done].
  injection Hrun as <-.
  rewrite lookup_insert_ne by congruence. apply lookup_insert_eq.
Qed.

Lemma playlist_after_apart thumbnails resolution bandwidth before :
  media_path +:+ ManifestUpdater.manifest_filename_of resolution ≠ playlist_key →
  playlist_after cfg bucket media_path playlist_key thumbnails resolution
    bandwidth (Some before)
  = Some (merged_text (ManifestUpdater.manifest_filename_of resolution)
            resolution bandwidth before).
Proof.
  intros Hne. unfold playlist_after.
  destruct (decide (_ = _)) as [Heq|]; [|done]. congruence.
Qed.

End ComposerComposition.

(** X2. With both thumbnail lists non-empty and the master playlist stored
    under a key of its own, the composer returns the status map with both
    entries and leaves in the master playlist the result of the merge for
    the small resolution followed by the merge for the big resolution, each
    one skipped when its manifest filename is already there; the big
    manifest is stored under [media_path + thumbs_WxH.m3u8]. *)
Theorem composer_merges_small_then_big (cfg : Config)
    (bucket media_path hls_url playlist_key playlist_content : string)
    (small_thumbnails big_thumbnails : list string) (w : World) :
  ManifestUpdater.playlist_key_parts hls_url !! 1 = Some playlist_key →
  objects w !! (bucket, playlist_key) = Some playlist_content →
  media_path +:+ ManifestUpdater.manifest_filename_of (THUMBNAIL_SMALL_RESOLUTION cfg)
    ≠ playlist_key →
  media_path +:+ ManifestUpdater.manifest_filename_of (THUMBNAIL_BIG_RESOLUTION cfg)
    ≠ playlist_key →
  small_thumbnails ≠ [] →
  big_thumbnails ≠ [] →
  ∃ w',
    ManifestUpdater.create_manifests_and_update_playlist cfg bucket media_path
      hls_url small_thumbnails big_thumbnails w
    = (Ok {[ "small" := created_status (THUMBNAIL_SMALL_RESOLUTION cfg);
             "big" := created_status (THUMBNAIL_BIG_RESOLUTION cfg) ]}, w') ∧
    objects w' !! (bucket, playlist_key)
    = Some (merged_text
              (ManifestUpdater.manifest_filename_of (THUMBNAIL_BIG_RESOLUTION cfg))
              (THUMBNAIL_BIG_RESOLUTION cfg) (THUMBNAIL_BIG_BANDWIDTH cfg)
              (merged_text
                 (ManifestUpdater.manifest_filename_of (THUMBNAIL_SMALL_RESOLUTION cfg))
                 (THUMBNAIL_SMALL_RESOLUTION cfg) (THUMBNAIL_SMALL_BANDWIDTH cfg)
                 playlist_content)) ∧
    objects w' !! (bucket, media_path
                           +:+ ManifestUpdater.manifest_filename_of
                                 (THUMBNAIL_BIG_RESOLUTION cfg))
    = Some (ManifestUpdater.manifest_content_of cfg media_path big_thumbnails
              (THUMBNAIL_BIG_RESOLUTION cfg)).
Proof.
  intros Hkey Hobj Hs Hb Hsmall Hbig.
  destruct (create_objects_defined cfg bucket media_path hls_url playlist_key Hkey
              small_thumbnails (THUMBNAIL_SMALL_RESOLUTION cfg)
              (THUMBNAIL_SMALL_BANDWIDTH cfg) (objects w)) as [oa Hoa].
  { rewrite Hobj, playlist_after_apart by done. eauto. }
  pose proof (create_objects_playlist cfg bucket media_path hls_url playlist_key
                Hkey _ _ _ _ _ Hoa) as Hpa.
  rewrite Hobj, playlist_after_apart in Hpa by done.
  destruct (create_objects_defined cfg bucket media_path hls_url playlist_key Hkey
              big_thumbnails (THUMBNAIL_BIG_RESOLUTION cfg)
              (THUMBNAIL_BIG_BANDWIDTH cfg) oa) as [ob Hob].
  { rewrite Hpa, playlist_after_apart by done. eauto. }
  pose proof (create_objects_playlist cfg bucket media_path hls_url playlist_key
                Hkey _ _ _ _ _ Hob) as Hpb.
  rewrite Hpa, playlist_after_apart in Hpb by done.
  pose proof (composer_run cfg bucket media_path hls_url small_thumbnails
                big_thumbnails w) as Hrun.
  unfold composer_objects, step_objects in Hrun.
  destruct small_thumbnails as [|ks small]; [done|].
  destruct big_thumbnails as [|kb big]; [done|].
  simpl in Hrun. rewrite Hoa in Hrun. simpl in Hrun. rewrite Hob in Hrun.
  destruct Hrun as (r & w' & Hrun & Hobjects).
  exists w'. split.
  - rewrite Hrun. f_equal. f_equal.
    by apply (composer_status _ _ _ _ _ _ _ _ _ Hrun).
  - rewrite Hobjects. split; [done|].
    by eapply create_objects_manifest.
Qed.

Lemma composer_merges_small_then_big_witness :
  ∃ w',
    ManifestUpdater.create_manifests_and_update_playlist example_config
      "media-bucket" "a/" "s3://media-bucket/a/play.m3u8" example_small example_big
      (world_with "a/play.m3u8" stream_playlist)
    = (Ok {[ "small" := created_status (THUMBNAIL_SMALL_RESOLUTION example_config);
             "big" := created_status (THUMBNAIL_BIG_RESOLUTION example_config) ]},
       w') ∧
    objects w' !! ("media-bucket", "a/play.m3u8")
    = Some (merged_text
              (ManifestUpdater.manifest_filename_of
                 (THUMBNAIL_BIG_RESOLUTION example_config))
              (THUMBNAIL_BIG_RESOLUTION example_config)
              (THUMBNAIL_BIG_BANDWIDTH example_config)
              (merged_text
                 (ManifestUpdater.manifest_filename_of
                    (THUMBNAIL_SMALL_RESOLUTION example_config))
                 (THUMBNAIL_SMALL_RESOLUTION example_config)
                 (THUMBNAIL_SMALL_BANDWIDTH example_config)
                 stream_playlist)) ∧
    objects w' !! ("media-bucket",
                   "a/" +:+ ManifestUpdater.manifest_filename_of
                              (THUMBNAIL_BIG_RESOLUTION example_config))
    = Some (ManifestUpdater.manifest_content_of example_config "a/" example_big
              (THUMBNAIL_BIG_RESOLUTION example_config)).
Proof.
  apply (composer_merges_small_then_big example_config "media-bucket" "a/"
           "s3://media-bucket/a/play.m3u8" "a/play.m3u8" stream_playlist
           example_small example_big (world_with "a/play.m3u8" stream_playlist)).
  - reflexivity.
  - vm_compute. reflexivity.
  - vm_compute. discriminate.
  - vm_compute. discriminate.
  - discriminate.
  - discriminate.
Defined.

(** ** Failures of the composer keep what was already written *)



(** X4. When the playlist URL holds no slash after its scheme, so that no
    key can be read off it, a composer run with a non-empty small list
    raises [ManifestGenerationError] with the index error, after uploading
    the small manifest and without any fetch. *)
Theorem composer_url_without_key (cfg : Config)
    (bucket media_path hls_url : string)
    (thumbnail_key : string) (small_thumbnails big_thumbnails : list string)
    (w : World) :
  ManifestUpdater.playlist_key_parts hls_url !! 1 = None →
  (ManifestUpdater.create_manifests_and_update_playlist cfg bucket media_path
     hls_url (thumbnail_key :: small_thumbnails) big_thumbnails w).1
  = Raise (mkExn ManifestGenerationError
             ("Failed to create manifests for " +:+ media_path +:+ ": "
              +:+ "list index out of range"))
  ∧ calls (ManifestUpdater.create_manifests_and_update_playlist cfg bucket
             media_path hls_url (thumbnail_key :: small_thumbnails)
             big_thumbnails w).2
    = calls w ++
      [S3PutObject bucket
         (media_path +:+ ManifestUpdater.manifest_filename_of
                           (THUMBNAIL_SMALL_RESOLUTION cfg))
         (ManifestUpdater.manifest_content_of cfg media_path
            (thumbnail_key :: small_thumbnails) (THUMBNAIL_SMALL_RESOLUTION cfg))
         ManifestUpdater.CONTENT_TYPE true].
Proof.
  intros Hkey.
  unfold ManifestUpdater.create_manifests_and_update_playlist,
    ManifestUpdater._create_manifest, ManifestUpdater._update_main_playlist,
    ManifestUpdater.playlist_key_of, list_index.
  rewrite Hkey.
  unfold try_except, mbind, M_bind. simpl. done.
Qed.

Lemma composer_url_without_key_witness :
  (ManifestUpdater.create_manifests_and_update_playlist example_config
     "media-bucket" "a/" "play.m3u8"
     ("a/thumbs/clip_small.00001.jpg" :: []) example_big empty_world).1
  = Raise (mkExn ManifestGenerationError
             ("Failed to create manifests for " +:+ "a/" +:+ ": "
              +:+ "list index out of range")).
Proof.
  destruct (composer_url_without_key example_config "media-bucket" "a/"
              "play.m3u8" "a/thumbs/clip_small.00001.jpg" [] example_big
              empty_world) as (Hraise & _).
  - reflexivity.
  - exact Hraise.
Defined.

(** ** What the composer never touches *)

(** X5. Whether it returns or raises, the composer changes no stored
    object other than the two resolution manifests and the master playlist
    of its inputs, and removes none. *)
Theorem composer_touches_only_its_keys (cfg : Config)
    (bucket media_path hls_url : string)
    (small_thumbnails big_thumbnails : list string) :
  store_frame (composer_keys cfg bucket media_path hls_url)
    (ManifestUpdater.create_manifests_and_update_playlist cfg bucket media_path
       hls_url small_thumbnails big_thumbnails).
Proof.
  unfold ManifestUpdater.create_manifests_and_update_playlist. cbv zeta.
  frame; apply frame_create_manifest;
    first [by left | by (right; left) | (intros pk Hpk; right; right; eauto)].
Qed.

(** ** Which services a stage talks to *)

(** X6. Every external call of the composer is a request to object
    storage: it never sends or deletes a queue message, never asks the CDN
    for an invalidation and never starts a process. *)
Theorem composer_calls_only_storage (cfg : Config)
    (bucket media_path hls_url : string)
    (small_thumbnails big_thumbnails : list string) :
  emits (Forall (λ c, is_s3_call c = true))
    (ManifestUpdater.create_manifests_and_update_playlist cfg bucket media_path
       hls_url small_thumbnails big_thumbnails).
Proof.
  unfold ManifestUpdater.create_manifests_and_update_playlist. cbv zeta.
  trace; by apply all_create_manifest.
Qed.

Section InvalidatorTraces.

Context (env : Env) (cfg : Config) (context : Context).

#[local] Abbreviation P := (invalidates_configured cfg).

Lemma strs_of_nonempty items paths :
  Dict.strs_of items = Some paths → items ≠ [] → paths ≠ [].
Proof.
  destruct items as [|[| | |s| |] items]; try done.
  simpl. destruct (Dict.strs_of items); simpl; [|done]. by intros [= <-].
Qed.

Lemma all_unchecked_invalidate_paths distribution_id paths :
  AWS_CLOUDFRONT_DISTRIBUTION_ID cfg = Some distribution_id →
  emits (Forall P) (Unchecked.invalidate_paths env distribution_id paths).
Proof.
  intros Hid. unfold Unchecked.invalidate_paths.
  destruct (PyValue.truth paths) eqn:Htruth; simpl; [|trace].
  apply all_bind; [apply all_len|]. intros _.
  apply all_bind; [apply all_log|]. intros _.
  apply all_bind; [apply all_len|]. intros _.
  destruct paths as [| | | |items|]; try apply all_raise.
  destruct (Dict.strs_of items) as [paths|] eqn:Hstrs; [|apply all_raise].
  apply all_bind; [|trace].
  apply all_record_call. exists distribution_id, paths.
  split; [done|]. split; [done|].
  apply (strs_of_nonempty items); [done|].
  intros ->. discriminate Htruth.
Qed.

Lemma all_unchecked_invalidate_cache_configured paths :
  emits (Forall P)
    (Unchecked.invalidate_cache env cfg paths (AWS_CLOUDFRONT_DISTRIBUTION_ID cfg)).
Proof.
  unfold Unchecked.invalidate_cache. cbv zeta.
  apply all_try_except; [|trace].
  destruct (AWS_CLOUDFRONT_DISTRIBUTION_ID cfg) as [[|c d]|] eqn:Hid;
    [apply all_raise| |apply all_raise].
  change (py_or (Some (String c d)) (Some (String c d))) with (Some (String c d)).
  cbv beta iota.
  destruct (PyValue.truth paths); simpl; [|trace].
  apply all_bind; [apply all_len|]. intros _.
  apply all_bind; [apply all_log|]. intros _.
  apply all_bind; [by apply all_unchecked_invalidate_paths|]. trace.
Qed.

End InvalidatorTraces.

(** X7. Every external call of the cache invalidator's handler is one
    invalidation request to the configured distribution for a non-empty
    list of paths: the handler never touches object storage and never
    sends or deletes a queue message. *)
Theorem invalidator_handler_calls_only_cdn (env : Env) (cfg : Config)
    (event : Event) (context : Context) :
  emits (Forall (invalidates_configured cfg))
    (CacheInvalidatorHandler.lambda_handler env cfg event context).
Proof.
  unfold CacheInvalidatorHandler.lambda_handler. trace.
  - apply all_validate.
  - apply all_for_each. intros record.
    unfold CacheInvalidatorHandler.handle_record,
      CacheInvalidatorHandler.record_failed,
      CacheInvalidatorHandler.process_record.
    trace;
      first [apply all_item|apply all_get|apply all_loads|apply all_len
            |apply all_unchecked_invalidate_cache_configured].
Qed.

(** X8. The file name used in a manifest reference is what follows the
    last slash of the thumbnail key: it holds no slash, and the key is that
    name behind a directory part that is empty or ends with a slash. *)
Theorem thumbnail_name_is_basename (thumbnail_key : string) :
  Py.contains "/" (ManifestUpdater.thumbnail_name_of thumbnail_key) = false
  ∧ ∃ dir,
      thumbnail_key = dir +:+ ManifestUpdater.thumbnail_name_of thumbnail_key ∧
      (dir = "" ∨ ∃ parent, dir = parent +:+ "/").
Proof.
  unfold ManifestUpdater.thumbnail_name_of. split.
  - apply (last_Forall (λ part, Py.contains "/" part = false)).
    + apply split_nonempty.
    + apply split_parts_without_sep.
  - destruct (join_ends_with_last "/"%char
                (Py.split "/"%char None thumbnail_key) "")
      as (dir & Hjoin & Hdir); [apply split_nonempty|].
    rewrite join_split in Hjoin. eauto.
Qed.

(** X9. For a playlist URL [s3://B/K], or [B/K] without scheme, where [B]
    holds no slash and [B/K] no further [s3://], the playlist key is [K]:
    the bucket named in the URL is dropped, and the merge fetches [K] from
    the bucket it is given. *)
Theorem playlist_key_drops_url_bucket
    (url_bucket key bucket media_path manifest_filename resolution : string)
    (bandwidth : Z) (w : World) :
  Py.contains "/" url_bucket = false →
  Py.contains "s3://" (url_bucket +:+ "/" +:+ key) = false →
  ManifestUpdater.playlist_key_parts ("s3://" +:+ url_bucket +:+ "/" +:+ key)
    = [url_bucket; key]
  ∧ ManifestUpdater.playlist_key_parts (url_bucket +:+ "/" +:+ key)
    = [url_bucket; key]
  ∧ ∃ cs,
      calls (ManifestUpdater._update_main_playlist bucket media_path
               ("s3://" +:+ url_bucket +:+ "/" +:+ key) manifest_filename
               resolution bandwidth w).2
      = calls w ++ S3GetObject bucket key :: cs.
Proof.
  intros Hbucket Hscheme.
  assert (ManifestUpdater.playlist_key_parts (url_bucket +:+ "/" +:+ key)
          = [url_bucket; key]) as Hplain.
  { unfold ManifestUpdater.playlist_key_parts.
    rewrite replace_absent by done. by apply split_at_first_sep. }
  assert (ManifestUpdater.playlist_key_parts
            ("s3://" +:+ url_bucket +:+ "/" +:+ key) = [url_bucket; key]) as Hurl.
  { unfold ManifestUpdater.playlist_key_parts.
    destruct (replace_first "s3://" "" None
                ("s3://" +:+ url_bucket +:+ "/" +:+ key))
      as (pre & post & [Hsplit Hfirst] & ->); [done|done| |].
    - apply contains_spec. by exists "", (url_bucket +:+ "/" +:+ key).
    - specialize (Hfirst "" (url_bucket +:+ "/" +:+ key) eq_refl).
      destruct pre; [|simpl in Hfirst; lia].
      rewrite !str_app_nil_l in Hsplit. apply (inj _) in Hsplit as <-.
      rewrite str_app_nil_l. simpl Py.budget_pred.
      rewrite replace_absent by done. by apply split_at_first_sep. }
  split; [done|]. split; [done|].
  assert (ManifestUpdater.playlist_key_parts
            ("s3://" +:+ url_bucket +:+ "/" +:+ key) !! 1 = Some key) as Hkey
    by (by rewrite Hurl).
  destruct (objects w !! (bucket, key)) as [content|] eqn:Hobj.
  - destruct (Py.contains manifest_filename content) eqn:Hin.
    + exists []. by erewrite merge_already_updated.
    + eexists. erewrite merge_writes by done. simpl.
      by rewrite <-(assoc_L (++)).
  - destruct (merge_no_object bucket media_path _ manifest_filename resolution
                bandwidth w key Hkey Hobj) as (e & w' & Hrun & _ & _ & Hcalls).
    exists []. by rewrite Hrun.
Qed.

Lemma playlist_key_drops_url_bucket_witness :
  ManifestUpdater.playlist_key_parts
    ("s3://" +:+ "other-bucket" +:+ "/" +:+ "a/play.m3u8")
  = ["other-bucket"; "a/play.m3u8"].
Proof.
  destruct (playlist_key_drops_url_bucket "other-bucket" "a/play.m3u8"
              "media-bucket" "a/" "thumbs_320x180.m3u8" "320x180" 16460
              empty_world) as (Hparts & _).
  - reflexivity.
  - reflexivity.
  - exact Hparts.
Defined.

(** ** Cache invalidation with paths *)

(** X10. With a non-empty path list, [invalidate_cache] makes exactly one
    request to the CDN, for all the paths at once, to the distribution
    given as argument or, when that is [None] or empty, to the configured
    one. It returns the identifier the CDN assigns; when the CDN rejects
    the request it raises [CDNInvalidationError] carrying the CDN's error. *)
Theorem invalidate_cache_single_batch (env : Env) (cfg : Config)
    (path : string) (paths : list string) (distribution_id : option string)
    (c : ascii) (d : string) (w : World) :
  py_or distribution_id (AWS_CLOUDFRONT_DISTRIBUTION_ID cfg) = Some (String c d) →
  calls (CacheInvalidator.invalidate_cache env cfg (path :: paths)
           distribution_id w).2
  = calls w ++ [CloudFrontCreateInvalidation (String c d) (path :: paths)]
  ∧ (CacheInvalidator.invalidate_cache env cfg (path :: paths)
       distribution_id w).1
    = match cloudfront_create_invalidation env (String c d) (path :: paths) with
      | Accepted invalidation_id => Ok (Some invalidation_id)
      | Rejected error =>
          Raise (mkExn CDNInvalidationError
                   ("Failed to invalidate cache: "
                    +:+ "Error invalidating CloudFront: " +:+ error))
      end.
Proof.
  intros Hid.
  unfold CacheInvalidator.invalidate_cache, CloudFrontHelper.invalidate_paths,
    try_except, mbind, M_bind. cbv zeta. rewrite Hid. simpl.
  destruct (cloudfront_create_invalidation env (String c d) (path :: paths));
    simpl; done.
Qed.

Lemma invalidate_cache_single_batch_witness :
  calls (CacheInvalidator.invalidate_cache example_env unconfigured
           ["/a/play.m3u8"; "/a/thumbs/*"] (Some "E2ARGUMENT") empty_world).2
  = calls empty_world ++
    [CloudFrontCreateInvalidation "E2ARGUMENT" ["/a/play.m3u8"; "/a/thumbs/*"]]
  ∧ (CacheInvalidator.invalidate_cache example_env unconfigured
       ["/a/play.m3u8"; "/a/thumbs/*"] (Some "E2ARGUMENT") empty_world).1
    = match cloudfront_create_invalidation example_env "E2ARGUMENT"
              ["/a/play.m3u8"; "/a/thumbs/*"] with
      | Accepted invalidation_id => Ok (Some invalidation_id)
      | Rejected error =>
          Raise (mkExn CDNInvalidationError
                   ("Failed to invalidate cache: "
                    +:+ "Error invalidating CloudFront: " +:+ error))
      end.
Proof.
  apply (invalidate_cache_single_batch example_env unconfigured "/a/play.m3u8"
           ["/a/thumbs/*"] (Some "E2ARGUMENT") "E"%char "2ARGUMENT" empty_world).
  reflexivity.
Defined.

(** ** Handlers without configuration *)

Lemma validate_unconfigured cfg w :
  ¬ configured cfg →
  ∃ message, validate cfg w = (Raise (mkExn ValueError message), w).
Proof.
  intros Hcfg. unfold validate, configured in *.
  destruct (AWS_S3_BUCKET cfg) as [[|? ?]|];
    destruct (AWS_CLOUDFRONT_DISTRIBUTION_ID cfg) as [[|? ?]|];
    simpl in *; eauto; by destruct Hcfg.
Qed.

(** X11. When the bucket or the distribution id is not configured, the
    composer's and the invalidator's handler answer 500 with the fixed
    internal-error body, whatever the batch: no record is processed, no
    external call is made and no stored object changes. *)
Theorem handlers_refuse_without_configuration (env : Env) (cfg : Config)
    (event : Event) (context : Context) (w : World) :
  ¬ configured cfg →
  (ManifestUpdaterHandler.lambda_handler env cfg event context w).1
    = Ok (mkResponse 500 (JObj [("error", JStr "Internal server error")]))
  ∧ calls (ManifestUpdaterHandler.lambda_handler env cfg event context w).2 = calls w
  ∧ objects (ManifestUpdaterHandler.lambda_handler env cfg event context w).2
    = objects w
  ∧ (CacheInvalidatorHandler.lambda_handler env cfg event context w).1
    = Ok (mkResponse 500 (JObj [("error", JStr "Internal server error")]))
  ∧ calls (CacheInvalidatorHandler.lambda_handler env cfg event context w).2 = calls w
  ∧ objects (CacheInvalidatorHandler.lambda_handler env cfg event context w).2
    = objects w.
Proof.
  intros Hcfg.
  unfold ManifestUpdaterHandler.lambda_handler,
    CacheInvalidatorHandler.lambda_handler, try_except, mbind, M_bind. simpl.
  destruct (validate_unconfigured cfg
              (add_log (mkLog INFO "Manifest updater lambda invoked" None) w) Hcfg)
    as [m1 ->].
  destruct (validate_unconfigured cfg
              (add_log (mkLog INFO "Cache invalidator lambda invoked" None) w) Hcfg)
    as [m2 ->].
  done.
Qed.

Lemma handlers_refuse_without_configuration_witness :
  (ManifestUpdaterHandler.lambda_handler example_env unconfigured
     (example_event ["composer"]) (mkContext "req-1")
     (world_with "a/play.m3u8" stream_playlist)).1
  = Ok (mkResponse 500 (JObj [("error", JStr "Internal server error")])).
Proof.
  destruct (handlers_refuse_without_configuration example_env unconfigured
              (example_event ["composer"]) (mkContext "req-1")
              (world_with "a/play.m3u8" stream_playlist)) as (Hstatus & _).
  - intros [_ Hdist]. discriminate Hdist.
  - exact Hstatus.
Defined.

(** ** Queue messages of the composer's handler *)

Section QueueTraces.

Context (env : Env) (P : Call → Prop).

Lemma all_send_any queue_url message_body :
  (∀ url, P (SQSSendMessage url message_body)) →
  emits (Forall P) (SQSHelper.send_message env queue_url message_body).
Proof.
  intros HP. unfold SQSHelper.send_message. trace.
  all: by apply all_record_call.
Qed.

Lemma all_delete_any queue_url receipt_handle :
  (∀ url handle, P (SQSDeleteMessage url handle)) →
  emits (Forall P) (SQSHelper.delete_message env queue_url receipt_handle).
Proof.
  intros HP. unfold SQSHelper.delete_message. trace.
  all: by apply all_record_call.
Qed.

End QueueTraces.

Section DeleteOnSuccess.

Context (env : Env) (cfg : Config) (context : Context).

#[local] Abbreviation no_delete := (Forall (λ c, is_delete c = false)).

Lemma delete_after {A B} (m : M A) (k : A → M B) :
  emits no_delete m →
  (∀ a, emits_with (deletes_only_on_success env) (k a)) →
  emits_with (deletes_only_on_success env) (m ≫= k).
Proof.
  intros Hm Hk w. destruct (Hm w) as (c1 & Hc1 & Hall).
  assert (Forall (λ c, match c with
                       | SQSDeleteMessage queue_url receipt_handle =>
                           ∃ error,
                             sqs_delete_message env queue_url receipt_handle
                             = Rejected error
                       | _ => True
                       end) c1) as Hc1'.
  { eapply Forall_impl; [exact Hall|]. by intros []. }
  unfold mbind, M_bind. destruct (m w) as [[a|e] w1]; simpl in *.
  - destruct (Hk a w1) as (c2 & Hc2 & HT). exists (c1 ++ c2).
    split; [by rewrite Hc2, Hc1, (assoc_L (++))|].
    destruct (k a w1).1; simpl in *; [done|]. by apply Forall_app.
  - by exists c1.
Qed.

Lemma delete_then_log queue_url receipt_handle message :
  emits_with (deletes_only_on_success env)
    (SQSHelper.delete_message env queue_url receipt_handle;;
     StructuredLogger.info message).
Proof.
  intros w. unfold SQSHelper.delete_message, mbind, M_bind.
  destruct queue_url as [url|], receipt_handle as [| | |handle| |]; simpl;
    try (exists []; by rewrite app_nil_r).
  destruct (sqs_delete_message env url handle) as [[]|error] eqn:Hans; simpl.
  - by exists [SQSDeleteMessage url handle].
  - exists [SQSDeleteMessage url handle]. split; [done|].
    apply Forall_singleton. eauto.
Qed.

End DeleteOnSuccess.

(** X12. When the processing of a record by the composer's handler raises,
    every delete request it made for the record's message was rejected by
    the queue service: a message is deleted only after its manifests were
    composed and, where a queue is configured, the invalidation message was
    accepted. *)
Theorem composer_record_deleted_only_on_success (env : Env) (cfg : Config)
    (context : Context) (record : json) :
  emits_with (deletes_only_on_success env)
    (ManifestUpdaterHandler.process_record env cfg context record).
Proof.
  unfold ManifestUpdaterHandler.process_record. cbv zeta.
  repeat (apply delete_after;
          [trace;
           first [apply all_item|apply all_get|apply all_loads
                 |by apply all_send_any
                 |apply all_unchecked_composer; by intros []]
          |intros ?]).
  apply delete_then_log.
Qed.

(** X13. When no cache-invalidation queue is configured, the composer's
    handler sends no queue message at all, whatever the batch. *)
Theorem composer_handler_silent_without_queue (env : Env) (cfg : Config)
    (event : Event) (context : Context) :
  truthy (SQS_CACHE_INVALIDATION_QUEUE_URL cfg) = false →
  emits (Forall (λ c, is_send c = false))
    (ManifestUpdaterHandler.lambda_handler env cfg event context).
Proof.
  intros Hqueue. unfold ManifestUpdaterHandler.lambda_handler. trace.
  - apply all_validate.
  - apply all_for_each. intros record.
    unfold ManifestUpdaterHandler.handle_record,
      ManifestUpdaterHandler.record_failed,
      ManifestUpdaterHandler.process_record.
    cbv zeta. rewrite Hqueue.
    trace;
      first [apply all_item|apply all_get|apply all_loads
            |by apply all_delete_any
            |apply all_unchecked_composer; by intros []].
Qed.

Lemma composer_handler_silent_without_queue_witness :
  Forall (λ c, is_send c = false)
    (calls (ManifestUpdaterHandler.lambda_handler example_env quiet_config
              (example_event ["composer"]) (mkContext "req-1")
              (world_with "a/play.m3u8" stream_playlist)).2)
  ∧ last (calls (ManifestUpdaterHandler.lambda_handler example_env quiet_config
                   (example_event ["composer"]) (mkContext "req-1")
                   (world_with "a/play.m3u8" stream_playlist)).2)
    = Some (SQSDeleteMessage "https://sqs.example/manifest" "rh-1").
Proof.
  destruct (composer_handler_silent_without_queue example_env quiet_config
              (example_event ["composer"]) (mkContext "req-1") eq_refl
              (world_with "a/play.m3u8" stream_playlist))
    as (cs & Hcalls & Hquiet).
  split.
  - rewrite Hcalls. exact Hquiet.
  - vm_compute. reflexivity.
Defined.

(** ** The extractor when the sampler succeeds *)

Section Uploads.

Context (cfg : Config) (media_key output_dir bucket thumbnails_folder : string).
Context (files : list (string * string)).

#[local] Abbreviation wanted :=
  (λ filename, Py.endswith ("." +:+ THUMBNAIL_FORMAT cfg) filename).

Lemma upload_all_run filenames thumbnail_keys w :
  ∃ w',
    TrickPlayGenerator.upload_all cfg media_key output_dir bucket
      thumbnails_folder files thumbnail_keys filenames w
    = (Ok (thumbnail_keys
           ++ ((λ filename, thumbnails_folder +:+ filename)
                 <$> filter wanted filenames)), w') ∧
    calls w'
    = calls w ++ (upload_call cfg bucket thumbnails_folder output_dir
                    <$> filter wanted filenames) ∧
    objects w'
    = uploaded bucket thumbnails_folder files (filter wanted filenames) (objects w).
Proof.
  revert thumbnail_keys w.
  induction filenames as [|filename rest IH]; intros thumbnail_keys w.
  - exists w. simpl. by rewrite !app_nil_r.
  - simpl. unfold TrickPlayGenerator.upload_entry, mbind, M_bind. cbv zeta.
    destruct (Py.endswith ("." +:+ THUMBNAIL_FORMAT cfg) filename) eqn:Hwanted.
    + simpl.
      match goal with
      | |- context [TrickPlayGenerator.upload_all _ _ _ _ _ _ ?ks _ ?w1] =>
          destruct (IH ks w1) as (w' & Hrun & Hcalls & Hobjects)
      end.
      exists w'. rewrite filter_cons_True by (by rewrite Hwanted).
      split; [|split].
      * rewrite Hrun. by rewrite <-(assoc_L (++)).
      * rewrite Hcalls. simpl. by rewrite <-(assoc_L (++)).
      * by rewrite Hobjects.
    + simpl. destruct (IH thumbnail_keys w) as (w' & Hrun & Hcalls & Hobjects).
      exists w'. rewrite filter_cons_False; [done|].
      rewrite Hwanted. by intros [].
Qed.

Lemma uploaded_lookup filenames o filename :
  filename ∈ filenames →
  uploaded bucket thumbnails_folder files filenames o
    !! (bucket, thumbnails_folder +:+ filename)
  = Some (TrickPlayGenerator.file_body filename files).
Proof.
  unfold uploaded. revert o.
  induction filenames as [|f rest IH] using rev_ind; intros o Hin.
  - by apply elem_of_nil in Hin.
  - rewrite foldl_app. simpl.
    destruct (decide (f = filename)) as [->|Hne].
    + apply lookup_insert_eq.
    + rewrite lookup_insert_ne.
      * apply IH. apply elem_of_app in Hin as [Hin|Hin]; [done|].
        apply list_elem_of_singleton in Hin. congruence.
      * intros [= Heq]. by apply (inj _) in Heq.
Qed.

End Uploads.

Lemma StronglySorted_filter {A} (R : relation A) (P : A → Prop)
    `{!∀ x, Decision (P x)} (l : list A) :
  StronglySorted R l → StronglySorted R (filter P l).
Proof.
  induction 1 as [|x l Hl IH Hx]; [constructor|].
  rewrite filter_cons. case_decide; [|done].
  constructor; [done|].
  apply Forall_forall. intros y [_ Hy]%list_elem_of_filter.
  by eapply Forall_forall in Hx.
Qed.

(** X14. When the sampler exits with status 0,
    [_generate_resolution_thumbnails] returns, in lexical order of the file
    names, the key [media_path + folder + "/" + name] of every file of the
    output directory whose name ends with the configured format, after
    starting the one process and uploading exactly those files, one request
    each in that order; every such key then holds the content of its file.
    Files with another ending are neither uploaded nor returned. *)
Theorem extractor_uploads_sorted_frames (env : Env) (cfg : Config)
    (hls_url media_key output_dir bucket media_path : string)
    (width height : Z) (suffix : string) (process : Process) (w : World) :
  run_process env
    (TrickPlayGenerator.ffmpeg_cmd cfg hls_url media_key output_dir width height
       suffix) = Ok process →
  returncode process = 0%Z →
  (TrickPlayGenerator._generate_resolution_thumbnails env cfg hls_url media_key
     output_dir bucket media_path width height suffix w).1
  = Ok ((λ filename, media_path +:+ THUMBNAILS_FOLDER cfg +:+ "/" +:+ filename)
          <$> kept_files cfg (output_files process).*1)
  ∧ calls (TrickPlayGenerator._generate_resolution_thumbnails env cfg hls_url
             media_key output_dir bucket media_path width height suffix w).2
    = calls w ++
      Popen (TrickPlayGenerator.ffmpeg_cmd cfg hls_url media_key output_dir
               width height suffix)
      :: (upload_call cfg bucket (media_path +:+ THUMBNAILS_FOLDER cfg +:+ "/")
            output_dir <$> kept_files cfg (output_files process).*1)
  ∧ (∀ filename,
       filename ∈ kept_files cfg (output_files process).*1 →
       objects (TrickPlayGenerator._generate_resolution_thumbnails env cfg
                  hls_url media_key output_dir bucket media_path width height
                  suffix w).2
         !! (bucket, media_path +:+ THUMBNAILS_FOLDER cfg +:+ "/" +:+ filename)
       = Some (TrickPlayGenerator.file_body filename (output_files process)))
  ∧ StronglySorted String.le (kept_files cfg (output_files process).*1)
  ∧ (∀ filename,
       filename ∈ kept_files cfg (output_files process).*1 ↔
       filename ∈ (output_files process).*1 ∧
       Py.endswith ("." +:+ THUMBNAIL_FORMAT cfg) filename = true).
Proof.
  intros Hrun Hcode.
  destruct (upload_all_run cfg media_key output_dir bucket
              (media_path +:+ THUMBNAILS_FOLDER cfg +:+ "/")
              (output_files process)
              (merge_sort String.le (output_files process).*1) []
              (add_call (Popen (TrickPlayGenerator.ffmpeg_cmd cfg hls_url media_key
                                  output_dir width height suffix))
                 (add_log (info_entry "Running FFmpeg") w)))
    as (w' & Hup & Hcalls & Hobjects).
  assert (TrickPlayGenerator._generate_resolution_thumbnails env cfg hls_url
            media_key output_dir bucket media_path width height suffix w
          = (Ok ((λ filename,
                    (media_path +:+ THUMBNAILS_FOLDER cfg +:+ "/") +:+ filename)
                   <$> kept_files cfg (output_files process).*1),
             add_log (info_entry "Resolution thumbnails generated and uploaded") w'))
    as Hgen.
  { unfold TrickPlayGenerator._generate_resolution_thumbnails. cbv zeta.
    eapply try_except_ok.
    erewrite bind_ok by reflexivity.
    erewrite bind_ok.
    2:{ unfold TrickPlayGenerator.popen, mbind, M_bind. simpl.
        rewrite Hrun. reflexivity. }
    rewrite bool_decide_eq_false_2 by (intros H; by apply H).
    erewrite bind_ok by exact Hup. reflexivity. }
  rewrite Hgen. simpl. split; [|split; [|split; [|split]]].
  - f_equal. apply list_fmap_ext. intros _ filename _.
    by rewrite !str_app_assoc.
  - rewrite Hcalls. simpl. by rewrite <-(assoc_L (++)).
  - intros filename Hin. rewrite Hobjects.
    replace (media_path +:+ THUMBNAILS_FOLDER cfg +:+ "/" +:+ filename)
      with ((media_path +:+ THUMBNAILS_FOLDER cfg +:+ "/") +:+ filename)
      by (by rewrite !str_app_assoc).
    by apply uploaded_lookup.
  - apply StronglySorted_filter, StronglySorted_merge_sort; apply _.
  - intros filename. unfold kept_files.
    rewrite list_elem_of_filter, merge_sort_Permutation.
    split; intros [H1 H2]; split; try done.
    + by apply Is_true_true.
    + by apply Is_true_true.
Qed.

Lemma extractor_uploads_sorted_frames_witness :
  (TrickPlayGenerator._generate_resolution_thumbnails sampling_env example_config
     "s3://media-bucket/a/play.m3u8" "clip" "/tmp/tmpab12/small" "media-bucket"
     "a/" 320 180 "" empty_world).1
  = Ok ["a/thumbs/clip.00001.jpg"; "a/thumbs/clip.00002.jpg"].
Proof.
  destruct (extractor_uploads_sorted_frames sampling_env example_config
              "s3://media-bucket/a/play.m3u8" "clip" "/tmp/tmpab12/small"
              "media-bucket" "a/" 320 180 ""
              (mkProcess 0 "" ""
                 [("clip.00002.jpg", "frame two"); ("ffmpeg.log", "log");
                  ("clip.00001.jpg", "frame one")])
              empty_world) as (Hkeys & _).
  - reflexivity.
  - reflexivity.
  - rewrite Hkeys. vm_compute. reflexivity.
Defined.

(** ** The extractor's handler *)

Section ExtractUrl.

#[local] Abbreviation is_playlist := (λ path, Py.contains "m3u8" path).

Lemma head_filter_app (l1 l2 : list string) :
  head (filter is_playlist (l1 ++ l2))
  = match head (filter is_playlist l1) with
    | Some path => Some path
    | None => head (filter is_playlist l2)
    end.
Proof.
  rewrite filter_app. by destruct (filter is_playlist l1).
Qed.

Lemma scan_paths_first paths :
  TrickPlayGeneratorHandler.scan_paths paths = head (filter is_playlist paths).
Proof.
  induction paths as [|path paths IH]; [done|]. simpl.
  destruct (Py.contains "m3u8" path) eqn:Hin.
  - by rewrite filter_cons_True by (by rewrite Hin).
  - rewrite filter_cons_False; [done|]. rewrite Hin. by intros [].
Qed.

Lemma scan_outputs_first outputs :
  TrickPlayGeneratorHandler.scan_outputs outputs
  = head (filter is_playlist (concat (paths_of_output <$> outputs))).
Proof.
  induction outputs as [|output outputs IH]; [done|].
  rewrite fmap_cons. change (concat (?x :: ?l)) with (x ++ concat l).
  rewrite head_filter_app, <-IH, <-scan_paths_first. done.
Qed.

Lemma scan_groups_first output_groups :
  TrickPlayGeneratorHandler.scan_groups output_groups
  = head (filter is_playlist (concat (paths_of_group <$> output_groups))).
Proof.
  induction output_groups as [|output_group output_groups IH]; [done|].
  rewrite fmap_cons. change (concat (?x :: ?l)) with (x ++ concat l).
  rewrite head_filter_app, <-IH. unfold paths_of_group.
  rewrite <-scan_outputs_first. done.
Qed.

End ExtractUrl.

(** X15. [_extract_hls_url] returns the first output path, in the order of
    the event's groups, outputs and paths, that contains [m3u8] anywhere in
    it, and [None] when no path does; it has no effect. *)
Theorem extract_hls_url_first_match (detail : Detail) (w : World) :
  TrickPlayGeneratorHandler._extract_hls_url detail w
  = (Ok (head (filter (λ path, Py.contains "m3u8" path) (paths_of_detail detail))),
     w).
Proof.
  unfold TrickPlayGeneratorHandler._extract_hls_url, try_except, paths_of_detail.
  simpl. by rewrite scan_groups_first.
Qed.

Section ExtractorHandler.

Context (env : Env) (cfg : Config) (context : Context).

Lemma extractor_handler_prefix event w :
  configured cfg →
  TrickPlayGeneratorHandler.lambda_handler env cfg event context w
  = try_except
      (let detail := default TrickPlayGeneratorHandler.empty_detail (detail event) in
       if negb (truthy (mediaKey detail)) || negb (truthy (mediaKeyId detail))
       then raise (mkExn ValueError "Missing required fields: mediaKey, mediaKeyId")
       else
         match head (filter (λ path, Py.contains "m3u8" path)
                       (paths_of_detail detail)) with
         | Some (String c u) =>
             StructuredLogger.info "Processing media";;
             thumbs ← TrickPlayGenerator.generate_thumbnails env cfg (String c u)
                         (default "" (mediaKey detail))
                         (default "" (AWS_S3_BUCKET cfg))
                         (default "" (mediaKeyId detail));
             (if truthy (SQS_MANIFEST_QUEUE_URL cfg)
              then
                _ ← SQSHelper.send_message env (SQS_MANIFEST_QUEUE_URL cfg)
                       (TrickPlayGeneratorHandler.manifest_message
                          (default "" (mediaKey detail))
                          (default "" (mediaKeyId detail)) (String c u)
                          thumbs.1 thumbs.2 context);
                mret ()
              else mret ());;
             StructuredLogger.info "Trick play generation succeeded";;
             mret (TrickPlayGeneratorHandler.success_response
                     (default "" (mediaKey detail)) thumbs.1 thumbs.2)
         | _ => raise (mkExn ValueError "No HLS manifest found in event")
         end)
      (λ e,
         if is_TrickPlayError e
         then
           StructuredLogger.error "Trick play error" (Some e);;
           mret (mkResponse 400 (JObj [("error", JStr (exn_str e))]))
         else
           StructuredLogger.error "Unexpected error in trick play generator"
             (Some e);;
           mret (mkResponse 500 (JObj [("error", JStr "Internal server error")])))
      (add_log (info_entry "Trick play generator lambda invoked") w).
Proof.
  intros Hcfg. unfold TrickPlayGeneratorHandler.lambda_handler, try_except.
  cbv zeta.
  erewrite bind_ok by reflexivity.
  erewrite bind_ok by (by apply validate_configured).
  destruct (negb (truthy (mediaKey _)) || negb (truthy (mediaKeyId _))); [done|].
  erewrite (bind_ok (TrickPlayGeneratorHandler._extract_hls_url _))
    by apply extract_hls_url_first_match.
  by destruct (head _) as [[|c u]|].
Qed.

End ExtractorHandler.

Lemma found_hls_url_nonempty event hls_url :
  found_hls_url event = Some hls_url → ∃ c u, hls_url = String c u.
Proof.
  unfold found_hls_url. intros Hhead.
  assert (hls_url ∈ filter (λ path, Py.contains "m3u8" path)
                      (paths_of_detail (detail_of event))) as Hin.
  { destruct (filter _ _) as [|p l]; [done|]. injection Hhead as ->.
    apply list_elem_of_here. }
  apply list_elem_of_filter in Hin as [Hin _].
  destruct hls_url as [|c u]; [done|]. eauto.
Qed.

(** X16. With a valid configuration, an event that lacks a non-empty
    [mediaKey] or [mediaKeyId], or in which no output path contains [m3u8],
    is answered with status 500 and the fixed internal-error body (the
    [ValueError] is not a [TrickPlayError]); nothing is downloaded, no
    process is started and nothing is published. *)
Theorem extractor_handler_rejects_event (env : Env) (cfg : Config)
    (event : CompletionEvent) (context : Context) (w : World) :
  configured cfg →
  negb (truthy (mediaKey (detail_of event)))
  || negb (truthy (mediaKeyId (detail_of event)))
  || negb (truthy (found_hls_url event)) = true →
  (TrickPlayGeneratorHandler.lambda_handler env cfg event context w).1
  = Ok (mkResponse 500 (JObj [("error", JStr "Internal server error")]))
  ∧ calls (TrickPlayGeneratorHandler.lambda_handler env cfg event context w).2
    = calls w
  ∧ objects (TrickPlayGeneratorHandler.lambda_handler env cfg event context w).2
    = objects w.
Proof.
  intros Hcfg Hbad. rewrite extractor_handler_prefix by done.
  unfold try_except. cbv zeta. fold (detail_of event).
  destruct (negb (truthy (mediaKey (detail_of event)))
            || negb (truthy (mediaKeyId (detail_of event)))) eqn:Hfields;
    [done|].
  simpl in Hbad. fold (found_hls_url event).
  destruct (found_hls_url event) as [[|c u]|]; done.
Qed.

Lemma extractor_handler_rejects_event_witness :
  (TrickPlayGeneratorHandler.lambda_handler example_env example_config
     (mkCompletionEvent (Some (mkDetail (Some "clip") None None)))
     (mkContext "req-1") empty_world).1
  = Ok (mkResponse 500 (JObj [("error", JStr "Internal server error")])).
Proof.
  destruct (extractor_handler_rejects_event example_env example_config
              (mkCompletionEvent (Some (mkDetail (Some "clip") None None)))
              (mkContext "req-1") empty_world) as (Hstatus & _).
  - split; reflexivity.
  - reflexivity.
  - exact Hstatus.
Defined.

(** X17. With a valid configuration and an event that names the media and
    a playlist, a failure of [generate_thumbnails] is answered with status
    400 and the error's text; the handler's run ends there: beyond the
    generator's own effects it only logs the error, so no message is
    published for the composer. The generator's failure is its typed error
    whenever the temporary workspace was set up and removed; an error of
    the workspace itself is answered with status 500. *)
Theorem extractor_handler_reports_generator_failure (env : Env) (cfg : Config)
    (event : CompletionEvent) (context : Context) (w w2 : World)
    (hls_url : string) (e : Exn) :
  configured cfg →
  truthy (mediaKey (detail_of event)) = true →
  truthy (mediaKeyId (detail_of event)) = true →
  found_hls_url event = Some hls_url →
  TrickPlayGenerator.generate_thumbnails env cfg hls_url
    (default "" (mediaKey (detail_of event))) (default "" (AWS_S3_BUCKET cfg))
    (default "" (mediaKeyId (detail_of event))) (generator_start w)
  = (Raise e, w2) →
  (workspace_ok env → exn_kind e = FFMpegError)
  ∧ (is_TrickPlayError e = true →
     TrickPlayGeneratorHandler.lambda_handler env cfg event context w
     = (Ok (mkResponse 400 (JObj [("error", JStr (exn_str e))])),
        add_log (error_entry "Trick play error" e) w2))
  ∧ (is_TrickPlayError e = false →
     TrickPlayGeneratorHandler.lambda_handler env cfg event context w
     = (Ok (mkResponse 500 (JObj [("error", JStr "Internal server error")])),
        add_log (error_entry "Unexpected error in trick play generator" e) w2)).
Proof.
  intros Hcfg Hkey Hpath Hurl Hgen.
  destruct (found_hls_url_nonempty event hls_url Hurl) as (c & u & ->).
  pose proof (generate_thumbnails_error_kind env cfg (String c u)
                (default "" (mediaKey (detail_of event)))
                (default "" (AWS_S3_BUCKET cfg))
                (default "" (mediaKeyId (detail_of event))) (generator_start w))
    as Hkind.
  rewrite Hgen in Hkind. simpl in Hkind.
  split.
  { intros [Hcreate Hclean]. destruct Hkind as [Hkind|[Hkind|Hkind]];
      [done|congruence|congruence]. }
  assert (TrickPlayGeneratorHandler.lambda_handler env cfg event context w
          = if is_TrickPlayError e
            then (Ok (mkResponse 400 (JObj [("error", JStr (exn_str e))])),
                  add_log (error_entry "Trick play error" e) w2)
            else (Ok (mkResponse 500 (JObj [("error", JStr "Internal server error")])),
                  add_log (error_entry "Unexpected error in trick play generator" e)
                    w2)) as Hrun.
  { rewrite extractor_handler_prefix by done. cbv zeta.
    fold (detail_of event). rewrite Hkey, Hpath. simpl.
    fold (found_hls_url event). rewrite Hurl.
    erewrite try_except_raise.
    2:{ erewrite bind_ok by reflexivity. erewrite bind_raise by exact Hgen.
        reflexivity. }
    by destruct (is_TrickPlayError e). }
  rewrite Hrun. by split; intros ->.
Qed.

Lemma extractor_handler_reports_generator_failure_witness :
  (TrickPlayGeneratorHandler.lambda_handler example_env example_config
     (mkCompletionEvent (Some example_detail)) (mkContext "req-1")
     (world_with "a/play.m3u8" stream_playlist)).1
  = Ok (mkResponse 400
          (JObj [("error",
                  JStr ("Failed to generate thumbnails for clip: "
                        +:+ "FFmpeg failed for clip: "
                        +:+ "Invalid data found when processing input"))])).
Proof.
  destruct (extractor_handler_reports_generator_failure example_env example_config
              (mkCompletionEvent (Some example_detail)) (mkContext "req-1")
              (world_with "a/play.m3u8" stream_playlist)
              (TrickPlayGenerator.generate_thumbnails example_env example_config
                 "s3://media-bucket/a/play.m3u8" "clip" "media-bucket" "a/"
                 (generator_start (world_with "a/play.m3u8" stream_playlist))).2
              "s3://media-bucket/a/play.m3u8"
              (mkExn FFMpegError
                 ("Failed to generate thumbnails for clip: "
                  +:+ "FFmpeg failed for clip: "
                  +:+ "Invalid data found when processing input")))
    as (_ & Hanswer & _).
  - split; reflexivity.
  - reflexivity.
  - reflexivity.
  - reflexivity.
  - vm_compute. reflexivity.
  - rewrite Hanswer; reflexivity.
Defined.

(** X18. With a valid configuration, a manifest queue and an event that
    names the media and a playlist, a run of [generate_thumbnails] that
    returns is followed by exactly one message to the manifest queue,
    carrying the media key, the media path, the playlist URL and both key
    lists. When the queue accepts it the answer is status 200 with the two
    counts; when the queue rejects it the answer is status 400 with the
    queue's error, the thumbnails staying uploaded. *)
Theorem extractor_handler_publishes_keys (env : Env) (cfg : Config)
    (event : CompletionEvent) (context : Context) (w w2 : World)
    (hls_url : string) (small_thumbs big_thumbs : list string)
    (q : ascii) (queue : string) :
  configured cfg →
  truthy (mediaKey (detail_of event)) = true →
  truthy (mediaKeyId (detail_of event)) = true →
  found_hls_url event = Some hls_url →
  SQS_MANIFEST_QUEUE_URL cfg = Some (String q queue) →
  TrickPlayGenerator.generate_thumbnails env cfg hls_url
    (default "" (mediaKey (detail_of event))) (default "" (AWS_S3_BUCKET cfg))
    (default "" (mediaKeyId (detail_of event))) (generator_start w)
  = (Ok (small_thumbs, big_thumbs), w2) →
  calls (TrickPlayGeneratorHandler.lambda_handler env cfg event context w).2
  = calls w2 ++
    [SQSSendMessage (String q queue)
       (TrickPlayGeneratorHandler.manifest_message
          (default "" (mediaKey (detail_of event)))
          (default "" (mediaKeyId (detail_of event))) hls_url
          small_thumbs big_thumbs context)]
  ∧ objects (TrickPlayGeneratorHandler.lambda_handler env cfg event context w).2
    = objects w2
  ∧ (TrickPlayGeneratorHandler.lambda_handler env cfg event context w).1
    = match sqs_send_message env (String q queue)
              (TrickPlayGeneratorHandler.manifest_message
                 (default "" (mediaKey (detail_of event)))
                 (default "" (mediaKeyId (detail_of event))) hls_url
                 small_thumbs big_thumbs context) with
      | Accepted _ =>
          Ok (TrickPlayGeneratorHandler.success_response
                (default "" (mediaKey (detail_of event))) small_thumbs big_thumbs)
      | Rejected error =>
          Ok (mkResponse 400
                (JObj [("error", JStr ("Error sending SQS message: " +:+ error))]))
      end.
Proof.
  intros Hcfg Hkey Hpath Hurl Hqueue Hgen.
  destruct (found_hls_url_nonempty event hls_url Hurl) as (c & u & ->).
  rewrite extractor_handler_prefix by done. cbv zeta.
  fold (detail_of event). rewrite Hkey, Hpath. simpl negb. simpl orb.
  cbv iota. fold (found_hls_url event). rewrite Hurl, Hqueue.
  unfold try_except.
  erewrite bind_ok by reflexivity.
  erewrite bind_ok by exact Hgen.
  unfold SQSHelper.send_message, mbind, M_bind. simpl.
  destruct (sqs_send_message env (String q queue) _) as [message_id|error];
    simpl; done.
Qed.

Lemma extractor_handler_publishes_keys_witness :
  (TrickPlayGeneratorHandler.lambda_handler sampling_env example_config
     (mkCompletionEvent (Some example_detail)) (mkContext "req-1")
     (world_with "a/play.m3u8" stream_playlist)).1
  = Ok (TrickPlayGeneratorHandler.success_response "clip"
          ["a/thumbs/clip.00001.jpg"; "a/thumbs/clip.00002.jpg"]
          ["a/thumbs/clip.00001.jpg"; "a/thumbs/clip.00002.jpg"]).
Proof.
  destruct (extractor_handler_publishes_keys sampling_env example_config
              (mkCompletionEvent (Some example_detail)) (mkContext "req-1")
              (world_with "a/play.m3u8" stream_playlist)
              (TrickPlayGenerator.generate_thumbnails sampling_env example_config
                 "s3://media-bucket/a/play.m3u8" "clip" "media-bucket" "a/"
                 (generator_start (world_with "a/play.m3u8" stream_playlist))).2
              "s3://media-bucket/a/play.m3u8"
              ["a/thumbs/clip.00001.jpg"; "a/thumbs/clip.00002.jpg"]
              ["a/thumbs/clip.00001.jpg"; "a/thumbs/clip.00002.jpg"]
              "h"%char "ttps://sqs.example/manifest")
    as (_ & _ & Hanswer).
  - split; reflexivity.
  - reflexivity.
  - reflexivity.
  - reflexivity.
  - reflexivity.
  - vm_compute. reflexivity.
  - exact Hanswer.
Defined.

(** ** The extractor, resolution after resolution *)

Section ExtractorSteps.

Context (env : Env) (cfg : Config).
Context (hls_url media_key bucket media_path key content : string).
Context (Hkey : ManifestUpdater.playlist_key_parts hls_url !! 1 = Some key).
Context (Hworkspace : workspace_ok env).

#[local] Abbreviation downloaded :=
  (λ w, add_call
          (S3DownloadFile bucket key
             (TrickPlayGenerator.path_join (tmpdir env) "manifest.m3u8"))
          (add_log (info_entry "Downloading S3 file")
             (add_log (info_entry "Starting thumbnail generation") w))).

#[local] Abbreviation wrapped :=
  (λ e, mkExn FFMpegError
          ("Failed to generate thumbnails for " +:+ media_key +:+ ": "
           +:+ exn_str e)).

Lemma generate_thumbnails_missing_playlist w :
  objects w !! (bucket, key) = None →
  TrickPlayGenerator.generate_thumbnails env cfg hls_url media_key bucket
    media_path w
  = (Raise (wrapped (mkExn S3Error
                       ("Error downloading " +:+ bucket +:+ "/" +:+ key +:+ ": "
                        +:+ S3Helper.no_such_key))),
     add_log (error_entry "Thumbnail generation failed"
                (mkExn S3Error
                   ("Error downloading " +:+ bucket +:+ "/" +:+ key +:+ ": "
                    +:+ S3Helper.no_such_key)))
       (downloaded w)).
Proof.
  intros Hobj. unfold TrickPlayGenerator.generate_thumbnails.
  rewrite workspace_run by done. cbv zeta.
  erewrite try_except_raise; [reflexivity|].
  erewrite bind_ok by reflexivity.
  erewrite bind_ok
    by (unfold ManifestUpdater.playlist_key_of, list_index; by rewrite Hkey).
  erewrite bind_raise; [reflexivity|].
  unfold S3Helper.download_file, mbind, M_bind. simpl. by rewrite Hobj.
Qed.

Lemma generate_thumbnails_steps w :
  objects w !! (bucket, key) = Some content →
  TrickPlayGenerator.generate_thumbnails env cfg hls_url media_key bucket
    media_path w
  = match TrickPlayGenerator._generate_resolution_thumbnails env cfg hls_url
            media_key (TrickPlayGenerator.path_join (tmpdir env) "small") bucket
            media_path (THUMBNAIL_WIDTH cfg) (THUMBNAIL_HEIGHT cfg)
            THUMBNAIL_SMALL_SUFFIX (downloaded w) with
    | (Raise e, w1) =>
        (Raise (wrapped e), add_log (error_entry "Thumbnail generation failed" e) w1)
    | (Ok small_thumbnails, w1) =>
        match TrickPlayGenerator._generate_resolution_thumbnails env cfg hls_url
                media_key (TrickPlayGenerator.path_join (tmpdir env) "big") bucket
                media_path (THUMBNAIL_BIG_WIDTH cfg) (THUMBNAIL_BIG_HEIGHT cfg)
                THUMBNAIL_BIG_SUFFIX w1 with
        | (Raise e, w2) =>
            (Raise (wrapped e),
             add_log (error_entry "Thumbnail generation failed" e) w2)
        | (Ok big_thumbnails, w2) =>
            (Ok (small_thumbnails, big_thumbnails),
             add_log (info_entry "Thumbnail generation completed") w2)
        end
    end.
Proof.
  intros Hobj. unfold TrickPlayGenerator.generate_thumbnails.
  rewrite workspace_run by done. cbv zeta.
  assert (S3Helper.download_file bucket key
            (TrickPlayGenerator.path_join (tmpdir env) "manifest.m3u8")
            (add_log (info_entry "Starting thumbnail generation") w)
          = (Ok (), downloaded w)) as Hdown.
  { unfold S3Helper.download_file, mbind, M_bind. simpl. by rewrite Hobj. }
  unfold try_except.
  erewrite bind_ok by reflexivity.
  erewrite bind_ok
    by (unfold ManifestUpdater.playlist_key_of, list_index; by rewrite Hkey).
  erewrite bind_ok by exact Hdown.
  unfold mbind, M_bind.
  destruct (TrickPlayGenerator._generate_resolution_thumbnails env cfg hls_url
              media_key (TrickPlayGenerator.path_join (tmpdir env) "small") _ _ _ _
              _ _) as [[small|e] w1]; [|done].
  destruct (TrickPlayGenerator._generate_resolution_thumbnails env cfg hls_url
              media_key (TrickPlayGenerator.path_join (tmpdir env) "big") _ _ _ _
              _ _) as [[big|e] w2]; done.
Qed.

End ExtractorSteps.

Section ResolutionRuns.

Context (env : Env) (cfg : Config).
Context (hls_url media_key output_dir bucket media_path : string).
Context (width height : Z) (suffix : string) (process : Process).
Context (Hrun : run_process env
                  (TrickPlayGenerator.ffmpeg_cmd cfg hls_url media_key output_dir
                     width height suffix) = Ok process).

Lemma generate_resolution_returns w :
  returncode process = 0%Z →
  ∃ w',
    TrickPlayGenerator._generate_resolution_thumbnails env cfg hls_url media_key
      output_dir bucket media_path width height suffix w
    = (Ok (keys_of cfg media_path process), w') ∧
    calls w'
    = calls w ++
      Popen (TrickPlayGenerator.ffmpeg_cmd cfg hls_url media_key output_dir
               width height suffix)
      :: uploads_of cfg bucket media_path output_dir process ∧
    objects w'
    = uploaded bucket (thumbnails_folder_of cfg media_path) (output_files process)
        (kept_files cfg (output_files process).*1) (objects w).
Proof.
  intros Hcode.
  destruct (upload_all_run cfg media_key output_dir bucket
              (thumbnails_folder_of cfg media_path) (output_files process)
              (merge_sort String.le (output_files process).*1) []
              (add_call (Popen (TrickPlayGenerator.ffmpeg_cmd cfg hls_url media_key
                                  output_dir width height suffix))
                 (add_log (info_entry "Running FFmpeg") w)))
    as (w' & Hup & Hcalls & Hobjects).
  exists (add_log (info_entry "Resolution thumbnails generated and uploaded") w').
  split; [|split].
  - unfold TrickPlayGenerator._generate_resolution_thumbnails. cbv zeta.
    eapply try_except_ok.
    erewrite bind_ok by reflexivity.
    erewrite bind_ok.
    2:{ unfold TrickPlayGenerator.popen, mbind, M_bind. simpl.
        rewrite Hrun. reflexivity. }
    rewrite bool_decide_eq_false_2 by (intros H; by apply H).
    erewrite bind_ok by exact Hup. reflexivity.
  - simpl. rewrite Hcalls. simpl. by rewrite <-(assoc_L (++)).
  - simpl. by rewrite Hobjects.
Qed.

End ResolutionRuns.

(** ** Failures of the sampler and of the workspace *)




(** X19. When the master playlist is in the bucket and both sampler runs
    exit with status 0, [generate_thumbnails] returns the keys of the small
    frames and the keys of the big frames, after one download, then the
    small resolution's process and uploads, then the big resolution's
    process and uploads, in this order (the temporary workspace being
    created and removed without error). *)
Theorem extractor_runs_small_then_big (env : Env) (cfg : Config)
    (hls_url media_key bucket media_path key content : string)
    (small_process big_process : Process) (w : World) :
  workspace_ok env →
  ManifestUpdater.playlist_key_parts hls_url !! 1 = Some key →
  objects w !! (bucket, key) = Some content →
  run_process env (small_cmd env cfg hls_url media_key) = Ok small_process →
  returncode small_process = 0%Z →
  run_process env (big_cmd env cfg hls_url media_key) = Ok big_process →
  returncode big_process = 0%Z →
  (TrickPlayGenerator.generate_thumbnails env cfg hls_url media_key bucket
     media_path w).1
  = Ok (keys_of cfg media_path small_process, keys_of cfg media_path big_process)
  ∧ calls (TrickPlayGenerator.generate_thumbnails env cfg hls_url media_key
             bucket media_path w).2
    = calls w ++
      [S3DownloadFile bucket key
         (TrickPlayGenerator.path_join (tmpdir env) "manifest.m3u8")]
      ++ Popen (small_cmd env cfg hls_url media_key)
         :: uploads_of cfg bucket media_path
              (TrickPlayGenerator.path_join (tmpdir env) "small") small_process
      ++ Popen (big_cmd env cfg hls_url media_key)
         :: uploads_of cfg bucket media_path
              (TrickPlayGenerator.path_join (tmpdir env) "big") big_process.
Proof.
  intros Hworkspace Hkey Hobj Hsmall Hcs Hbig Hcb.
  rewrite (generate_thumbnails_steps env cfg hls_url media_key bucket media_path
             key content Hkey Hworkspace w Hobj).
  match goal with
  | |- context [TrickPlayGenerator._generate_resolution_thumbnails _ _ _ _ _ _ _ _
                  _ _ ?w0] =>
      destruct (generate_resolution_returns env cfg hls_url media_key
                  (TrickPlayGenerator.path_join (tmpdir env) "small") bucket
                  media_path (THUMBNAIL_WIDTH cfg) (THUMBNAIL_HEIGHT cfg)
                  THUMBNAIL_SMALL_SUFFIX small_process Hsmall w0 Hcs)
        as (w1 & -> & Hcalls1 & _)
  end.
  destruct (generate_resolution_returns env cfg hls_url media_key
              (TrickPlayGenerator.path_join (tmpdir env) "big") bucket
              media_path (THUMBNAIL_BIG_WIDTH cfg) (THUMBNAIL_BIG_HEIGHT cfg)
              THUMBNAIL_BIG_SUFFIX big_process Hbig w1 Hcb)
    as (w2 & -> & Hcalls2 & _).
  split; [done|]. simpl. rewrite Hcalls2, Hcalls1. simpl.
  by rewrite <-!(assoc_L (++)).
Qed.

Lemma extractor_runs_small_then_big_witness :
  (TrickPlayGenerator.generate_thumbnails sampling_env example_config
     "s3://media-bucket/a/play.m3u8" "clip" "media-bucket" "a/"
     (world_with "a/play.m3u8" stream_playlist)).1
  = Ok (["a/thumbs/clip.00001.jpg"; "a/thumbs/clip.00002.jpg"],
        ["a/thumbs/clip.00001.jpg"; "a/thumbs/clip.00002.jpg"]).
Proof.
  destruct (extractor_runs_small_then_big sampling_env example_config
              "s3://media-bucket/a/play.m3u8" "clip" "media-bucket" "a/"
              "a/play.m3u8" stream_playlist
              (mkProcess 0 "" ""
                 [("clip.00002.jpg", "frame two"); ("ffmpeg.log", "log");
                  ("clip.00001.jpg", "frame one")])
              (mkProcess 0 "" ""
                 [("clip.00002.jpg", "frame two"); ("ffmpeg.log", "log");
                  ("clip.00001.jpg", "frame one")])
              (world_with "a/play.m3u8" stream_playlist)) as (Hkeys & _).
  - split; reflexivity.
  - reflexivity.
  - vm_compute. reflexivity.
  - reflexivity.
  - reflexivity.
  - reflexivity.
  - reflexivity.
  - rewrite Hkeys. vm_compute. reflexivity.
Defined.

(** X20. When the master playlist is not in the bucket,
    [generate_thumbnails] raises [FFMpegError] carrying the download error
    right after the download request: no sampler process is started and no
    object is stored (the temporary workspace being created and removed
    without error). *)
Theorem extractor_stops_without_playlist (env : Env) (cfg : Config)
    (hls_url media_key bucket media_path key : string) (w : World) :
  workspace_ok env →
  ManifestUpdater.playlist_key_parts hls_url !! 1 = Some key →
  objects w !! (bucket, key) = None →
  (TrickPlayGenerator.generate_thumbnails env cfg hls_url media_key bucket
     media_path w).1
  = Raise (mkExn FFMpegError
             ("Failed to generate thumbnails for " +:+ media_key +:+ ": "
              +:+ "Error downloading " +:+ bucket +:+ "/" +:+ key +:+ ": "
              +:+ S3Helper.no_such_key))
  ∧ calls (TrickPlayGenerator.generate_thumbnails env cfg hls_url media_key
             bucket media_path w).2
    = calls w ++
      [S3DownloadFile bucket key
         (TrickPlayGenerator.path_join (tmpdir env) "manifest.m3u8")]
  ∧ objects (TrickPlayGenerator.generate_thumbnails env cfg hls_url media_key
               bucket media_path w).2
    = objects w.
Proof.
  intros Hworkspace Hkey Hobj.
  rewrite (generate_thumbnails_missing_playlist env cfg hls_url media_key bucket
             media_path key Hkey Hworkspace w Hobj).
  done.
Qed.

Lemma extractor_stops_without_playlist_witness :
  calls (TrickPlayGenerator.generate_thumbnails sampling_env example_config
           "s3://media-bucket/a/play.m3u8" "clip" "media-bucket" "a/"
           empty_world).2
  = calls empty_world ++
    [S3DownloadFile "media-bucket" "a/play.m3u8"
       (TrickPlayGenerator.path_join (tmpdir sampling_env) "manifest.m3u8")].
Proof.
  destruct (extractor_stops_without_playlist sampling_env example_config
              "s3://media-bucket/a/play.m3u8" "clip" "media-bucket" "a/"
              "a/play.m3u8" empty_world) as (_ & Hcalls & _).
  - split; reflexivity.
  - reflexivity.
  - reflexivity.
  - exact Hcalls.
Defined.

(** X21. When the sampler succeeds for the small resolution and then exits
    with a non-zero status for the big one, [generate_thumbnails] raises
    [FFMpegError] and returns no keys, while the small frames uploaded
    before the failure stay stored under their keys (the temporary
    workspace being created and removed without error). *)
Theorem extractor_keeps_small_frames_on_big_failure (env : Env) (cfg : Config)
    (hls_url media_key bucket media_path key content : string)
    (small_process big_process : Process) (text : string) (w : World) :
  workspace_ok env →
  ManifestUpdater.playlist_key_parts hls_url !! 1 = Some key →
  objects w !! (bucket, key) = Some content →
  run_process env (small_cmd env cfg hls_url media_key) = Ok small_process →
  returncode small_process = 0%Z →
  run_process env (big_cmd env cfg hls_url media_key) = Ok big_process →
  returncode big_process ≠ 0%Z →
  (if bool_decide (stderr big_process = "")
   then text = "Unknown FFmpeg error"
   else decode_utf8 env (stderr big_process) = Some text) →
  (TrickPlayGenerator.generate_thumbnails env cfg hls_url media_key bucket
     media_path w).1
  = Raise (mkExn FFMpegError
             ("Failed to generate thumbnails for " +:+ media_key +:+ ": "
              +:+ "FFmpeg failed for " +:+ media_key +:+ ": " +:+ text))
  ∧ ∀ filename,
      filename ∈ kept_files cfg (output_files small_process).*1 →
      objects (TrickPlayGenerator.generate_thumbnails env cfg hls_url media_key
                 bucket media_path w).2
        !! (bucket, thumbnails_folder_of cfg media_path +:+ filename)
      = Some (TrickPlayGenerator.file_body filename (output_files small_process)).
Proof.
  intros Hworkspace Hkey Hobj Hsmall Hcs Hbig Hcb Htext.
  rewrite (generate_thumbnails_steps env cfg hls_url media_key bucket media_path
             key content Hkey Hworkspace w Hobj).
  match goal with
  | |- context [TrickPlayGenerator._generate_resolution_thumbnails _ _ _ _ _ _ _ _
                  _ _ ?w0] =>
      destruct (generate_resolution_returns env cfg hls_url media_key
                  (TrickPlayGenerator.path_join (tmpdir env) "small") bucket
                  media_path (THUMBNAIL_WIDTH cfg) (THUMBNAIL_HEIGHT cfg)
                  THUMBNAIL_SMALL_SUFFIX small_process Hsmall w0 Hcs)
        as (w1 & -> & _ & Hobjects)
  end.
  rewrite (generate_resolution_nonzero env cfg hls_url media_key
             (TrickPlayGenerator.path_join (tmpdir env) "big") bucket media_path
             (THUMBNAIL_BIG_WIDTH cfg) (THUMBNAIL_BIG_HEIGHT cfg)
             THUMBNAIL_BIG_SUFFIX big_process text w1 Hbig Hcb Htext).
  split; [done|]. intros filename Hin. simpl. rewrite Hobjects.
  by apply uploaded_lookup.
Qed.

Lemma extractor_keeps_small_frames_on_big_failure_witness :
  (TrickPlayGenerator.generate_thumbnails half_failing_env example_config
     "s3://media-bucket/a/play.m3u8" "clip" "media-bucket" "a/"
     (world_with "a/play.m3u8" stream_playlist)).1
  = Raise (mkExn FFMpegError
             ("Failed to generate thumbnails for " +:+ "clip" +:+ ": "
              +:+ "FFmpeg failed for " +:+ "clip" +:+ ": " +:+ "Conversion failed!")).
Proof.
  destruct (extractor_keeps_small_frames_on_big_failure half_failing_env
              example_config "s3://media-bucket/a/play.m3u8" "clip" "media-bucket"
              "a/" "a/play.m3u8" stream_playlist
              (mkProcess 0 "" "" [("clip_small.00001.jpg", "frame one")])
              (mkProcess 1 "" "Conversion failed!" [])
              "Conversion failed!"
              (world_with "a/play.m3u8" stream_playlist)) as (Hraise & _).
  - split; reflexivity.
  - reflexivity.
  - vm_compute. reflexivity.
  - reflexivity.
  - reflexivity.
  - reflexivity.
  - discriminate.
  - reflexivity.
  - exact Hraise.
Defined.

(** ** Merging twice *)

Lemma merged_text_idempotent manifest_filename resolution bandwidth content :
  merged_text manifest_filename resolution bandwidth
    (merged_text manifest_filename resolution bandwidth content)
  = merged_text manifest_filename resolution bandwidth content.
Proof.
  assert (merged_text manifest_filename resolution bandwidth content = content
          ∨ Py.contains manifest_filename
              (merged_text manifest_filename resolution bandwidth content) = true)
    as [Hsame|Hnamed].
  { unfold merged_text.
    destruct (Py.contains manifest_filename content) eqn:Hin; [by left|].
    destruct (Py.contains "#EXT-X-STREAM-INF" content) eqn:Hstream.
    - right.
      destruct (updated_content_stream manifest_filename resolution bandwidth
                  content Hstream) as (pre & post & _ & ->).
      apply contains_app, image_stream_line_names_manifest.
    - destruct (Py.contains "#EXT-X-ENDLIST" content) eqn:Hend.
      + right.
        destruct (updated_content_endlist manifest_filename resolution bandwidth
                    content Hstream Hend) as (pre & post & _ & ->).
        apply contains_app, image_stream_line_names_manifest.
      + left. by apply updated_content_no_marker. }
  - rewrite Hsame. exact Hsame.
  - by apply merged_text_already.
Qed.

(** X22. For every stored master playlist, with or without markers, a
    second call of [_update_main_playlist] with the same arguments returns
    and leaves the stored objects exactly as the first call left them. *)
Theorem merge_twice_is_merge_once
    (bucket media_path hls_url manifest_filename resolution : string)
    (bandwidth : Z) (w : World) (playlist_key playlist_content : string) :
  ManifestUpdater.playlist_key_parts hls_url !! 1 = Some playlist_key →
  objects w !! (bucket, playlist_key) = Some playlist_content →
  ∃ w1 w2,
    ManifestUpdater._update_main_playlist bucket media_path hls_url
      manifest_filename resolution bandwidth w = (Ok (), w1) ∧
    ManifestUpdater._update_main_playlist bucket media_path hls_url
      manifest_filename resolution bandwidth w1 = (Ok (), w2) ∧
    objects w2 = objects w1.
Proof.
  intros Hkey Hobj.
  pose proof (merge_run bucket media_path hls_url manifest_filename resolution
                bandwidth w) as Hfirst.
  rewrite Hkey, Hobj in Hfirst. destruct Hfirst as (w1 & Hrun1 & Hobj1).
  pose proof (merge_run bucket media_path hls_url manifest_filename resolution
                bandwidth w1) as Hsecond.
  rewrite Hkey, Hobj1, lookup_insert_eq in Hsecond.
  destruct Hsecond as (w2 & Hrun2 & Hobj2).
  exists w1, w2. split; [done|]. split; [done|].
  rewrite Hobj2, Hobj1, merged_text_idempotent. apply insert_insert_eq.
Qed.

Lemma merge_twice_is_merge_once_witness :
  ∃ w1 w2,
    ManifestUpdater._update_main_playlist "media-bucket" "a/"
      "s3://media-bucket/a/play.m3u8" "thumbs_320x180.m3u8" "320x180" 16460
      (world_with "a/play.m3u8" ending_playlist) = (Ok (), w1) ∧
    ManifestUpdater._update_main_playlist "media-bucket" "a/"
      "s3://media-bucket/a/play.m3u8" "thumbs_320x180.m3u8" "320x180" 16460
      w1 = (Ok (), w2) ∧
    objects w2 = objects w1.
Proof.
  apply (merge_twice_is_merge_once "media-bucket" "a/"
           "s3://media-bucket/a/play.m3u8" "thumbs_320x180.m3u8" "320x180" 16460
           (world_with "a/play.m3u8" ending_playlist) "a/play.m3u8"
           ending_playlist).
  - reflexivity.
  - vm_compute. reflexivity.
Defined.

(** X23. A composer run that returns gives a status map with exactly one
    entry per non-empty thumbnail list, ["small"] and ["big"], each the
    message [Created thumbs_WxH.m3u8 for WxH] of its resolution. *)
Theorem composer_status_map (cfg : Config) (bucket media_path hls_url : string)
    (small_thumbnails big_thumbnails : list string) (w w' : World)
    (results : gmap string string) :
  ManifestUpdater.create_manifests_and_update_playlist cfg bucket media_path
    hls_url small_thumbnails big_thumbnails w = (Ok results, w') →
  results !! "small"
  = (if ManifestUpdater.nonempty small_thumbnails
     then Some (created_status (THUMBNAIL_SMALL_RESOLUTION cfg)) else None)
  ∧ results !! "big"
    = (if ManifestUpdater.nonempty big_thumbnails
       then Some (created_status (THUMBNAIL_BIG_RESOLUTION cfg)) else None)
  ∧ ∀ suffix, is_Some (results !! suffix) → suffix = "small" ∨ suffix = "big".
Proof.
  intros Hrun. apply composer_status in Hrun as ->. unfold expected_results.
  destruct (ManifestUpdater.nonempty small_thumbnails),
    (ManifestUpdater.nonempty big_thumbnails);
    (split; [done|split; [done|]]); intros suffix;
    rewrite ?lookup_insert, ?lookup_singleton, ?lookup_empty;
    repeat case_decide; subst; eauto; by intros [? ?].
Qed.

Lemma composer_status_map_witness :
  (expected_results example_config example_small []) !! "small"
  = Some (created_status (THUMBNAIL_SMALL_RESOLUTION example_config))
  ∧ (expected_results example_config example_small []) !! "big" = None.
Proof.
  destruct (composer_status_map example_config "media-bucket" "a/"
              "s3://media-bucket/a/play.m3u8" example_small []
              (world_with "a/play.m3u8" stream_playlist)
              (ManifestUpdater.create_manifests_and_update_playlist example_config
                 "media-bucket" "a/" "s3://media-bucket/a/play.m3u8"
                 example_small [] (world_with "a/play.m3u8" stream_playlist)).2
              (expected_results example_config example_small []))
    as (Hsmall & Hbig & _).
  - vm_compute. reflexivity.
  - split; [exact Hsmall|exact Hbig].
Defined.
